(** * Contact Integrity System: the interceptor service

    A shallow embedding of the interceptor's TypeScript sources

      - [services/interceptor/src/config.ts]           (module [Config])
      - [services/interceptor/src/interceptor.ts]      (modules [Interceptor]
                                                         and [Runtime])
      - [services/interceptor/src/circuit-breaker.ts]  (module [CircuitBreaker])
      - [services/interceptor/src/index.ts]            (modules [Dispatcher]
                                                         and [HealthServer])
      - [services/interceptor/src/async-emitter.ts]    (module [AsyncEmitter])
      - [services/dashboard/src/components/RiskBadge.tsx] (module [RiskBadge])

    together with the part of the JavaScript runtime these files lean on
    (module [JS]): strings as sequences of UTF-16 code units, the
    backtracking regular-expression matcher behind [String.prototype.match],
    [parseInt], [parseFloat] and IEEE-754 doubles.

    Numbers.  A JavaScript number is a binary64 float, and so is Rocq's
    primitive [float]: risk scores, weights and the sync threshold are
    computed with the very same roundings as in the service.  Quantities
    that are integers by construction (string lengths, set sizes, counters,
    the millisecond clock) are kept in [nat] or [Z]; a value produced by
    [parseInt] is an integer or NaN ([JS.num]), kept exact (a double is
    exact up to [2^53], far beyond any port, length or delay). *)

From Stdlib Require Import ZArith NArith List String Ascii Bool Lia.
From Stdlib Require Import Floats.PrimFloat Floats.SpecFloat Floats.FloatOps
  Floats.FloatAxioms.
Import ListNotations.

Set Warnings "-inexact-float".

(* ================================================================== *)
(** * The JavaScript runtime                                          *)
(* ================================================================== *)

Module JS.

(** ** Strings *)

(** A string value is a finite sequence of 16-bit code units; [length]
    is the [.length] property. *)
Definition code_unit := N.
Definition jsstring := list code_unit.

(** Program text (pattern characters, labels, messages) is ASCII and is
    written as a Rocq string literal. *)
Definition cu (a : ascii) : code_unit := N_of_ascii a.
Definition lit (s : string) : jsstring := map cu (list_ascii_of_string s).

Definition jsstring_eq_dec : forall a b : jsstring, {a = b} + {a <> b} :=
  list_eq_dec N.eq_dec.

Definition between (lo hi c : N) : bool := (lo <=? c)%N && (c <=? hi)%N.

(** [WhiteSpace] and [LineTerminator] of ECMA-262: what [\s] matches and
    what [trim] strips. *)
Definition isLineTerminator (c : code_unit) : bool :=
  existsb (N.eqb c) [10; 13; 8232; 8233]%N.

Definition isWhiteSpace (c : code_unit) : bool :=
  existsb (N.eqb c) [9; 11; 12; 32; 160; 5760; 8239; 8287; 12288; 65279]%N
  || between 8192 8202 c
  || isLineTerminator c.

Definition isDigit (c : code_unit) : bool := between 48 57 c.
Definition isUpper (c : code_unit) : bool := between 65 90 c.
Definition isLower (c : code_unit) : bool := between 97 122 c.

(** [\w]: ASCII letters, digits and underscore. *)
Definition isWordChar (c : code_unit) : bool :=
  isUpper c || isLower c || isDigit c || N.eqb c 95.

Fixpoint trimStart (s : jsstring) : jsstring :=
  match s with
  | c :: s' => if isWhiteSpace c then trimStart s' else s
  | [] => []
  end.

(** [String.prototype.trim] *)
Definition trim (s : jsstring) : jsstring :=
  rev (trimStart (rev (trimStart s))).

(** ** Regular expressions *)

(** The fragment of the pattern language that the service uses: literal
    characters, character classes with ranges and the escapes [\d \s \w],
    the dot, the word-boundary assertion, sequence, alternation and greedy
    bounded or unbounded repetition.  Groups are all non-capturing. *)
Inductive class_item : Type :=
| CChar (c : ascii)
| CRange (lo hi : ascii)
| CDigit
| CSpace
| CWord.

Inductive regex : Type :=
| Eps
| Chr (c : ascii)
| Class (negated : bool) (items : list class_item)
| Dot
| WordBoundary
| Seq (r1 r2 : regex)
| Alt (r1 r2 : regex)
| Rep (lo : nat) (hi : option nat) (r : regex).

(** A compiled pattern: every pattern of the service carries the [g] flag,
    some carry [i]. *)
Record RegExp : Type := mkRegExp { source : regex; ignoreCase : bool }.

(** [Canonicalize] of ECMA-262 (non-unicode mode) maps a code unit to its
    upper-case form, and never maps a non-ASCII unit to an ASCII one.  The
    patterns below are ASCII only, so it is enough to fold ASCII letters:
    a non-ASCII unit keeps a non-ASCII canonical form either way. *)
Definition swapCase (c : code_unit) : code_unit :=
  if isLower c then (c - 32)%N else if isUpper c then (c + 32)%N else c.

Definition item_mem (it : class_item) (c : code_unit) : bool :=
  match it with
  | CChar a => N.eqb c (cu a)
  | CRange lo hi => between (cu lo) (cu hi) c
  | CDigit => isDigit c
  | CSpace => isWhiteSpace c
  | CWord => isWordChar c
  end.

Definition class_mem (ic : bool) (items : list class_item) (c : code_unit) : bool :=
  existsb (fun it => item_mem it c || (ic && item_mem it (swapCase c))) items.

Definition chr_match (ic : bool) (a : ascii) (c : code_unit) : bool :=
  N.eqb c (cu a) || (ic && N.eqb (swapCase c) (cu a)).

(** A position in the subject: the code unit just before it (if any) and
    the text that remains. *)
Definition pos : Type := option code_unit * jsstring.

Definition isWordAt (o : option code_unit) : bool :=
  match o with Some c => isWordChar c | None => false end.

Definition atWordBoundary (x : pos) : bool :=
  negb (Bool.eqb (isWordAt (fst x)) (isWordAt (hd_error (snd x)))).

Definition hiZero (hi : option nat) : bool :=
  match hi with Some O => true | _ => false end.

Definition hiPred (hi : option nat) : option nat :=
  match hi with Some n => Some (Nat.pred n) | None => None end.

(** A matcher tries a pattern at a position and hands every way of
    matching it, in priority order, to its continuation; the first success
    wins (the continuation-passing style of the language definition). *)
Definition Matcher : Type := pos -> (pos -> option pos) -> option pos.

Definition remaining (x : pos) : nat := List.length (snd x).

(** RepeatMatcher for a greedy quantifier with bounds [lo] and [hi]: an
    iteration that consumed nothing once the minimum is met is rejected.
    [fuel] bounds the number of iterations. *)
Fixpoint repeatMatcher (m : Matcher) (fuel lo : nat) (hi : option nat)
  (x : pos) (k : pos -> option pos) {struct fuel} : option pos :=
  match fuel with
  | O => None
  | S fuel' =>
      if hiZero hi then k x
      else
        let d := fun y : pos =>
          if Nat.eqb lo 0 && Nat.eqb (remaining y) (remaining x)
          then None
          else repeatMatcher m fuel' (Nat.pred lo) (hiPred hi) y k in
        match lo with
        | S _ => m x d
        | O =>
            match m x d with
            | Some z => Some z
            | None => k x
            end
        end
  end.

(** The loop of a quantifier runs at most [lo + remaining x + 1] times
    (each turn uses up one of the [lo] required iterations or at least one
    code unit), which is the bound it is given: see [repeatMatcher_fuel]. *)
Fixpoint matcher (ic : bool) (r : regex) (x : pos) (k : pos -> option pos)
  {struct r} : option pos :=
  match r with
  | Eps => k x
  | Chr a =>
      match snd x with
      | c :: rest => if chr_match ic a c then k (Some c, rest) else None
      | [] => None
      end
  | Class neg items =>
      match snd x with
      | c :: rest =>
          if Bool.eqb (class_mem ic items c) (negb neg) then k (Some c, rest) else None
      | [] => None
      end
  | Dot =>
      match snd x with
      | c :: rest => if isLineTerminator c then None else k (Some c, rest)
      | [] => None
      end
  | WordBoundary => if atWordBoundary x then k x else None
  | Seq r1 r2 => matcher ic r1 x (fun y => matcher ic r2 y k)
  | Alt r1 r2 =>
      match matcher ic r1 x k with
      | Some z => Some z
      | None => matcher ic r2 x k
      end
  | Rep lo hi r' => repeatMatcher (matcher ic r') (lo + remaining x + 1) lo hi x k
  end.

(** The leftmost match at or after a position: the matched text and the
    position that follows it. *)
Fixpoint search (re : RegExp) (prev : option code_unit) (s : jsstring)
  {struct s} : option (jsstring * pos) :=
  match matcher (ignoreCase re) (source re) (prev, s) Some with
  | Some z => Some (firstn (List.length s - List.length (snd z)) s, z)
  | None =>
      match s with
      | c :: s' => search re (Some c) s'
      | [] => None
      end
  end.

(** The loop of [RegExp.prototype[@@match]] for a global pattern: collect
    the successive matches from [lastIndex = 0]; after an empty match the
    index advances by one. *)
Fixpoint matchLoop (fuel : nat) (re : RegExp) (prev : option code_unit)
  (s : jsstring) : list jsstring :=
  match fuel with
  | O => []
  | S fuel' =>
      match search re prev s with
      | None => []
      | Some (m, (prev', s')) =>
          m :: match m, s' with
               | [], c :: s'' => matchLoop fuel' re (Some c) s''
               | [], [] => []
               | _, _ => matchLoop fuel' re prev' s'
               end
      end
  end.

(** [content.match(regex)]: [None] is [null], otherwise the array of all
    matches. *)
Definition String_match (s : jsstring) (re : RegExp) : option (list jsstring) :=
  match matchLoop (S (List.length s)) re None s with
  | [] => None
  | ms => Some ms
  end.

(** Pattern-building shorthands. *)
Fixpoint seqs (rs : list regex) : regex :=
  match rs with
  | [] => Eps
  | [r] => r
  | r :: rs' => Seq r (seqs rs')
  end.

Fixpoint alts (rs : list regex) : regex :=
  match rs with
  | [] => Class false []
  | [r] => r
  | r :: rs' => Alt r (alts rs')
  end.

Definition word (s : string) : regex := seqs (map Chr (list_ascii_of_string s)).
Definition opt (r : regex) : regex := Rep 0 (Some 1) r.
Definition star (r : regex) : regex := Rep 0 None r.
Definition plus (r : regex) : regex := Rep 1 None r.
Definition times (n : nat) (r : regex) : regex := Rep n (Some n) r.
Definition atLeast (n : nat) (r : regex) : regex := Rep n None r.
Definition cls (items : list class_item) : regex := Class false items.

(** ** Numbers *)

(** Doubles.  [Math.max] and [Math.min] propagate NaN and order [-0]
    below [+0]. *)
Definition Math_max (a b : float) : float :=
  if is_nan a || is_nan b then nan
  else if PrimFloat.ltb a b then b
  else if PrimFloat.ltb b a then a
  else if get_sign a then b else a.

Definition Math_min (a b : float) : float :=
  if is_nan a || is_nan b then nan
  else if PrimFloat.ltb a b then a
  else if PrimFloat.ltb b a then b
  else if get_sign a then a else b.

(** [a || b] on numbers: [0], [-0] and NaN are falsy. *)
Definition float_or (a b : float) : float :=
  if is_zero a || is_nan a then b else a.

(** [a >= b] *)
Definition float_geb (a b : float) : bool := PrimFloat.leb b a.

(** The double nearest to an integer (ties to even). *)
Definition Z2float (z : Z) : float := SF2Prim (binary_normalize prec emax z 0 false).

Definition nat2float (n : nat) : float := Z2float (Z.of_nat n).

(** An integer-valued number that may be NaN: what [parseInt] returns.
    Comparisons with NaN are false. *)
Inductive num : Type := NaN | Int (z : Z).

Definition num_ltb (a b : num) : bool :=
  match a, b with Int x, Int y => Z.ltb x y | _, _ => false end.
Definition num_gtb (a b : num) : bool := num_ltb b a.
Definition num_geb (a b : num) : bool :=
  match a, b with Int x, Int y => Z.leb y x | _, _ => false end.

(** [a || b] on such numbers. *)
Definition num_or (a b : num) : num :=
  match a with
  | NaN | Int 0 => b
  | _ => a
  end.

(** [parseInt(s, 10)]: leading white space is skipped, then an optional
    sign and the longest run of decimal digits; NaN if there is none. *)
Fixpoint digitsValue (acc : Z) (s : jsstring) : Z :=
  match s with
  | c :: s' => if isDigit c then digitsValue (10 * acc + Z.of_N (c - 48)) s' else acc
  | [] => acc
  end.

Definition readSign (s : jsstring) : bool * jsstring :=
  match s with
  | c :: s' =>
      if N.eqb c 45 then (true, s') else if N.eqb c 43 then (false, s') else (false, s)
  | [] => (false, s)
  end.

Definition parseInt (s : jsstring) : num :=
  let '(neg, s) := readSign (trimStart s) in
  match s with
  | c :: _ =>
      if isDigit c then Int (if neg then - digitsValue 0 s else digitsValue 0 s) else NaN
  | [] => NaN
  end.

(** [parseFloat(s)]: the longest prefix (after leading white space) that
    is a [StrDecimalLiteral], read as the nearest double; NaN if there is
    none. *)
Fixpoint spanDigits (s : jsstring) : jsstring * jsstring :=
  match s with
  | c :: s' =>
      if isDigit c then let '(d, r) := spanDigits s' in (c :: d, r) else ([], s)
  | [] => ([], [])
  end.

Fixpoint startsWith (p s : jsstring) : bool :=
  match p, s with
  | [], _ => true
  | a :: p', b :: s' => N.eqb a b && startsWith p' s'
  | _ :: _, [] => false
  end.

(** The exponent part [e], [e+] or [e-] followed by digits; [0] when the
    text does not continue with one. *)
Definition readExponent (s : jsstring) : Z :=
  match s with
  | c :: s' =>
      if N.eqb c 101 || N.eqb c 69 then
        let '(neg, s'') := readSign s' in
        match spanDigits s'' with
        | ([], _) => 0
        | (d, _) => if neg then - digitsValue 0 d else digitsValue 0 d
        end
      else 0
  | [] => 0
  end%Z.

(** [(-1)^neg * m * 10^e], rounded to nearest, ties to even. *)
Definition decimalToFloat (neg : bool) (m e : Z) : float :=
  match m with
  | Zpos p =>
      if (0 <=? e)%Z
      then SF2Prim (binary_normalize prec emax
                      (if neg then - (m * 10 ^ e) else m * 10 ^ e) 0 false)
      else SF2Prim (SFdiv prec emax (S754_finite neg p 0)
                      (S754_finite false (Z.to_pos (10 ^ (- e))) 0))
  | _ => if neg then (-0)%float else 0%float
  end.

Definition parseFloat (s : jsstring) : float :=
  let '(neg, s) := readSign (trimStart s) in
  if startsWith (lit "Infinity") s
  then (if neg then neg_infinity else infinity)
  else
    let '(ip, r) := spanDigits s in
    let '(fp, r) :=
      match r with
      | c :: r' => if N.eqb c 46 then spanDigits r' else ([], r)
      | [] => ([], r)
      end in
    match (ip ++ fp)%list with
    | [] => nan
    | ds => decimalToFloat neg (digitsValue 0 ds)
              (readExponent r - Z.of_nat (List.length fp))
    end.

(** [Number.prototype.toString] on an integer-valued number, as a template
    literal prints it (plain decimal digits: integers below [10^21] in
    magnitude). *)
Definition digitChar (d : N) : ascii := ascii_of_N (48 + d).

Fixpoint posDigits (fuel : nat) (n : N) (acc : string) : string :=
  match fuel with
  | O => acc
  | S fuel' =>
      let acc := String (digitChar (n mod 10)) acc in
      if (n <? 10)%N then acc else posDigits fuel' (n / 10) acc
  end.

Definition Z_toString (z : Z) : string :=
  let n := Z.abs_N z in
  let ds := posDigits (S (N.to_nat (N.log2 n))) n EmptyString in
  if (z <? 0)%Z then String "-" ds else ds.

Definition num_toString (x : num) : string :=
  match x with
  | NaN => "NaN"
  | Int z => Z_toString z
  end.

(** Values a message field can hold at run time, for the checks the code
    makes on them: truthiness and [typeof v === "string"]. *)
Inductive value : Type :=
| VUndefined
| VNull
| VBool (b : bool)
| VNumber (x : float)
| VString (s : jsstring)
| VObject.

Definition truthy (v : value) : bool :=
  match v with
  | VUndefined | VNull => false
  | VBool b => b
  | VNumber x => negb (is_zero x || is_nan x)
  | VString s => negb (Nat.eqb (List.length s) 0)
  | VObject => true
  end.

End JS.

(* ================================================================== *)
(** * types.ts                                                        *)
(* ================================================================== *)

Module Types.
Import JS.

(** [content] is declared a string; the scorer checks it at run time, so
    the field holds any value. *)
Record ChatMessage : Type := mkChatMessage {
  message_id : jsstring;
  thread_id : jsstring;
  user_id : jsstring;
  content : value;
  timestamp : jsstring;
  gps_lat : option float;
  gps_lon : option float
}.

(** An absent optional property, or one set to [undefined], is [None]. *)
Record InterceptResult : Type := mkInterceptResult {
  allowed : bool;
  action : string;
  risk_score : float;
  labels : list string;
  nudge_message : option string;
  block_reason : option string
}.

Record InterceptorConfig : Type := mkInterceptorConfig {
  sync_threshold : float;
  redis_host : jsstring;
  redis_port : num;
  detection_host : jsstring;
  detection_port : num;
  circuit_breaker_threshold : num;
  circuit_breaker_reset_ms : num;
  max_message_length : num
}.

End Types.

(* ================================================================== *)
(** * config.ts                                                       *)
(* ================================================================== *)

Module Config.
Import JS Types.
Local Open Scope string_scope.

(** [process.env]: the variables that are set, with their values. *)
Definition Env : Type := list (string * jsstring).

Fixpoint process_env (env : Env) (name : string) : option jsstring :=
  match env with
  | (n, v) :: env' => if String.eqb n name then Some v else process_env env' name
  | [] => None
  end.

(** [process.env.NAME || "default"]: an unset or empty variable yields the
    default. *)
Definition env_or (env : Env) (name default : string) : jsstring :=
  match process_env env name with
  | Some (c :: v) => c :: v
  | _ => lit default
  end.

(** The [Error]s that [loadConfig] throws, each with the value it prints:
    - [Invalid sync_threshold: ${v}. Must be between 0 and 1.]
    - [Invalid redis_port: ${v}]
    - [Invalid detection_port: ${v}]
    - [Invalid circuit_breaker_threshold: ${v}]
    - [Invalid circuit_breaker_reset_ms: ${v}. Must be at least 1000ms.]
    - [Invalid max_message_length: ${v}] *)
Inductive ConfigError : Type :=
| Invalid_sync_threshold (v : float)
| Invalid_redis_port (v : num)
| Invalid_detection_port (v : num)
| Invalid_circuit_breaker_threshold (v : num)
| Invalid_circuit_breaker_reset_ms (v : num)
| Invalid_max_message_length (v : num).

(** The record that [loadConfig] builds before validating it. *)
Definition readConfig (env : Env) : InterceptorConfig :=
  {| sync_threshold := parseFloat (env_or env "SYNC_THRESHOLD" "0.65");
     redis_host := env_or env "REDIS_HOST" "localhost";
     redis_port := parseInt (env_or env "REDIS_PORT" "6379");
     detection_host := env_or env "DETECTION_HOST" "localhost";
     detection_port := parseInt (env_or env "DETECTION_PORT" "8000");
     circuit_breaker_threshold := parseInt (env_or env "CIRCUIT_BREAKER_THRESHOLD" "5");
     circuit_breaker_reset_ms := parseInt (env_or env "CIRCUIT_BREAKER_RESET_MS" "30000");
     max_message_length := parseInt (env_or env "MAX_MESSAGE_LENGTH" "10000") |}.

Definition loadConfig (env : Env) : ConfigError + InterceptorConfig :=
  let config := readConfig env in
  if PrimFloat.ltb (sync_threshold config) 0 || PrimFloat.ltb 1 (sync_threshold config)
  then inl (Invalid_sync_threshold (sync_threshold config))
  else if num_ltb (redis_port config) (Int 1) || num_gtb (redis_port config) (Int 65535)
  then inl (Invalid_redis_port (redis_port config))
  else if num_ltb (detection_port config) (Int 1)
          || num_gtb (detection_port config) (Int 65535)
  then inl (Invalid_detection_port (detection_port config))
  else if num_ltb (circuit_breaker_threshold config) (Int 1)
  then inl (Invalid_circuit_breaker_threshold (circuit_breaker_threshold config))
  else if num_ltb (circuit_breaker_reset_ms config) (Int 1000)
  then inl (Invalid_circuit_breaker_reset_ms (circuit_breaker_reset_ms config))
  else if num_ltb (max_message_length config) (Int 1)
  then inl (Invalid_max_message_length (max_message_length config))
  else inr config.

(** [getConfig] and [resetConfig]: the module variable [cachedConfig] is
    passed in and handed back.  A configuration object is truthy, so
    [!cachedConfig] holds exactly when the variable is [null]; when
    [loadConfig] throws, the assignment does not happen. *)
Definition getConfig (env : Env) (cachedConfig : option InterceptorConfig)
  : (ConfigError + InterceptorConfig) * option InterceptorConfig :=
  match cachedConfig with
  | Some config => (inr config, cachedConfig)
  | None =>
      match loadConfig env with
      | inr config => (inr config, Some config)
      | inl e => (inl e, None)
      end
  end.

Definition resetConfig (cachedConfig : option InterceptorConfig)
  : option InterceptorConfig := None.

End Config.

(* ================================================================== *)
(** * interceptor.ts: the Stage-1 pattern scorer                      *)
(* ================================================================== *)

Module Interceptor.
Import JS Types.
Local Open Scope string_scope.

(** ** PATTERNS *)

Module PATTERNS.

Definition digit : regex := cls [CDigit].
Definition space : regex := cls [CSpace].
(** [[\s.-]] *)
Definition sep : regex := cls [CSpace; CChar "."; CChar "-"].
(** [[a-zA-Z]], [[a-zA-Z0-9]], [[a-zA-Z0-9.-]], [[a-zA-Z0-9._%+-]] *)
Definition alpha : regex := cls [CRange "a" "z"; CRange "A" "Z"].
Definition alnum : regex := cls [CRange "a" "z"; CRange "A" "Z"; CRange "0" "9"].
Definition hostChar : regex :=
  cls [CRange "a" "z"; CRange "A" "Z"; CRange "0" "9"; CChar "."; CChar "-"].
Definition localChar : regex :=
  cls [CRange "a" "z"; CRange "A" "Z"; CRange "0" "9";
       CChar "."; CChar "_"; CChar "%"; CChar "+"; CChar "-"].
(** [[a-z]] *)
Definition lower : regex := cls [CRange "a" "z"].

Definition phone : list RegExp :=
  [ (* /(?:\+|00)\d{1,3}[\s.-]?\(?\d{1,4}\)?[\s.-]?\d{1,4}[\s.-]?\d{1,9}/g *)
    mkRegExp
      (seqs [alts [Chr "+"; word "00"]; Rep 1 (Some 3) digit; opt sep;
             opt (Chr "("); Rep 1 (Some 4) digit; opt (Chr ")"); opt sep;
             Rep 1 (Some 4) digit; opt sep; Rep 1 (Some 9) digit])
      false;
    (* /\(?\d{3}\)?[\s.-]?\d{3}[\s.-]?\d{4}/g *)
    mkRegExp
      (seqs [opt (Chr "("); times 3 digit; opt (Chr ")"); opt sep;
             times 3 digit; opt sep; times 4 digit])
      false;
    (* /\b\d{10,15}\b/g *)
    mkRegExp (seqs [WordBoundary; Rep 10 (Some 15) digit; WordBoundary]) false ].

Definition email : list RegExp :=
  [ (* /[a-zA-Z0-9._%+-]+@[a-zA-Z0-9.-]+\.[a-zA-Z]{2,}/g *)
    mkRegExp
      (seqs [plus localChar; Chr "@"; plus hostChar; Chr "."; atLeast 2 alpha])
      false;
    (* /[a-zA-Z0-9._%+-]+\s*\(?at\)?\s*[a-zA-Z0-9.-]+\s*\(?dot\)?\s*[a-zA-Z]{2,}/gi *)
    mkRegExp
      (seqs [plus localChar; star space; opt (Chr "("); word "at"; opt (Chr ")");
             star space; plus hostChar; star space; opt (Chr "("); word "dot";
             opt (Chr ")"); star space; atLeast 2 alpha])
      true;
    (* /\b[a-z]\s+[a-z]\s+[a-z].*@.*[a-z]\s+[a-z]\s+[a-z]\b/gi *)
    mkRegExp
      (seqs [WordBoundary; lower; plus space; lower; plus space; lower;
             star Dot; Chr "@"; star Dot;
             lower; plus space; lower; plus space; lower; WordBoundary])
      true ].

Definition url : list RegExp :=
  [ (* /https?:\/\/[^\s]+/gi *)
    mkRegExp
      (seqs [word "http"; opt (Chr "s"); word "://"; plus (Class true [CSpace])])
      true;
    (* /(?:www\.)[a-zA-Z0-9.-]+\.[a-zA-Z]{2,}/gi *)
    mkRegExp (seqs [word "www."; plus hostChar; Chr "."; atLeast 2 alpha]) true;
    (* /\b(?:bit\.ly|tinyurl\.com|goo\.gl|t\.co|short\.link)\/[a-zA-Z0-9]+/gi *)
    mkRegExp
      (seqs [WordBoundary;
             alts [word "bit.ly"; word "tinyurl.com"; word "goo.gl"; word "t.co";
                   word "short.link"];
             Chr "/"; plus alnum])
      true ].

Definition social : list RegExp :=
  [ (* /\b(?:whatsapp|telegram|snapchat|snap|insta|instagram|discord|kik|signal)\b/gi *)
    mkRegExp
      (seqs [WordBoundary;
             alts [word "whatsapp"; word "telegram"; word "snapchat"; word "snap";
                   word "insta"; word "instagram"; word "discord"; word "kik";
                   word "signal"];
             WordBoundary])
      true;
    (* /\bDM\s+me\b/gi *)
    mkRegExp (seqs [WordBoundary; word "DM"; plus space; word "me"; WordBoundary]) true;
    (* /\btext\s+me\b/gi *)
    mkRegExp (seqs [WordBoundary; word "text"; plus space; word "me"; WordBoundary]) true;
    (* /\bcontact\s+(?:me|us)\s+(?:at|on)\b/gi *)
    mkRegExp
      (seqs [WordBoundary; word "contact"; plus space; alts [word "me"; word "us"];
             plus space; alts [word "at"; word "on"]; WordBoundary])
      true ].

Definition obfuscation : list RegExp :=
  [ (* /[a-zA-Z0-9]\s{2,}[a-zA-Z0-9]/g *)
    mkRegExp (seqs [alnum; atLeast 2 space; alnum]) false;
    (* /\b\w+\s*\(at\)\s*\w+\s*\(dot\)\s*\w+\b/gi *)
    mkRegExp
      (seqs [WordBoundary; plus (cls [CWord]); star space; word "(at)"; star space;
             plus (cls [CWord]); star space; word "(dot)"; star space;
             plus (cls [CWord]); WordBoundary])
      true;
    (* /\b(?:zero|one|two|three|four|five|six|seven|eight|nine)\b/gi *)
    mkRegExp
      (seqs [WordBoundary;
             alts [word "zero"; word "one"; word "two"; word "three"; word "four";
                   word "five"; word "six"; word "seven"; word "eight"; word "nine"];
             WordBoundary])
      true ].

End PATTERNS.

Inductive PatternType : Type := phone | email | url | social | obfuscation.

Record PatternMatch : Type := mkPatternMatch {
  type : PatternType;
  count : nat;
  samples : list jsstring
}.

(** A [Set<string>]: insertion-ordered, without repetition. *)
Definition Set_add (s : list jsstring) (x : jsstring) : list jsstring :=
  if in_dec jsstring_eq_dec x s then s else s ++ [x].

(** One detection block of [scanPatterns]: run every pattern of the
    category over the content and add each trimmed match to the set. *)
Definition collect (regexes : list RegExp) (content : jsstring) : list jsstring :=
  fold_left
    (fun set regex =>
       match String_match content regex with
       | Some found => fold_left (fun set m => Set_add set (trim m)) found set
       | None => set
       end)
    regexes [].

Definition pushMatch (t : PatternType) (set : list jsstring)
  (matches : list PatternMatch) : list PatternMatch :=
  if Nat.ltb 0 (List.length set)
  then matches ++ [mkPatternMatch t (List.length set) (firstn 3 set)]
  else matches.

Definition scanPatterns (content : jsstring) : list PatternMatch :=
  let matches := [] in
  let phoneMatches := collect PATTERNS.phone content in
  let matches := pushMatch phone phoneMatches matches in
  let emailMatches := collect PATTERNS.email content in
  let matches := pushMatch email emailMatches matches in
  let urlMatches := collect PATTERNS.url content in
  let matches := pushMatch url urlMatches matches in
  let socialMatches := collect PATTERNS.social content in
  let matches := pushMatch social socialMatches matches in
  let obfuscationMatches := collect PATTERNS.obfuscation content in
  let matches := pushMatch obfuscation obfuscationMatches matches in
  matches.

(** ** PATTERN_WEIGHTS *)

Definition PATTERN_WEIGHTS (t : PatternType) : float :=
  match t with
  | phone => 0.85
  | email => 0.80
  | url => 0.50
  | social => 0.40
  | obfuscation => 0.15
  end%float.

(** ** calculateRiskScore *)

(** The body of the [forEach]: the pair is [(maxWeight, totalContribution)].
    [match.count] is a set size, so [Math.min(match.count, 3)] is the double
    of the integer minimum. *)
Definition scoreStep (acc : float * float) (match_ : PatternMatch) : float * float :=
  let '(maxWeight, totalContribution) := acc in
  let weight := float_or (PATTERN_WEIGHTS (type match_)) 0.1 in
  let maxWeight := Math_max maxWeight weight in
  let contribution := (weight * nat2float (Nat.min (count match_) 3) / 3)%float in
  (maxWeight, (totalContribution + contribution)%float).

Definition calculateRiskScore (matches : list PatternMatch) : float :=
  if Nat.eqb (List.length matches) 0 then 0.0%float
  else
    let '(maxWeight, totalContribution) := fold_left scoreStep matches (0.0, 0.0)%float in
    let multiTypeBoost :=
      if Nat.ltb 1 (List.length matches)
      then (0.10 * nat2float (List.length matches - 1))%float
      else 0%float in
    let score :=
      (Math_max (maxWeight * 0.85) (totalContribution * 0.7) + multiTypeBoost)%float in
    Math_min score 1.0.

(** ** generateLabels *)

Definition labelOf (t : PatternType) : string :=
  match t with
  | phone => "contact_info_phone"
  | email => "contact_info_email"
  | url => "external_link"
  | social => "social_platform_mention"
  | obfuscation => "obfuscation_detected"
  end.

Definition generateLabels (matches : list PatternMatch) : list string :=
  fold_left (fun labels match_ => (labels ++ [labelOf (type match_)])%list) matches [].

Definition PatternType_eqb (a b : PatternType) : bool :=
  match a, b with
  | phone, phone | email, email | url, url | social, social
  | obfuscation, obfuscation => true
  | _, _ => false
  end.

(** ** generateNudgeMessage *)

Definition generateNudgeMessage (riskScore : float) (matches : list PatternMatch)
  : option string :=
  if PrimFloat.ltb riskScore 0.4 || float_geb riskScore 0.65 then None
  else
    let hasPhone := existsb (fun m => PatternType_eqb (type m) phone) matches in
    let hasEmail := existsb (fun m => PatternType_eqb (type m) email) matches in
    let hasSocial := existsb (fun m => PatternType_eqb (type m) social) matches in
    if hasPhone || hasEmail then
      Some "Sharing personal contact information may violate platform policies and put you at risk. Please keep conversations on the platform."
    else if hasSocial then
      Some "We noticed you're trying to move the conversation off-platform. For your safety, please continue chatting here."
    else
      Some "This message may contain content that violates our community guidelines. Please review before sending.".

(** ** generateBlockReason *)

Definition includes (types : list PatternType) (t : PatternType) : bool :=
  existsb (PatternType_eqb t) types.

Definition generateBlockReason (matches : list PatternMatch) : string :=
  let types := map type matches in
  let reasons := [] in
  let reasons := if includes types phone then (reasons ++ ["phone number"])%list else reasons in
  let reasons := if includes types email then (reasons ++ ["email address"])%list else reasons in
  let reasons := if includes types url then (reasons ++ ["external link"])%list else reasons in
  let reasons :=
    if includes types social then (reasons ++ ["social media reference"])%list else reasons in
  if Nat.eqb (List.length reasons) 0
  then "Message blocked due to potential policy violation"
  else "Message blocked: detected " ++ String.concat ", " reasons
       ++ ". Keep conversations on the platform for your safety.".

(** ** interceptMessage *)

(** [message.content] when it is a non-empty string; [None] when the check
    [!message.content || typeof message.content !== "string"] fires. *)
Definition validContent (v : value) : option jsstring :=
  if negb (truthy v) then None
  else match v with VString s => Some s | _ => None end.

(** The result of the [catch] clause.  Nothing in the [try] block of the
    model raises, so no path below reaches it. *)
Definition failOpenResult : InterceptResult :=
  {| allowed := true; action := "allow"; risk_score := 0.0;
     labels := ["interceptor_error"]; nudge_message := None; block_reason := None |}.

(** [config] is what [getConfig()] returns: the record cached at start-up.
    The two clock readings only feed the log lines, which are left out
    here; [Runtime.interceptMessage] follows the same code with the cache,
    the pattern objects, the clock and the log. *)
Definition interceptMessage (config : InterceptorConfig) (message : ChatMessage)
  : InterceptResult :=
  match validContent (content message) with
  | None =>
      {| allowed := true; action := "allow"; risk_score := 0.0; labels := [];
         nudge_message := None; block_reason := None |}
  | Some text =>
      if num_gtb (Int (Z.of_nat (List.length text))) (max_message_length config) then
        {| allowed := false; action := "hard_block"; risk_score := 1.0;
           labels := ["message_too_long"]; nudge_message := None;
           block_reason :=
             Some ("Message exceeds maximum length of "
                   ++ num_toString (max_message_length config) ++ " characters") |}
      else
        let matches := scanPatterns text in
        let riskScore := calculateRiskScore matches in
        let labels := generateLabels matches in
        if float_geb riskScore (sync_threshold config) then
          let blockReason := generateBlockReason matches in
          {| allowed := false; action := "hard_block"; risk_score := riskScore;
             labels := labels; nudge_message := None; block_reason := Some blockReason |}
        else if float_geb riskScore 0.4 then
          let nudgeMessage := generateNudgeMessage riskScore matches in
          {| allowed := true; action := "nudge"; risk_score := riskScore;
             labels := labels; nudge_message := nudgeMessage; block_reason := None |}
        else
          {| allowed := true; action := "allow"; risk_score := riskScore;
             labels := if Nat.ltb 0 (List.length labels) then labels else [];
             nudge_message := None; block_reason := None |}
  end.

End Interceptor.

(* ================================================================== *)
(** * circuit-breaker.ts                                              *)
(* ================================================================== *)

Module CircuitBreaker.
Import JS.

Inductive CircuitState : Type := CLOSED | OPEN | HALF_OPEN.

Definition CircuitState_eqb (a b : CircuitState) : bool :=
  match a, b with
  | CLOSED, CLOSED | OPEN, OPEN | HALF_OPEN, HALF_OPEN => true
  | _, _ => false
  end.

Record CircuitBreakerConfig : Type := mkConfig {
  threshold : num;
  resetTimeout : num;
  halfOpenMaxAttempts : option num
}.

(** [Required<CircuitBreakerConfig>] *)
Record RequiredConfig : Type := mkRequired {
  r_threshold : num;
  r_resetTimeout : num;
  r_halfOpenMaxAttempts : num
}.

(** The private fields of [CircuitBreaker<T>]. *)
Record CircuitBreaker : Type := mkBreaker {
  state : CircuitState;
  failureCount : Z;
  successCount : Z;
  lastFailureTime : Z;
  config : RequiredConfig
}.

Definition new (cfg : CircuitBreakerConfig) : CircuitBreaker :=
  {| state := CLOSED; failureCount := 0; successCount := 0; lastFailureTime := 0;
     config :=
       {| r_threshold := threshold cfg;
          r_resetTimeout := resetTimeout cfg;
          r_halfOpenMaxAttempts :=
            match halfOpenMaxAttempts cfg with
            | Some n => num_or n (Int 1)
            | None => Int 1
            end |} |}.

Definition getState (cb : CircuitBreaker) : CircuitState := state cb.
Definition getFailureCount (cb : CircuitBreaker) : Z := failureCount cb.
Definition isOpen (cb : CircuitBreaker) : bool := CircuitState_eqb (state cb) OPEN.

Definition set_state (s : CircuitState) (cb : CircuitBreaker) : CircuitBreaker :=
  mkBreaker s (failureCount cb) (successCount cb) (lastFailureTime cb) (config cb).
Definition set_failureCount (n : Z) (cb : CircuitBreaker) : CircuitBreaker :=
  mkBreaker (state cb) n (successCount cb) (lastFailureTime cb) (config cb).
Definition set_successCount (n : Z) (cb : CircuitBreaker) : CircuitBreaker :=
  mkBreaker (state cb) (failureCount cb) n (lastFailureTime cb) (config cb).
Definition set_lastFailureTime (t : Z) (cb : CircuitBreaker) : CircuitBreaker :=
  mkBreaker (state cb) (failureCount cb) (successCount cb) t (config cb).

Definition reset (cb : CircuitBreaker) : CircuitBreaker :=
  set_lastFailureTime 0 (set_successCount 0 (set_failureCount 0 (set_state CLOSED cb))).

Definition onSuccess (cb : CircuitBreaker) : CircuitBreaker :=
  match state cb with
  | HALF_OPEN =>
      let cb := set_successCount (successCount cb + 1) cb in
      if num_geb (Int (successCount cb)) (r_halfOpenMaxAttempts (config cb))
      then set_successCount 0 (set_failureCount 0 (set_state CLOSED cb))
      else cb
  | CLOSED =>
      if (0 <? failureCount cb)%Z then set_failureCount 0 cb else cb
  | OPEN => cb
  end.

(** [now] is the reading of [Date.now()] taken inside [onFailure]. *)
Definition onFailure (now : Z) (cb : CircuitBreaker) : CircuitBreaker :=
  let cb := set_failureCount (failureCount cb + 1) cb in
  let cb := set_lastFailureTime now cb in
  match state cb with
  | HALF_OPEN => set_successCount 0 (set_state OPEN cb)
  | CLOSED =>
      if num_geb (Int (failureCount cb)) (r_threshold (config cb))
      then set_state OPEN cb
      else cb
  | OPEN => cb
  end.

(** How a promise settles. *)
Inductive Outcome (A E : Type) : Type :=
| Resolved (a : A)
| Rejected (e : E).
Arguments Resolved {A E} a.
Arguments Rejected {A E} e.

Section Execute.

(** The world the protected operation runs in, with its clock.  An
    operation [fn] is a function of the world: it settles and leaves the
    world it has acted on; not calling it leaves the world as it was. *)
Variable W : Type.
Variable Date_now : W -> Z.
Variables T E : Type.

(** The first block of [execute]: [inl] is the early [return undefined],
    [inr] the breaker with which execution goes on. *)
Definition checkOpen (cb : CircuitBreaker) (w : W) : unit + CircuitBreaker :=
  match state cb with
  | OPEN =>
      let timeSinceFailure := (Date_now w - lastFailureTime cb)%Z in
      if num_geb (Int timeSinceFailure) (r_resetTimeout (config cb))
      then inr (set_successCount 0 (set_state HALF_OPEN cb))
      else inl tt
  | _ => inr cb
  end.

(** [execute(fn)] resolves to [undefined] ([Resolved None]), resolves to the
    result of [fn], or rejects with what [fn] threw. *)
Definition execute (cb : CircuitBreaker) (fn : W -> Outcome T E * W) (w : W)
  : Outcome (option T) E * CircuitBreaker * W :=
  match checkOpen cb w with
  | inl _ => (Resolved None, cb, w)
  | inr cb =>
      if CircuitState_eqb (state cb) HALF_OPEN
         && num_geb (Int (successCount cb)) (r_halfOpenMaxAttempts (config cb))
      then (Resolved None, cb, w)
      else
        match fn w with
        | (Resolved result, w') => (Resolved (Some result), onSuccess cb, w')
        | (Rejected error, w') => (Rejected error, onFailure (Date_now w') cb, w')
        end
  end.

End Execute.

Arguments checkOpen {W} Date_now cb w.
Arguments execute {W} Date_now {T E} cb fn w.

End CircuitBreaker.

(* ================================================================== *)
(** * index.ts: the request dispatcher                                *)
(* ================================================================== *)

Module Dispatcher.
Import JS Types CircuitBreaker.
Local Open Scope string_scope.

(** A frame after [JSON.parse]: its [type], its [message] ([None] when the
    property is missing or falsy) and its [request_id]. *)
Record InterceptorRequest : Type := mkRequest {
  type : value;
  message : option ChatMessage;
  request_id : option jsstring
}.

(** What arrives on the socket: text that [JSON.parse] rejects, or a
    parsed request. *)
Inductive Frame : Type :=
| Unparseable
| Parsed (request : InterceptorRequest).

Record InterceptorResponse : Type := mkResponse {
  resp_type : string;
  resp_request_id : jsstring;
  result : InterceptResult;
  processing_ms : Z
}.

Record ErrorResponse : Type := mkError {
  err_type : string;
  err_request_id : option jsstring;
  error : string;
  err_message : string
}.

Inductive Response : Type :=
| Reply (r : InterceptorResponse)
| Failure (e : ErrorResponse).

(** What the service does to its surroundings while it handles a frame. *)
Inductive Event : Type :=
| Scored (m : ChatMessage)
| Emitted (m : ChatMessage) (r : InterceptResult)
| Sent (r : Response).

(** The surroundings: the clock, the time one scorer call takes, the
    identifier [uuidv4()] hands out, and the events so far, oldest first. *)
Record World : Type := mkWorld {
  now : Z;
  latency : Z;
  uuid : jsstring;
  events : list Event
}.

Definition Date_now (w : World) : Z := now w.

Definition record (e : Event) (w : World) : World :=
  mkWorld (now w) (latency w) (uuid w) (events w ++ [e]).

Definition elapse (w : World) : World :=
  mkWorld (now w + latency w) (latency w) (uuid w) (events w).

Definition ws_send (r : Response) (w : World) : World := record (Sent r) w.

Definition emitAsync (m : ChatMessage) (r : InterceptResult) (w : World) : World :=
  record (Emitted m r) w.

(** The promise [interceptMessage(request.message)]: it always resolves. *)
Definition scorerCall (cfg : InterceptorConfig) (m : ChatMessage) (w : World)
  : Outcome InterceptResult string * World :=
  (Resolved (Interceptor.interceptMessage cfg m), elapse (record (Scored m) w)).

Record InterceptorService : Type := mkService {
  circuitBreaker : CircuitBreaker
}.

(** The constructor, from the cached configuration. *)
Definition newService (cfg : InterceptorConfig) : InterceptorService :=
  {| circuitBreaker :=
       CircuitBreaker.new
         {| threshold := circuit_breaker_threshold cfg;
            resetTimeout := circuit_breaker_reset_ms cfg;
            halfOpenMaxAttempts := Some (Int 3) |} |}.

Definition sendError (message : string) (requestId : option jsstring) (w : World)
  : World :=
  ws_send (Failure {| err_type := "error"; err_request_id := requestId;
                      error := "processing_error"; err_message := message |}) w.

Definition breakerOpenResult : InterceptResult :=
  {| allowed := true; action := "allow"; risk_score := 0.0;
     labels := ["circuit_breaker_open"]; nudge_message := None; block_reason := None |}.

Definition interceptorErrorResult : InterceptResult :=
  {| allowed := true; action := "allow"; risk_score := 0.0;
     labels := ["interceptor_error"]; nudge_message := None; block_reason := None |}.

Definition isIntercept (v : value) : bool :=
  match v with
  | VString s => if jsstring_eq_dec s (lit "intercept") then true else false
  | _ => false
  end.

Definition handleMessage (cfg : InterceptorConfig) (svc : InterceptorService)
  (data : Frame) (w : World) : InterceptorService * World :=
  let startTime := Date_now w in
  match data with
  | Unparseable => (svc, sendError "Internal server error" None w)
  | Parsed request =>
      if negb (isIntercept (type request)) then
        (svc, sendError "Invalid request type" (request_id request) w)
      else
        match message request with
        | None => (svc, sendError "Missing message content" (request_id request) w)
        | Some message =>
            if negb (truthy (content message)) then
              (svc, sendError "Missing message content" (request_id request) w)
            else
              let requestId :=
                match request_id request with
                | Some (c :: id) => c :: id
                | _ => uuid w
                end in
              let '(breakerResult, cb, w) :=
                execute Date_now (circuitBreaker svc) (scorerCall cfg message) w in
              let result :=
                match breakerResult with
                | Resolved None => breakerOpenResult
                | Resolved (Some r) => r
                | Rejected _ => interceptorErrorResult
                end in
              let w := emitAsync message result w in
              let processingMs := (Date_now w - startTime)%Z in
              let w :=
                ws_send (Reply {| resp_type := "intercept_result";
                                  resp_request_id := requestId;
                                  result := result;
                                  processing_ms := processingMs |}) w in
              (mkService cb, w)
        end
  end.

End Dispatcher.

(* ================================================================== *)
(** * interceptor.ts as it runs: the state of the process            *)
(* ================================================================== *)

Module Runtime.
Import JS Types Config Interceptor CircuitBreaker.
Local Open Scope string_scope.

(** What a call of [interceptMessage] reads and writes besides its
    argument: the environment and the configuration cached from it, the
    [lastIndex] of the pattern objects, the clock and the log.  The module
    [Interceptor] gives the result as a function of the configuration and
    the message; here the same code is followed with this state threaded
    through it, as it runs. *)

(** ** The pattern objects *)

(** Each literal of [PATTERNS] is one [RegExp] object for the life of the
    module, and with the [g] flag it carries a [lastIndex] that every
    search reads and writes.  An object is named by its category and its
    place in the array of the category. *)
Definition LastIndexes : Type := PatternType -> nat -> nat.

Definition setLastIndex (t : PatternType) (i : nat) (v : nat) (st : LastIndexes)
  : LastIndexes :=
  fun t' i' => if PatternType_eqb t t' && Nat.eqb i i' then v else st t' i'.

(** The code unit before index [i] of [s]. *)
Definition unitBefore (s : jsstring) (i : nat) : option code_unit :=
  match i with
  | O => None
  | S j => nth_error s j
  end.

(** [RegExpBuiltinExec(R, S)] for a pattern with the [g] flag, given the
    [lastIndex] of [R]: the matched text, if any, and the [lastIndex] it
    leaves.  Past the end of [S], or when no index from [lastIndex] on
    matches, the result is [null] and [lastIndex] is set to 0; otherwise
    [lastIndex] is set to the index where the match ends. *)
Definition RegExpBuiltinExec (R : RegExp) (S : jsstring) (lastIndex : nat)
  : option jsstring * nat :=
  if Nat.ltb (List.length S) lastIndex then (None, 0)
  else
    match search R (unitBefore S lastIndex) (skipn lastIndex S) with
    | None => (None, 0)
    | Some (m, z) => (Some m, List.length S - List.length (snd z))
    end.

(** The loop of [RegExp.prototype[@@match]]: call [RegExpBuiltinExec]
    until it answers [null]; after an empty match [lastIndex] is advanced
    by one. *)
Fixpoint matchAll (fuel : nat) (rx : RegExp) (S : jsstring) (lastIndex : nat)
  : list jsstring * nat :=
  match fuel with
  | O => ([], lastIndex)
  | Datatypes.S fuel' =>
      match RegExpBuiltinExec rx S lastIndex with
      | (None, lastIndex) => ([], lastIndex)
      | (Some matchStr, lastIndex) =>
          let lastIndex :=
            match matchStr with
            | [] => lastIndex + 1
            | _ => lastIndex
            end in
          let '(A, lastIndex) := matchAll fuel' rx S lastIndex in
          (matchStr :: A, lastIndex)
      end
  end.

(** [content.match(regex)] for a pattern with the [g] flag: [lastIndex]
    is first set to 0, whatever it was.  Every turn of the loop but the
    last moves [lastIndex] forward and the last finds it past the end at
    the latest, so [length S + 2] turns are enough: see [matchAll_fuel]. *)
Definition String_match (S : jsstring) (rx : RegExp) (lastIndex : nat)
  : option (list jsstring) * nat :=
  let lastIndex := 0 in
  match matchAll (List.length S + 2) rx S lastIndex with
  | ([], lastIndex) => (None, lastIndex)
  | (A, lastIndex) => (Some A, lastIndex)
  end.

(** ** scanPatterns *)

(** [PATTERNS[t].forEach(regex => ...)], from the [i]-th pattern of the
    category on: the set of trimmed matches and the pattern objects as the
    loop leaves them. *)
Fixpoint forEachPattern (t : PatternType) (i : nat) (regexes : list RegExp)
  (content : jsstring) (set : list jsstring) (st : LastIndexes)
  : list jsstring * LastIndexes :=
  match regexes with
  | [] => (set, st)
  | regex :: regexes' =>
      let '(found, lastIndex) := String_match content regex (st t i) in
      let st := setLastIndex t i lastIndex st in
      let set :=
        match found with
        | Some found => fold_left (fun set m => Set_add set (trim m)) found set
        | None => set
        end in
      forEachPattern t (S i) regexes' content set st
  end.

Definition scanPatterns (content : jsstring) (st : LastIndexes)
  : list PatternMatch * LastIndexes :=
  let matches := [] in
  let '(phoneMatches, st) := forEachPattern phone 0 PATTERNS.phone content [] st in
  let matches := pushMatch phone phoneMatches matches in
  let '(emailMatches, st) := forEachPattern email 0 PATTERNS.email content [] st in
  let matches := pushMatch email emailMatches matches in
  let '(urlMatches, st) := forEachPattern url 0 PATTERNS.url content [] st in
  let matches := pushMatch url urlMatches matches in
  let '(socialMatches, st) := forEachPattern social 0 PATTERNS.social content [] st in
  let matches := pushMatch social socialMatches matches in
  let '(obfuscationMatches, st) :=
    forEachPattern obfuscation 0 PATTERNS.obfuscation content [] st in
  let matches := pushMatch obfuscation obfuscationMatches matches in
  (matches, st).

(** ** The process *)

(** A line handed to the logger: its level, the fields of its object (an
    absent field is [None]) and its text. *)
Record LogLine : Type := mkLogLine {
  level : string;
  log_message_id : jsstring;
  log_length : option nat;
  log_risk_score : option float;
  log_labels : option (list string);
  log_processing_ms : option Z;
  msg : string
}.

(** The state of the process: [process.env], the module variable
    [cachedConfig] of config.ts, the [lastIndex] of every pattern object,
    the clock (the readings [Date.now()] gives, in order, and how many
    have been taken) and the lines logged so far, oldest first. *)
Record Process : Type := mkProcess {
  env : Env;
  cachedConfig : option InterceptorConfig;
  lastIndex : LastIndexes;
  clock : nat -> Z;
  readings : nat;
  logged : list LogLine
}.

Definition Date_now (p : Process) : Z * Process :=
  (clock p (readings p),
   mkProcess (env p) (cachedConfig p) (lastIndex p) (clock p) (S (readings p)) (logged p)).

Definition set_cachedConfig (c : option InterceptorConfig) (p : Process) : Process :=
  mkProcess (env p) c (lastIndex p) (clock p) (readings p) (logged p).

Definition set_lastIndex (st : LastIndexes) (p : Process) : Process :=
  mkProcess (env p) (cachedConfig p) st (clock p) (readings p) (logged p).

Definition logger (line : LogLine) (p : Process) : Process :=
  mkProcess (env p) (cachedConfig p) (lastIndex p) (clock p) (readings p)
    (logged p ++ [line]).

(** [interceptMessage(message)]: how the promise settles, and the process
    as the call leaves it.  [getConfig()] is called before the [try]
    block, so an [Error] of [loadConfig] rejects the promise.  Nothing in
    the [try] block raises, so the [catch] clause is not reached. *)
Definition interceptMessage (message : ChatMessage) (p : Process)
  : Outcome InterceptResult ConfigError * Process :=
  let '(startTime, p) := Date_now p in
  match getConfig (env p) (cachedConfig p) with
  | (inl error, cache) => (Rejected error, set_cachedConfig cache p)
  | (inr config, cache) =>
      let p := set_cachedConfig cache p in
      match validContent (content message) with
      | None =>
          let p :=
            logger {| level := "warn"; log_message_id := message_id message;
                      log_length := None; log_risk_score := None; log_labels := None;
                      log_processing_ms := None; msg := "Invalid message content" |} p in
          (Resolved
             {| allowed := true; action := "allow"; risk_score := 0.0; labels := [];
                nudge_message := None; block_reason := None |}, p)
      | Some text =>
          if num_gtb (Int (Z.of_nat (List.length text))) (max_message_length config) then
            let p :=
              logger {| level := "warn"; log_message_id := message_id message;
                        log_length := Some (List.length text); log_risk_score := None;
                        log_labels := None; log_processing_ms := None;
                        msg := "Message exceeds maximum length" |} p in
            (Resolved
               {| allowed := false; action := "hard_block"; risk_score := 1.0;
                  labels := ["message_too_long"]; nudge_message := None;
                  block_reason :=
                    Some ("Message exceeds maximum length of "
                          ++ num_toString (max_message_length config)
                          ++ " characters") |}, p)
          else
            let '(matches, st) := scanPatterns text (lastIndex p) in
            let p := set_lastIndex st p in
            let riskScore := calculateRiskScore matches in
            let labels := generateLabels matches in
            let '(endTime, p) := Date_now p in
            let processingMs := (endTime - startTime)%Z in
            if float_geb riskScore (sync_threshold config) then
              let blockReason := generateBlockReason matches in
              let p :=
                logger {| level := "info"; log_message_id := message_id message;
                          log_length := None; log_risk_score := Some riskScore;
                          log_labels := Some labels;
                          log_processing_ms := Some processingMs;
                          msg := "Message blocked (sync)" |} p in
              (Resolved
                 {| allowed := false; action := "hard_block"; risk_score := riskScore;
                    labels := labels; nudge_message := None;
                    block_reason := Some blockReason |}, p)
            else if float_geb riskScore 0.4 then
              let nudgeMessage := generateNudgeMessage riskScore matches in
              let p :=
                logger {| level := "info"; log_message_id := message_id message;
                          log_length := None; log_risk_score := Some riskScore;
                          log_labels := Some labels;
                          log_processing_ms := Some processingMs;
                          msg := "Message allowed with nudge" |} p in
              (Resolved
                 {| allowed := true; action := "nudge"; risk_score := riskScore;
                    labels := labels; nudge_message := nudgeMessage;
                    block_reason := None |}, p)
            else
              let p :=
                logger {| level := "debug"; log_message_id := message_id message;
                          log_length := None; log_risk_score := Some riskScore;
                          log_labels := None; log_processing_ms := Some processingMs;
                          msg := "Message allowed (clean)" |} p in
              (Resolved
                 {| allowed := true; action := "allow"; risk_score := riskScore;
                    labels := if Nat.ltb 0 (List.length labels) then labels else [];
                    nudge_message := None; block_reason := None |}, p)
      end
  end.

(** Calls one after the other, each in the process the one before left:
    the process at the end. *)
Definition interceptAll (messages : list ChatMessage) (p : Process) : Process :=
  fold_left (fun p message => snd (interceptMessage message p)) messages p.

End Runtime.

(* ================================================================== *)
(** * async-emitter.ts                                                *)
(* ================================================================== *)

Module AsyncEmitter.
Import JS.

(** [Math.pow(2, times)] for the attempt count that the Redis client
    passes, a non-negative integer: the power of two itself, and
    [Infinity] once it exceeds the range of a double. *)
Definition Math_pow2 (times : nat) : float := Z.ldexp 1 (Z.of_nat times).

(** [retryStrategy]: the delay in milliseconds before the next
    reconnection attempt. *)
Definition retryStrategy (times : nat) : float :=
  let delay := Math_min (Math_pow2 times * 1000) 10000 in
  delay.

(** The private fields: whether [redis] holds a client ([false] is
    [null]), the [connected] flag, and whether [reconnectTimer] holds a
    pending timer. *)
Record AsyncEmitter : Type := mkEmitter {
  redis : bool;
  connected : bool;
  reconnectTimer : bool
}.

Definition set_connected (b : bool) (e : AsyncEmitter) : AsyncEmitter :=
  mkEmitter (redis e) b (reconnectTimer e).

(** [scheduleReconnect]: arms the timer unless one is pending. *)
Definition scheduleReconnect (e : AsyncEmitter) : AsyncEmitter :=
  if reconnectTimer e then e else mkEmitter (redis e) (connected e) true.

(** [connect]: [created] tells whether [new Redis(...)] returned a client
    or threw. *)
Definition connect (created : bool) (e : AsyncEmitter) : AsyncEmitter :=
  if created then mkEmitter true (connected e) (reconnectTimer e)
  else scheduleReconnect (set_connected false e).

(** The constructor. *)
Definition new (created : bool) : AsyncEmitter :=
  connect created (mkEmitter false false false).

(** The events of the client that the emitter listens to. *)
Inductive RedisEvent : Type :=
| ev_connect | ev_ready | ev_error | ev_close | ev_reconnecting.

Definition on (ev : RedisEvent) (e : AsyncEmitter) : AsyncEmitter :=
  match ev with
  | ev_connect | ev_ready => set_connected true e
  | ev_error | ev_close | ev_reconnecting => set_connected false e
  end.

(** The callback of the reconnection timer. *)
Definition onReconnectTimer (created : bool) (e : AsyncEmitter) : AsyncEmitter :=
  connect created (mkEmitter (redis e) (connected e) false).

Definition isConnected (e : AsyncEmitter) : bool := connected e && redis e.

(** [disconnect]: whether [quit] succeeds or throws, the fields end up the
    same. *)
Definition disconnect (e : AsyncEmitter) : AsyncEmitter :=
  let e := if reconnectTimer e then mkEmitter (redis e) (connected e) false else e in
  if redis e then mkEmitter false false (reconnectTimer e) else e.

End AsyncEmitter.

(* ================================================================== *)
(** * index.ts: the health and metrics endpoints                       *)
(* ================================================================== *)

Module HealthServer.
Import JS Types CircuitBreaker Dispatcher.
Local Open Scope string_scope.

(** The fields of [InterceptorService] beside the breaker: [wss] ([None]
    is [null], otherwise the server with the number of its clients),
    whether [httpServer] is set, and the emitter. *)
Record Endpoints : Type := mkEndpoints {
  wss : option nat;
  httpServer : bool;
  emitter : AsyncEmitter.AsyncEmitter
}.

(** The string value of a [CircuitState]. *)
Definition stateName (s : CircuitState) : string :=
  match s with
  | CLOSED => "closed"
  | OPEN => "open"
  | HALF_OPEN => "half_open"
  end.

(** The body of a health response before [JSON.stringify]; [timestamp] is
    the clock reading that [toISOString] renders. *)
Record HealthBody : Type := mkHealthBody {
  status : string;
  timestamp : Z;
  check_websocket : string;
  check_circuit_breaker : string;
  check_redis : string
}.

Record MetricsBody : Type := mkMetricsBody {
  cb_state : string;
  cb_failure_count : Z;
  redis_connected : bool;
  stream_length : Z;
  stream_last_id : option jsstring;
  active_connections : nat
}.

Inductive Body : Type :=
| Health (b : HealthBody)
| Metrics (b : MetricsBody)
| NotFound.

Record HttpResponse : Type := mkHttpResponse {
  statusCode : Z;
  body : Body
}.

Definition isSet {A : Type} (o : option A) : bool :=
  match o with Some _ => true | None => false end.

Definition handleHealthCheck (svc : InterceptorService) (ep : Endpoints) (now : Z)
  : HttpResponse :=
  let circuitState := getState (circuitBreaker svc) in
  let redisConnected := AsyncEmitter.isConnected (emitter ep) in
  let healthy :=
    isSet (wss ep)
    && (CircuitState_eqb circuitState CLOSED || CircuitState_eqb circuitState HALF_OPEN) in
  let status := if healthy then 200%Z else 503%Z in
  {| statusCode := status;
     body := Health {| status := if healthy then "healthy" else "unhealthy";
                       timestamp := now;
                       check_websocket := if isSet (wss ep) then "ok" else "down";
                       check_circuit_breaker := stateName circuitState;
                       check_redis :=
                         if redisConnected then "connected" else "disconnected" |} |}.

(** [streamInfo] is what [getStreamInfo()] resolved to: [None] is [null],
    otherwise the length and the last identifier of the stream. *)
Definition handleMetrics (svc : InterceptorService) (ep : Endpoints)
  (streamInfo : option (Z * jsstring)) : HttpResponse :=
  {| statusCode := 200;
     body := Metrics
       {| cb_state := stateName (getState (circuitBreaker svc));
          cb_failure_count := getFailureCount (circuitBreaker svc);
          redis_connected := AsyncEmitter.isConnected (emitter ep);
          stream_length :=
            match streamInfo with
            | Some (length, _) => length
            | None => 0%Z
            end;
          stream_last_id :=
            match streamInfo with
            | Some (_, c :: lastId) => Some (c :: lastId)
            | _ => None
            end;
          active_connections :=
            match wss ep with
            | Some clients => clients
            | None => 0
            end |} |}.

Definition jsstring_eqb (a b : jsstring) : bool :=
  if jsstring_eq_dec a b then true else false.

(** The request listener of [startHealthServer]. *)
Definition route (svc : InterceptorService) (ep : Endpoints) (now : Z)
  (streamInfo : option (Z * jsstring)) (url method : jsstring) : HttpResponse :=
  if jsstring_eqb url (lit "/health") && jsstring_eqb method (lit "GET")
  then handleHealthCheck svc ep now
  else if jsstring_eqb url (lit "/metrics") && jsstring_eqb method (lit "GET")
  then handleMetrics svc ep streamInfo
  else {| statusCode := 404; body := NotFound |}.

(** [start] and [shutdown], on these fields. *)
Definition start (ep : Endpoints) : Endpoints :=
  mkEndpoints (Some 0) true (emitter ep).

Definition shutdown (ep : Endpoints) : Endpoints :=
  mkEndpoints None false (AsyncEmitter.disconnect (emitter ep)).

End HealthServer.

(* ================================================================== *)
(** * dashboard: RiskBadge.tsx                                         *)
(* ================================================================== *)

Module RiskBadge.
Import JS.
Local Open Scope string_scope.

Record RiskBand : Type := mkRiskBand { label : string; color : string }.

Definition getRiskBand (score : float) : RiskBand :=
  if float_geb score 0.85 then {| label := "Critical"; color := "#e74c3c" |}
  else if float_geb score 0.65 then {| label := "High"; color := "#e67e22" |}
  else if float_geb score 0.40 then {| label := "Medium"; color := "#f39c12" |}
  else {| label := "Low"; color := "#27ae60" |}.

End RiskBadge.

(* ================================================================== *)
(** * The specification's scoring formula                             *)
(* ================================================================== *)

(** Section 4.1 of the specification, written out from its words: the
    weights table and the formula over the list of pattern matches.  Sums
    and maxima run over the matched categories in pipeline order. *)
Module Spec.
Import JS Interceptor.

Definition weight (t : PatternType) : float :=
  match t with
  | phone => 0.85
  | email => 0.80
  | url => 0.50
  | social => 0.40
  | obfuscation => 0.15
  end%float.

Definition maxWeight (matches : list PatternMatch) : float :=
  fold_left Math_max (map (fun m => weight (type m)) matches) 0%float.

Definition totalContribution (matches : list PatternMatch) : float :=
  fold_left PrimFloat.add
    (map (fun m => (weight (type m) * nat2float (Nat.min (count m) 3) / 3)%float) matches)
    0%float.

Definition multiTypeBoost (matches : list PatternMatch) : float :=
  let numMatchedCategories := List.length matches in
  if Nat.ltb 1 numMatchedCategories
  then (0.10 * nat2float (numMatchedCategories - 1))%float
  else 0%float.

Definition score (matches : list PatternMatch) : float :=
  match matches with
  | [] => 0.0%float
  | _ =>
      let raw :=
        (Math_max (maxWeight matches * 0.85) (totalContribution matches * 0.7)
         + multiTypeBoost matches)%float in
      Math_min raw 1.0
  end.

End Spec.

(* ================================================================== *)
(** * Concrete configurations and messages                            *)
(* ================================================================== *)

Module Scenarios.
Import JS Types Config.
Local Open Scope string_scope.

(** The configuration loaded from an empty environment. *)
Definition defaultConfig : InterceptorConfig :=
  {| sync_threshold := 0.65;
     redis_host := lit "localhost";
     redis_port := Int 6379;
     detection_host := lit "localhost";
     detection_port := Int 8000;
     circuit_breaker_threshold := Int 5;
     circuit_breaker_reset_ms := Int 30000;
     max_message_length := Int 10000 |}.

(** A chat message with the given text; the other fields are those of the
    test-suite. *)
Definition chat (text : string) : ChatMessage :=
  {| message_id := lit "msg-001"; thread_id := lit "thread-001";
     user_id := lit "user-001"; content := VString (lit text);
     timestamp := lit "2026-01-01T00:00:00.000Z";
     gps_lat := None; gps_lon := None |}.

(** The same text sent by another user, elsewhere. *)
Definition chatElsewhere (text : string) : ChatMessage :=
  {| message_id := lit "msg-017"; thread_id := lit "thread-002";
     user_id := lit "user-002"; content := VString (lit text);
     timestamp := lit "2026-02-02T12:00:00.000Z";
     gps_lat := Some 37.7749%float; gps_lon := Some (-122.4194)%float |}.

(** One code unit over the default limit: ["a".repeat(10001)]. *)
Definition tooLong : ChatMessage :=
  {| message_id := lit "msg-016"; thread_id := lit "thread-001";
     user_id := lit "user-001"; content := VString (repeat 97%N (N.to_nat 10001));
     timestamp := lit "2026-01-01T00:00:00.000Z";
     gps_lat := None; gps_lon := None |}.

(** [SYNC_THRESHOLD=0.9]: a threshold inside [[0,1]], above the default. *)
Definition strictEnv : Env := [("SYNC_THRESHOLD", lit "0.9")].

Definition strictConfig : InterceptorConfig :=
  {| sync_threshold := 0.9;
     redis_host := lit "localhost";
     redis_port := Int 6379;
     detection_host := lit "localhost";
     detection_port := Int 8000;
     circuit_breaker_threshold := Int 5;
     circuit_breaker_reset_ms := Int 30000;
     max_message_length := Int 10000 |}.

(** [SYNC_THRESHOLD=abc]: not a number. *)
Definition garbledEnv : Env := [("SYNC_THRESHOLD", lit "abc")].

End Scenarios.

(* ================================================================== *)
(** * Properties of the regular-expression matcher                    *)
(* ================================================================== *)

(** The matcher is given iteration bounds so that it is a structural
    recursion.  The bounds are never what makes a match fail: running a
    quantifier or the global match loop with a larger bound gives the same
    answer. *)
Module RegexFacts.
Import JS.

(** A matcher is local when it only consults its continuation at positions
    that are no further from the end of the subject than where it started. *)
Definition agreeWithin (n : nat) (k1 k2 : pos -> option pos) : Prop :=
  forall y, remaining y <= n -> k1 y = k2 y.

Definition local (m : Matcher) : Prop :=
  forall x k1 k2, agreeWithin (remaining x) k1 k2 -> m x k1 = m x k2.

(** A success of a matcher is a success of its continuation at such a
    position. *)
Definition forwards (m : Matcher) : Prop :=
  forall x k z, m x k = Some z ->
    exists y, remaining y <= remaining x /\ k y = Some z.

Lemma agreeWithin_le (n n' : nat) (k1 k2 : pos -> option pos) :
  n' <= n -> agreeWithin n k1 k2 -> agreeWithin n' k1 k2.
Proof. intros Hle H y Hy. apply H. lia. Qed.

Lemma repeatMatcher_local (m : Matcher) :
  local m -> forall fuel lo hi, local (repeatMatcher m fuel lo hi).
Proof.
  intros Hm. induction fuel as [|fuel IH]; intros lo hi x k1 k2 H; [reflexivity|].
  cbn [repeatMatcher].
  assert (k1 x = k2 x) as Hx by (apply H; lia).
  destruct (hiZero hi); [exact Hx|].
  match goal with
  | |- match lo with O => match m x ?d1 with _ => _ end | S _ => _ end
       = match lo with O => match m x ?d2 with _ => _ end | S _ => _ end =>
      assert (m x d1 = m x d2) as Hd
  end.
  { apply Hm. intros y Hy.
    destruct (Nat.eqb lo 0 && Nat.eqb (remaining y) (remaining x)); [reflexivity|].
    apply IH. exact (agreeWithin_le _ _ _ _ Hy H). }
  destruct lo; rewrite Hd, ?Hx; reflexivity.
Qed.

Lemma consume_within (x : pos) (c : code_unit) (rest : jsstring) :
  snd x = c :: rest -> remaining (Some c, rest) <= remaining x.
Proof. unfold remaining. intros ->. cbn. lia. Qed.

Lemma matcher_local (ic : bool) (r : regex) : local (matcher ic r).
Proof.
  induction r as [| a | neg items | | | r1 IH1 r2 IH2 | r1 IH1 r2 IH2 | lo hi r IH];
    intros x k1 k2 H; cbn [matcher].
  - apply H. lia.
  - destruct (snd x) as [|c rest] eqn:Hx; [reflexivity|].
    destruct (chr_match ic a c); [|reflexivity]. apply H. now apply consume_within.
  - destruct (snd x) as [|c rest] eqn:Hx; [reflexivity|].
    destruct (Bool.eqb _ _); [|reflexivity]. apply H. now apply consume_within.
  - destruct (snd x) as [|c rest] eqn:Hx; [reflexivity|].
    destruct (isLineTerminator c); [reflexivity|]. apply H. now apply consume_within.
  - destruct (atWordBoundary x); [|reflexivity]. apply H. lia.
  - apply IH1. intros y Hy. apply IH2. exact (agreeWithin_le _ _ _ _ Hy H).
  - rewrite (IH1 x k1 k2 H), (IH2 x k1 k2 H). reflexivity.
  - now apply repeatMatcher_local.
Qed.

(** One more turn than [lo + remaining x + 1] changes nothing ... *)
Lemma repeatMatcher_fuel (m : Matcher) :
  local m ->
  forall fuel lo hi x k,
    lo + remaining x + 1 <= fuel ->
    repeatMatcher m (S fuel) lo hi x k = repeatMatcher m fuel lo hi x k.
Proof.
  intros Hm. induction fuel as [|fuel IH]; intros lo hi x k Hle; [lia|].
  change (repeatMatcher m (S (S fuel)) lo hi x k)
    with (if hiZero hi then k x
          else
            let d := fun y : pos =>
              if Nat.eqb lo 0 && Nat.eqb (remaining y) (remaining x) then None
              else repeatMatcher m (S fuel) (Nat.pred lo) (hiPred hi) y k in
            match lo with
            | S _ => m x d
            | O => match m x d with Some z => Some z | None => k x end
            end).
  change (repeatMatcher m (S fuel) lo hi x k)
    with (if hiZero hi then k x
          else
            let d := fun y : pos =>
              if Nat.eqb lo 0 && Nat.eqb (remaining y) (remaining x) then None
              else repeatMatcher m fuel (Nat.pred lo) (hiPred hi) y k in
            match lo with
            | S _ => m x d
            | O => match m x d with Some z => Some z | None => k x end
            end).
  destruct (hiZero hi); [reflexivity|]. cbv zeta.
  match goal with
  | |- match lo with O => match m x ?d1 with _ => _ end | S _ => _ end
       = match lo with O => match m x ?d2 with _ => _ end | S _ => _ end =>
      assert (m x d1 = m x d2) as Hd
  end.
  { apply Hm. intros y Hy.
    destruct (Nat.eqb_spec lo 0) as [-> | Hlo]; cbn [andb].
    - destruct (Nat.eqb_spec (remaining y) (remaining x)); [reflexivity|].
      apply IH. cbn. lia.
    - apply IH. lia. }
  destruct lo; rewrite Hd; reflexivity.
Qed.

(** ... and so does any number of further turns. *)
Lemma repeatMatcher_enough_fuel (m : Matcher) (lo : nat) (hi : option nat) (x : pos)
  (k : pos -> option pos) (extra : nat) :
  local m ->
  repeatMatcher m (lo + remaining x + 1 + extra) lo hi x k
  = repeatMatcher m (lo + remaining x + 1) lo hi x k.
Proof.
  intros Hm. induction extra as [|extra IH].
  - now rewrite Nat.add_0_r.
  - rewrite Nat.add_succ_r, repeatMatcher_fuel by (assumption || lia). exact IH.
Qed.

Lemma repeatMatcher_forwards (m : Matcher) :
  forwards m -> forall fuel lo hi, forwards (repeatMatcher m fuel lo hi).
Proof.
  intros Hm. induction fuel as [|fuel IH]; intros lo hi x k z H; [discriminate|].
  cbn [repeatMatcher] in H.
  destruct (hiZero hi); [exists x; split; [lia | exact H]|].
  assert (forall d : pos -> option pos,
             (forall y, d y = if Nat.eqb lo 0 && Nat.eqb (remaining y) (remaining x)
                              then None
                              else repeatMatcher m fuel (Nat.pred lo) (hiPred hi) y k) ->
             m x d = Some z ->
             exists y, remaining y <= remaining x /\ k y = Some z) as Hstep.
  { intros d Hd Hmx. destruct (Hm x d z Hmx) as (y & Hy & Hdy).
    rewrite Hd in Hdy. destruct (_ && _); [discriminate|].
    destruct (IH _ _ _ _ _ Hdy) as (y' & Hy' & Hk). exists y'. split; [lia | exact Hk]. }
  destruct lo as [|lo].
  - match type of H with
    | match m x ?d with _ => _ end = _ => destruct (m x d) as [z'|] eqn:Hmx
    end.
    + injection H as ->. eapply Hstep; [|exact Hmx]. reflexivity.
    + exists x. split; [lia | exact H].
  - eapply Hstep; [|exact H]. reflexivity.
Qed.

Lemma matcher_forwards (ic : bool) (r : regex) : forwards (matcher ic r).
Proof.
  induction r as [| a | neg items | | | r1 IH1 r2 IH2 | r1 IH1 r2 IH2 | lo hi r IH];
    intros x k z H; cbn [matcher] in H.
  - exists x. split; [lia | exact H].
  - destruct (snd x) as [|c rest] eqn:Hx; [discriminate|].
    destruct (chr_match ic a c); [|discriminate].
    exists (Some c, rest). split; [now apply consume_within | exact H].
  - destruct (snd x) as [|c rest] eqn:Hx; [discriminate|].
    destruct (Bool.eqb _ _); [|discriminate].
    exists (Some c, rest). split; [now apply consume_within | exact H].
  - destruct (snd x) as [|c rest] eqn:Hx; [discriminate|].
    destruct (isLineTerminator c); [discriminate|].
    exists (Some c, rest). split; [now apply consume_within | exact H].
  - destruct (atWordBoundary x); [|discriminate]. exists x. split; [lia | exact H].
  - destruct (IH1 _ _ _ H) as (y & Hy & H2).
    destruct (IH2 _ _ _ H2) as (y' & Hy' & Hk). exists y'. split; [lia | exact Hk].
  - destruct (matcher ic r1 x k) as [z'|] eqn:H1.
    + injection H as ->. exact (IH1 _ _ _ H1).
    + exact (IH2 _ _ _ H).
  - exact (repeatMatcher_forwards _ IH _ _ _ _ _ _ H).
Qed.

(** A match found by [search] ends within the text searched, and a
    non-empty match ends strictly inside it. *)
Lemma search_advances (re : RegExp) (s : jsstring) :
  forall prev m z,
    search re prev s = Some (m, z) ->
    remaining z <= List.length s /\ (m <> [] -> remaining z < List.length s).
Proof.
  induction s as [|c s IH]; intros prev m z H; cbn [search] in H.
  - destruct (matcher _ _ _ _) as [z'|] eqn:Hm; [|discriminate].
    injection H as <- <-.
    destruct (matcher_forwards _ _ _ _ _ Hm) as (y & Hy & Hk). injection Hk as ->.
    unfold remaining in Hy |- *. cbn [snd List.length] in Hy |- *.
    split; [lia|]. intros Hne. now elim Hne.
  - destruct (matcher _ _ _ _) as [z'|] eqn:Hm.
    + injection H as <- <-.
      destruct (matcher_forwards _ _ _ _ _ Hm) as (y & Hy & Hk). injection Hk as ->.
      unfold remaining in Hy |- *. cbn [snd] in Hy |- *. split; [exact Hy|].
      intros Hne.
      destruct (Nat.eq_dec (List.length (snd z')) (List.length (c :: s))) as [He|]; [|lia].
      exfalso. apply Hne. rewrite He. cbn [List.length]. rewrite Nat.sub_diag. reflexivity.
    + destruct (IH _ _ _ H) as [H1 H2]. cbn [List.length]. split; [lia|].
      intros Hne. specialize (H2 Hne). lia.
Qed.

(** The global match loop needs at most [length s + 1] turns. *)
Lemma matchLoop_fuel (re : RegExp) :
  forall fuel prev s,
    List.length s + 1 <= fuel ->
    matchLoop (S fuel) re prev s = matchLoop fuel re prev s.
Proof.
  induction fuel as [|fuel IH]; intros prev s Hle; [lia|].
  change (matchLoop (S (S fuel)) re prev s)
    with (match search re prev s with
          | None => []
          | Some (m, (prev', s')) =>
              m :: match m, s' with
                   | [], c :: s'' => matchLoop (S fuel) re (Some c) s''
                   | [], [] => []
                   | _, _ => matchLoop (S fuel) re prev' s'
                   end
          end).
  change (matchLoop (S fuel) re prev s)
    with (match search re prev s with
          | None => []
          | Some (m, (prev', s')) =>
              m :: match m, s' with
                   | [], c :: s'' => matchLoop fuel re (Some c) s''
                   | [], [] => []
                   | _, _ => matchLoop fuel re prev' s'
                   end
          end).
  destruct (search re prev s) as [[m [prev' s']]|] eqn:Hs; [|reflexivity].
  destruct (search_advances _ _ _ _ _ Hs) as [H1 H2]. unfold remaining in *. cbn [snd] in *.
  f_equal. destruct m as [|a m].
  - destruct s' as [|c s'']; [reflexivity|]. apply IH. cbn in H1. lia.
  - apply IH. assert (List.length s' < List.length s) by (apply H2; discriminate). lia.
Qed.

Lemma String_match_enough_fuel (s : jsstring) (re : RegExp) (extra : nat) :
  matchLoop (S (List.length s) + extra) re None s = matchLoop (S (List.length s)) re None s.
Proof.
  induction extra as [|extra IH].
  - now rewrite Nat.add_0_r.
  - rewrite Nat.add_succ_r, matchLoop_fuel by lia. exact IH.
Qed.

End RegexFacts.

(* ================================================================== *)
(** * Properties of the scorer                                        *)
(* ================================================================== *)

Module ScorerFacts.
Import JS Types Interceptor.
Local Open Scope string_scope.

(** ** The score depends on the categories and the capped counts only *)

Definition signature (matches : list PatternMatch) : list (PatternType * nat) :=
  map (fun m => (type m, Nat.min (count m) 3)) matches.

Lemma signature_length (ms1 ms2 : list PatternMatch) :
  signature ms1 = signature ms2 -> List.length ms1 = List.length ms2.
Proof.
  intros H. apply (f_equal (@List.length _)) in H.
  unfold signature in H. now rewrite !length_map in H.
Qed.

Lemma scoreStep_signature (acc : float * float) (m1 m2 : PatternMatch) :
  type m1 = type m2 -> Nat.min (count m1) 3 = Nat.min (count m2) 3 ->
  scoreStep acc m1 = scoreStep acc m2.
Proof.
  intros Ht Hc. unfold scoreStep. destruct acc as [mw tc]. now rewrite Ht, Hc.
Qed.

Lemma fold_scoreStep_signature (ms1 : list PatternMatch) :
  forall ms2 acc, signature ms1 = signature ms2 ->
  fold_left scoreStep ms1 acc = fold_left scoreStep ms2 acc.
Proof.
  induction ms1 as [|m1 ms1 IH]; intros [|m2 ms2] acc H; try discriminate; auto.
  simpl in H. injection H as Ht Hc Hrest. simpl.
  rewrite (scoreStep_signature acc m1 m2 Ht Hc). now apply IH.
Qed.

Lemma calculateRiskScore_signature (ms1 ms2 : list PatternMatch) :
  signature ms1 = signature ms2 -> calculateRiskScore ms1 = calculateRiskScore ms2.
Proof.
  intros H. unfold calculateRiskScore.
  rewrite (signature_length _ _ H), (fold_scoreStep_signature ms1 ms2 _ H).
  reflexivity.
Qed.

(** ** The shape of what [scanPatterns] returns *)

(** At most one record per category, in pipeline order, present exactly
    when its count is positive. *)
Definition entry (t : PatternType) (n : nat) : list PatternMatch :=
  if Nat.ltb 0 n then [mkPatternMatch t n []] else [].

Definition ofCounts (n1 n2 n3 n4 n5 : nat) : list PatternMatch :=
  (entry phone n1 ++ entry email n2 ++ entry url n3 ++ entry social n4
   ++ entry obfuscation n5)%list.

Definition cap (s : list jsstring) : nat := Nat.min (List.length s) 3.

Lemma cap_le (s : list jsstring) : cap s <= 3.
Proof. unfold cap. lia. Qed.

Lemma signature_app (a b : list PatternMatch) :
  signature (a ++ b) = (signature a ++ signature b)%list.
Proof. apply map_app. Qed.

Lemma signature_pushMatch (t : PatternType) (s : list jsstring) (ms : list PatternMatch) :
  signature (pushMatch t s ms) = (signature ms ++ signature (entry t (cap s)))%list.
Proof.
  unfold pushMatch, entry, cap.
  destruct (Nat.ltb_spec 0 (List.length s));
    destruct (Nat.ltb_spec 0 (Nat.min (List.length s) 3)); try lia;
    rewrite ?signature_app, ?app_nil_r; simpl; auto.
  do 3 f_equal. lia.
Qed.

Lemma signature_scanPatterns (text : jsstring) :
  signature (scanPatterns text)
  = signature (ofCounts (cap (collect PATTERNS.phone text))
                        (cap (collect PATTERNS.email text))
                        (cap (collect PATTERNS.url text))
                        (cap (collect PATTERNS.social text))
                        (cap (collect PATTERNS.obfuscation text))).
Proof.
  unfold scanPatterns, ofCounts.
  rewrite !signature_pushMatch, !signature_app, <- !app_assoc. reflexivity.
Qed.

(** Every score the scanner can lead to is the score of one of the
    [4^5] count vectors with entries in [0..3]; a decidable property of
    scores is settled by evaluating it there. *)
Definition upTo3 : list nat := [0; 1; 2; 3].

Definition holdsOnAllCounts (P : float -> bool) : bool :=
  forallb (fun n1 => forallb (fun n2 => forallb (fun n3 =>
  forallb (fun n4 => forallb (fun n5 =>
    P (calculateRiskScore (ofCounts n1 n2 n3 n4 n5)))
  upTo3) upTo3) upTo3) upTo3) upTo3.

Lemma forallb_upTo3 (f : nat -> bool) (n : nat) :
  forallb f upTo3 = true -> n <= 3 -> f n = true.
Proof.
  intros H Hn. simpl in H. rewrite !andb_true_iff in H.
  destruct n as [|[|[|[|n]]]]; try tauto. lia.
Qed.

Lemma score_by_cases (P : float -> bool) :
  holdsOnAllCounts P = true ->
  forall text, P (calculateRiskScore (scanPatterns text)) = true.
Proof.
  intros H text.
  rewrite (calculateRiskScore_signature _ _ (signature_scanPatterns text)).
  unfold holdsOnAllCounts in H.
  pose proof (forallb_upTo3 _ _ H (cap_le (collect PATTERNS.phone text))) as H1.
  pose proof (forallb_upTo3 _ _ H1 (cap_le (collect PATTERNS.email text))) as H2.
  pose proof (forallb_upTo3 _ _ H2 (cap_le (collect PATTERNS.url text))) as H3.
  pose proof (forallb_upTo3 _ _ H3 (cap_le (collect PATTERNS.social text))) as H4.
  exact (forallb_upTo3 _ _ H4 (cap_le (collect PATTERNS.obfuscation text))).
Qed.

(** [0 <= x <= 1] as the comparison of doubles (false on NaN). *)
Definition inUnit (x : float) : bool := PrimFloat.leb 0 x && PrimFloat.leb x 1.

Lemma score_inUnit (text : jsstring) :
  inUnit (calculateRiskScore (scanPatterns text)) = true.
Proof. apply score_by_cases. vm_compute. reflexivity. Qed.


(** ** The code's accumulation against the formula *)

Lemma weight_lookup (t : PatternType) :
  float_or (PATTERN_WEIGHTS t) 0.1 = Spec.weight t.
Proof. destruct t; reflexivity. Qed.

Lemma fold_scoreStep_spec (ms : list PatternMatch) :
  forall mw tc,
    fold_left scoreStep ms (mw, tc)
    = (fold_left Math_max (map (fun m => Spec.weight (type m)) ms) mw,
       fold_left PrimFloat.add
         (map (fun m => (Spec.weight (type m) * nat2float (Nat.min (count m) 3) / 3)%float)
              ms) tc).
Proof.
  induction ms as [|m ms IH]; intros mw tc; [reflexivity|].
  cbn [fold_left map]. unfold scoreStep at 2. rewrite weight_lookup. apply IH.
Qed.

Lemma calculateRiskScore_spec (ms : list PatternMatch) :
  calculateRiskScore ms = Spec.score ms.
Proof.
  destruct ms as [|m ms]; [reflexivity|].
  unfold calculateRiskScore, Spec.score, Spec.maxWeight, Spec.totalContribution,
    Spec.multiTypeBoost.
  rewrite fold_scoreStep_spec. reflexivity.
Qed.

(** ** Where the risk score of a result comes from *)

Lemma validContent_nonempty (c : code_unit) (text : jsstring) :
  validContent (VString (c :: text)) = Some (c :: text).
Proof. reflexivity. Qed.

Lemma scanPatterns_empty : scanPatterns [] = [].
Proof. vm_compute. reflexivity. Qed.

(** Below the length gate, the result carries the score of the scan. *)
Lemma risk_score_scanned (cfg : InterceptorConfig) (message : ChatMessage)
  (text : jsstring) :
  content message = VString text ->
  num_gtb (Int (Z.of_nat (List.length text))) (max_message_length cfg) = false ->
  risk_score (interceptMessage cfg message) = calculateRiskScore (scanPatterns text).
Proof.
  intros Hc Hgate. unfold interceptMessage. rewrite Hc.
  destruct text as [|c text].
  - rewrite scanPatterns_empty. reflexivity.
  - rewrite validContent_nonempty, Hgate.
    destruct (float_geb _ (sync_threshold cfg)); [reflexivity|].
    destruct (float_geb _ 0.4); reflexivity.
Qed.

(** Every path of [interceptMessage] yields a score in [[0,1]]. *)
Lemma interceptMessage_inUnit (cfg : InterceptorConfig) (message : ChatMessage) :
  inUnit (risk_score (interceptMessage cfg message)) = true.
Proof.
  unfold interceptMessage.
  destruct (validContent (content message)) as [text|]; [|reflexivity].
  destruct (num_gtb _ _); [reflexivity|].
  destruct (float_geb _ (sync_threshold cfg)); [apply score_inUnit|].
  destruct (float_geb _ 0.4); apply score_inUnit.
Qed.

(** What a configuration that [loadConfig] returned satisfies. *)
Lemma loadConfig_accepts (env : Config.Env) (cfg : InterceptorConfig) :
  Config.loadConfig env = inr cfg ->
  cfg = Config.readConfig env
  /\ num_ltb (max_message_length cfg) (Int 1) = false.
Proof.
  unfold Config.loadConfig. intros H.
  repeat match type of H with
         | (if ?b then _ else _) = _ => destruct b eqn:?; [discriminate|]
         end.
  injection H as <-. auto.
Qed.

(** *** C3 *)

(** C3. For every content string within the length limit, the risk score
    that [interceptMessage] returns is the specification's formula applied
    to the pattern matches of the content: 0.0 when no category matches,
    otherwise [min(max(maxWeight * 0.85, totalContribution * 0.7) +
    multiTypeBoost, 1.0)] with the weights 0.85, 0.80, 0.50, 0.40, 0.15. *)
Theorem risk_score_is_spec_formula (cfg : InterceptorConfig) (message : ChatMessage)
  (text : jsstring) (limit : Z) :
  content message = VString text ->
  max_message_length cfg = Int limit ->
  (Z.of_nat (List.length text) <= limit)%Z ->
  risk_score (interceptMessage cfg message) = Spec.score (scanPatterns text).
Proof.
  intros Hc Hmax Hlen.
  rewrite <- calculateRiskScore_spec. apply risk_score_scanned; [assumption|].
  rewrite Hmax. unfold num_gtb, num_ltb. apply Z.ltb_ge. exact Hlen.
Qed.

Lemma risk_score_is_spec_formula_witness :
  risk_score (interceptMessage Scenarios.defaultConfig
                (Scenarios.chat "Contact me at john@example.com or call (555) 123-4567"))
  = Spec.score
      (scanPatterns (lit "Contact me at john@example.com or call (555) 123-4567")).
Proof.
  apply (risk_score_is_spec_formula Scenarios.defaultConfig _ _ 10000%Z);
    [reflexivity | reflexivity | vm_compute; discriminate].
Defined.

(** *** C6 *)

(** C6. Under a loaded configuration, a message whose content is longer
    than [max_message_length] is answered without scanning: not allowed,
    [hard_block], score 1.0, the single label [message_too_long], and a
    block reason that quotes the configured maximum. *)
Theorem over_length_is_hard_block (env : Config.Env) (cfg : InterceptorConfig)
  (message : ChatMessage) (text : jsstring) (limit : Z) :
  Config.loadConfig env = inr cfg ->
  content message = VString text ->
  max_message_length cfg = Int limit ->
  (limit < Z.of_nat (List.length text))%Z ->
  interceptMessage cfg message
  = {| allowed := false; action := "hard_block"; risk_score := 1.0;
       labels := ["message_too_long"]; nudge_message := None;
       block_reason :=
         Some ("Message exceeds maximum length of " ++ Z_toString limit
               ++ " characters") |}.
Proof.
  intros Hload Hc Hmax Hlen.
  destruct (loadConfig_accepts env cfg Hload) as [_ Hvalid].
  rewrite Hmax in Hvalid. cbn in Hvalid. apply Z.ltb_ge in Hvalid.
  unfold interceptMessage. rewrite Hc, Hmax.
  destruct text as [|c text]; [cbn in Hlen; lia|].
  rewrite validContent_nonempty.
  unfold num_gtb, num_ltb. apply Z.ltb_lt in Hlen. rewrite Hlen. reflexivity.
Qed.

Lemma over_length_is_hard_block_witness :
  interceptMessage Scenarios.defaultConfig Scenarios.tooLong
  = {| allowed := false; action := "hard_block"; risk_score := 1.0;
       labels := ["message_too_long"]; nudge_message := None;
       block_reason := Some "Message exceeds maximum length of 10000 characters" |}.
Proof.
  apply (over_length_is_hard_block [] Scenarios.defaultConfig Scenarios.tooLong
           (repeat 97%N (N.to_nat 10001)) 10000%Z);
    [vm_compute; reflexivity | reflexivity | reflexivity | vm_compute; reflexivity].
Defined.

(** Of the fields of a message the result uses the content alone.  That
    the state a call runs in has no part in the result either is the
    subject of [PurityFacts], over the module [Runtime]. *)
Lemma interceptMessage_depends_on_content_only (cfg : InterceptorConfig)
  (m1 m2 : ChatMessage) :
  content m1 = content m2 ->
  interceptMessage cfg m1 = interceptMessage cfg m2.
Proof. intros H. unfold interceptMessage. rewrite H. reflexivity. Qed.

(** ** The end-to-end scenarios of the specification *)

(** Section 8 of the specification, scenarios 1 to 6, under the default
    configuration: the results the model computes are the ones listed. *)
Lemma scenario_clean_message :
  interceptMessage Scenarios.defaultConfig
    (Scenarios.chat "Hey, how are you doing today? The weather is nice!")
  = {| allowed := true; action := "allow"; risk_score := 0.0; labels := [];
       nudge_message := None; block_reason := None |}.
Proof. vm_compute. reflexivity. Qed.

Lemma scenario_phone :
  interceptMessage Scenarios.defaultConfig
    (Scenarios.chat "Call me at (555) 123-4567 for more details")
  = {| allowed := false; action := "hard_block"; risk_score := 0.85 * 0.85;
       labels := ["contact_info_phone"]; nudge_message := None;
       block_reason :=
         Some "Message blocked: detected phone number. Keep conversations on the platform for your safety." |}.
Proof. vm_compute. reflexivity. Qed.

Lemma scenario_email :
  interceptMessage Scenarios.defaultConfig
    (Scenarios.chat "Email me at john.doe@example.com")
  = {| allowed := false; action := "hard_block"; risk_score := 0.80 * 0.85;
       labels := ["contact_info_email"]; nudge_message := None;
       block_reason :=
         Some "Message blocked: detected email address. Keep conversations on the platform for your safety." |}.
Proof. vm_compute. reflexivity. Qed.

Lemma scenario_url :
  interceptMessage Scenarios.defaultConfig
    (Scenarios.chat "Check out my profile at https://example.com/profile")
  = {| allowed := true; action := "nudge"; risk_score := 0.50 * 0.85;
       labels := ["external_link"];
       nudge_message :=
         Some "This message may contain content that violates our community guidelines. Please review before sending.";
       block_reason := None |}.
Proof. vm_compute. reflexivity. Qed.

(** The content of scenario 5 also matches the social phrase
    [Contact me at], so three categories contribute. *)
Lemma scenario_email_and_phone :
  interceptMessage Scenarios.defaultConfig
    (Scenarios.chat "Contact me at john@example.com or call (555) 123-4567")
  = {| allowed := false; action := "hard_block";
       risk_score := 0.85 * 0.85 + 0.10 * 2;
       labels := ["contact_info_phone"; "contact_info_email"; "social_platform_mention"];
       nudge_message := None;
       block_reason :=
         Some "Message blocked: detected phone number, email address, social media reference. Keep conversations on the platform for your safety." |}.
Proof. vm_compute. reflexivity. Qed.

Lemma scenario_too_long :
  interceptMessage Scenarios.defaultConfig Scenarios.tooLong
  = {| allowed := false; action := "hard_block"; risk_score := 1.0;
       labels := ["message_too_long"]; nudge_message := None;
       block_reason := Some "Message exceeds maximum length of 10000 characters" |}.
Proof. vm_compute. reflexivity. Qed.

(** ** One category, one distinct match *)

(** What the formula gives when the scan finds a single category with a
    single distinct match: phone and email land above 0.65, url in
    [[0.40, 0.65)], social and obfuscation below 0.40. *)
Lemma single_match_score (m : PatternMatch) :
  count m = 1 ->
  calculateRiskScore [m]
  = match type m with
    | phone => 0.85 * 0.85
    | email => 0.80 * 0.85
    | url => 0.50 * 0.85
    | social => 0.40 * 0.85
    | obfuscation => 0.15 * 0.85
    end%float.
Proof.
  destruct m as [t c smp]. cbn [count type]. intros ->. destruct t; reflexivity.
Qed.

Lemma single_match_bands :
  PrimFloat.ltb 0.65 (0.85 * 0.85) = true
  /\ PrimFloat.ltb 0.65 (0.80 * 0.85) = true
  /\ PrimFloat.leb 0.40 (0.50 * 0.85) = true
  /\ PrimFloat.ltb (0.50 * 0.85) 0.65 = true
  /\ PrimFloat.ltb (0.40 * 0.85) 0.40 = true
  /\ PrimFloat.ltb (0.15 * 0.85) 0.40 = true.
Proof. repeat split. Qed.

(** *** C1 *)

(** C1 (as the code behaves on the failing input).  The content
    [Text me later] matches the social category alone, with one distinct
    match; its score is [0.40 * 0.85], which is below 0.40, so the message
    is allowed without a nudge. *)
Theorem lone_social_mention_scores_below_nudge_band :
  scanPatterns (lit "Text me later") = [mkPatternMatch social 1 [lit "Text me"]]
  /\ interceptMessage Scenarios.defaultConfig (Scenarios.chat "Text me later")
     = {| allowed := true; action := "allow"; risk_score := 0.40 * 0.85;
          labels := ["social_platform_mention"]; nudge_message := None;
          block_reason := None |}
  /\ PrimFloat.ltb (0.40 * 0.85) 0.40 = true.
Proof. repeat split; vm_compute; reflexivity. Qed.

(** *** C2 *)

(** C2 (as the code behaves on the failing input).  [SYNC_THRESHOLD=0.9]
    is accepted by [loadConfig]; under it a message with one phone number
    scores [0.85 * 0.85], below the threshold, and is answered with action
    [nudge] and no nudge message. *)
Theorem nudge_without_message_above_default_threshold :
  Config.loadConfig Scenarios.strictEnv = inr Scenarios.strictConfig
  /\ interceptMessage Scenarios.strictConfig
       (Scenarios.chat "Call me at (555) 123-4567 for more details")
     = {| allowed := true; action := "nudge"; risk_score := 0.85 * 0.85;
          labels := ["contact_info_phone"]; nudge_message := None;
          block_reason := None |}.
Proof. split; vm_compute; reflexivity. Qed.

(** The two other invariants of a result hold on every path, under every
    configuration. *)
Lemma allowed_iff_not_blocked (cfg : InterceptorConfig) (message : ChatMessage) :
  allowed (interceptMessage cfg message)
  = negb (String.eqb (action (interceptMessage cfg message)) "hard_block").
Proof.
  unfold interceptMessage.
  destruct (validContent (content message)) as [text|]; [|reflexivity].
  destruct (num_gtb _ _); [reflexivity|].
  destruct (float_geb _ (sync_threshold cfg)); [reflexivity|].
  destruct (float_geb _ 0.4); reflexivity.
Qed.

Definition isSome {A : Type} (o : option A) : bool :=
  match o with Some _ => true | None => false end.

Lemma block_reason_iff_blocked (cfg : InterceptorConfig) (message : ChatMessage) :
  isSome (block_reason (interceptMessage cfg message))
  = String.eqb (action (interceptMessage cfg message)) "hard_block".
Proof.
  unfold interceptMessage.
  destruct (validContent (content message)) as [text|]; [|reflexivity].
  destruct (num_gtb _ _); [reflexivity|].
  destruct (float_geb _ (sync_threshold cfg)); [reflexivity|].
  destruct (float_geb _ 0.4); reflexivity.
Qed.

(** Under the default threshold the third invariant holds as well: the
    nudge band of [interceptMessage] and the band in which
    [generateNudgeMessage] answers coincide. *)
Definition nudgeBandAgrees (x : float) : bool :=
  if float_geb x 0.65 then true
  else if float_geb x 0.4 then negb (PrimFloat.ltb x 0.4 || float_geb x 0.65)
  else true.

Lemma nudge_message_iff_nudge_by_default (message : ChatMessage) :
  isSome (nudge_message (interceptMessage Scenarios.defaultConfig message))
  = String.eqb (action (interceptMessage Scenarios.defaultConfig message)) "nudge".
Proof.
  unfold interceptMessage, generateNudgeMessage.
  destruct (validContent (content message)) as [text|]; [|reflexivity].
  destruct (num_gtb _ _); [reflexivity|].
  pose proof (score_by_cases nudgeBandAgrees eq_refl text) as H.
  unfold nudgeBandAgrees in H.
  change (sync_threshold Scenarios.defaultConfig) with 0.65%float.
  destruct (float_geb _ 0.65); [reflexivity|].
  destruct (float_geb _ 0.4); [|reflexivity].
  apply negb_true_iff in H. rewrite H. cbn [nudge_message action].
  repeat match goal with
         | |- context [if ?b then _ else _] => destruct b
         end; reflexivity.
Qed.

End ScorerFacts.

(* ================================================================== *)
(** * Properties of the circuit breaker                               *)
(* ================================================================== *)

Module BreakerFacts.
Import JS CircuitBreaker.
Local Open Scope Z_scope.

Section Runs.

Variable W : Type.
Variable Date_now : W -> Z.
Variables T E : Type.

Definition operation : Type := W -> Outcome T E * W.

(** One call of [execute], keeping the breaker and the world it leaves. *)
Definition step (s : CircuitBreaker * W) (fn : operation) : CircuitBreaker * W :=
  let r := execute Date_now (fst s) fn (snd s) in (snd (fst r), snd r).

(** A sequence of calls, one after the other. *)
Definition run (fns : list operation) (s : CircuitBreaker * W) : CircuitBreaker * W :=
  fold_left step fns s.

(** An operation that fails, respectively succeeds, whenever it is run. *)
Definition rejects (fn : operation) : Prop :=
  forall w, exists e w', fn w = (Rejected e, w').

Definition resolves (fn : operation) : Prop :=
  forall w, exists v w', fn w = (Resolved v, w').

(** The breaker as [execute] sees it once an OPEN breaker's cool-down is
    over. *)
Definition probe (cb : CircuitBreaker) : CircuitBreaker :=
  set_successCount 0 (set_state HALF_OPEN cb).

Lemma execute_invokes (cb : CircuitBreaker) (fn : operation) (w : W) :
  state cb = CLOSED
  \/ (state cb = HALF_OPEN
      /\ num_geb (Int (successCount cb)) (r_halfOpenMaxAttempts (config cb)) = false) ->
  execute Date_now cb fn w
  = match fn w with
    | (Resolved v, w') => (Resolved (Some v), onSuccess cb, w')
    | (Rejected e, w') => (Rejected e, onFailure (Date_now w') cb, w')
    end.
Proof.
  intros [Hs | [Hs Hc]]; unfold execute, checkOpen; rewrite Hs; cbn iota; rewrite Hs.
  - reflexivity.
  - rewrite Hc. reflexivity.
Qed.

Lemma execute_open_waiting (cb : CircuitBreaker) (fn : operation) (w : W) :
  state cb = OPEN ->
  num_geb (Int (Date_now w - lastFailureTime cb)) (r_resetTimeout (config cb)) = false ->
  execute Date_now cb fn w = (Resolved None, cb, w).
Proof.
  intros Hs Ht. unfold execute, checkOpen. rewrite Hs, Ht. reflexivity.
Qed.

Lemma execute_open_elapsed (cb : CircuitBreaker) (fn : operation) (w : W) :
  state cb = OPEN ->
  num_geb (Int (Date_now w - lastFailureTime cb)) (r_resetTimeout (config cb)) = true ->
  execute Date_now cb fn w = execute Date_now (probe cb) fn w.
Proof.
  intros Hs Ht. unfold execute, checkOpen. rewrite Hs, Ht. reflexivity.
Qed.

Lemma run_cons (fn : operation) (fns : list operation) (s : CircuitBreaker * W) :
  run (fn :: fns) s = run fns (step s fn).
Proof. reflexivity. Qed.

Lemma step_reject (cb : CircuitBreaker) (w : W) (fn : operation) :
  state cb = CLOSED
  \/ (state cb = HALF_OPEN
      /\ num_geb (Int (successCount cb)) (r_halfOpenMaxAttempts (config cb)) = false) ->
  rejects fn ->
  exists w', step (cb, w) fn = (onFailure (Date_now w') cb, w').
Proof.
  intros Hs Hfn. unfold step. cbn [fst snd]. rewrite (execute_invokes cb fn w Hs).
  destruct (Hfn w) as (e & w' & ->). now exists w'.
Qed.

Lemma step_resolve (cb : CircuitBreaker) (w : W) (fn : operation) :
  state cb = CLOSED
  \/ (state cb = HALF_OPEN
      /\ num_geb (Int (successCount cb)) (r_halfOpenMaxAttempts (config cb)) = false) ->
  resolves fn ->
  exists w', step (cb, w) fn = (onSuccess cb, w').
Proof.
  intros Hs Hfn. unfold step. cbn [fst snd]. rewrite (execute_invokes cb fn w Hs).
  destruct (Hfn w) as (v & w' & ->). now exists w'.
Qed.

Lemma onFailure_closed (t n : Z) (cb : CircuitBreaker) :
  state cb = CLOSED ->
  r_threshold (config cb) = Int n ->
  onFailure t cb
  = mkBreaker (if n <=? failureCount cb + 1 then OPEN else CLOSED)
      (failureCount cb + 1) (successCount cb) t (config cb).
Proof.
  intros Hs Hn. unfold onFailure.
  cbn [state failureCount successCount config set_failureCount set_lastFailureTime].
  rewrite Hs, Hn. cbn [num_geb].
  destruct (n <=? failureCount cb + 1);
    unfold set_state, set_failureCount, set_successCount, set_lastFailureTime;
    cbn; now rewrite ?Hs.
Qed.

Lemma onFailure_half_open (t : Z) (cb : CircuitBreaker) :
  state cb = HALF_OPEN ->
  onFailure t cb = mkBreaker OPEN (failureCount cb + 1) 0 t (config cb).
Proof.
  intros Hs. unfold onFailure.
  cbn [state failureCount successCount config set_failureCount set_lastFailureTime].
  rewrite Hs.
  unfold set_state, set_failureCount, set_successCount, set_lastFailureTime; cbn.
  reflexivity.
Qed.

Lemma onSuccess_half_open (h : Z) (cb : CircuitBreaker) :
  state cb = HALF_OPEN ->
  r_halfOpenMaxAttempts (config cb) = Int h ->
  onSuccess cb
  = if h <=? successCount cb + 1
    then mkBreaker CLOSED 0 0 (lastFailureTime cb) (config cb)
    else mkBreaker HALF_OPEN (failureCount cb) (successCount cb + 1)
           (lastFailureTime cb) (config cb).
Proof.
  intros Hs Hh. unfold onSuccess. rewrite Hs.
  cbn [state failureCount successCount config set_successCount].
  rewrite Hh. cbn [num_geb].
  destruct (h <=? successCount cb + 1);
    unfold set_state, set_failureCount, set_successCount, set_lastFailureTime;
    cbn; now rewrite ?Hs.
Qed.

(** Failures while CLOSED: the count goes up by one each time, and the
    state flips to OPEN on the failure that reaches the threshold. *)
Lemma closed_failures (n : Z) (fns : list operation) :
  Forall rejects fns ->
  forall cb w,
    state cb = CLOSED ->
    r_threshold (config cb) = Int n ->
    failureCount cb < n ->
    failureCount cb + Z.of_nat (List.length fns) <= n ->
    failureCount (fst (run fns (cb, w)))
    = failureCount cb + Z.of_nat (List.length fns)
    /\ state (fst (run fns (cb, w)))
       = (if failureCount cb + Z.of_nat (List.length fns) <? n then CLOSED else OPEN).
Proof.
  induction 1 as [|fn fns Hfn _ IH]; intros cb w Hs Hn Hlt Hle.
  - cbn. rewrite Z.add_0_r. split; [reflexivity|].
    apply Z.ltb_lt in Hlt. now rewrite Hlt.
  - cbn [List.length] in *. rewrite Nat2Z.inj_succ in *. rewrite run_cons.
    destruct (step_reject cb w fn (or_introl Hs) Hfn) as [w' ->].
    rewrite (onFailure_closed _ n cb Hs Hn).
    destruct (Z.leb_spec n (failureCount cb + 1)) as [Hge | Hlt'].
    + assert (fns = []) as -> by (destruct fns; [reflexivity | cbn in Hle; lia]).
      cbn. split; [lia|].
      destruct (Z.ltb_spec (failureCount cb + 1) n); [lia | reflexivity].
    + match goal with |- context [run fns (?c, w')] => specialize (IH c w') end.
      cbn [state failureCount config] in IH.
      destruct (IH eq_refl Hn Hlt' ltac:(lia)) as [IH1 IH2].
      rewrite IH1, IH2.
      replace (failureCount cb + Z.succ (Z.of_nat (List.length fns)))
        with (failureCount cb + 1 + Z.of_nat (List.length fns)) by lia.
      split; reflexivity.
Qed.







(** *** C4 *)


End Runs.

Arguments step {W} Date_now {T E} s fn.
Arguments run {W} Date_now {T E} fns s.
Arguments rejects {W T E} fn.
Arguments resolves {W T E} fn.

(** A run by the clock: the world is the time in milliseconds, and a call
    to the backend takes 10 ms and fails. *)
Definition backendDown {T : Type} (t : Z) : Outcome T string * Z :=
  (Rejected "backend down"%string, t + 10).

Lemma backendDown_rejects (T : Type) : rejects (@backendDown T).
Proof. intros t. exists "backend down"%string, (t + 10). reflexivity. Qed.


End BreakerFacts.

(* ================================================================== *)
(** * Properties of the configuration loader                          *)
(* ================================================================== *)

Module ConfigFacts.
Import JS Types Config Scenarios.

Lemma loadConfig_default : loadConfig [] = inr defaultConfig.
Proof. vm_compute. reflexivity. Qed.

Lemma loadConfig_strict : loadConfig strictEnv = inr strictConfig.
Proof. vm_compute. reflexivity. Qed.

(** A double that is neither below 0 nor above 1 is in [[0,1]] or is NaN. *)
Lemma not_outside_unit (t : float) :
  PrimFloat.ltb t 0 || PrimFloat.ltb 1 t = false ->
  is_nan t = true \/ PrimFloat.leb 0 t && PrimFloat.leb t 1 = true.
Proof.
  unfold is_nan. rewrite !ltb_spec, !leb_spec, eqb_spec.
  change (Prim2SF 0) with (S754_zero false).
  change (Prim2SF 1) with (S754_finite false 4503599627370496 (-52)).
  generalize 4503599627370496%positive (-52)%Z. intros c1 e1.
  intros H. apply orb_false_elim in H. destruct H as [H0 H1].
  destruct (Prim2SF t) as [s | s | | s m e].
  - right. reflexivity.
  - destruct s; discriminate.
  - left. reflexivity.
  - destruct s; [discriminate|]. right.
    unfold SFltb, SFleb, SFcompare in *.
    rewrite (Z.compare_antisym e e1) in H1.
    change (Pos.compare_cont Eq c1 m) with (Pos.compare c1 m) in H1.
    change (Pos.compare_cont Eq m c1) with (Pos.compare m c1).
    rewrite (Pos.compare_antisym m c1) in H1.
    destruct (e ?= e1)%Z; destruct (Pos.compare m c1);
      cbn [CompOpp andb] in *; try discriminate; reflexivity.
Qed.

(** X14. Validation does its work on values that are numbers: a
    configuration is returned only if every tunable that parsed to a number
    is in range.  A tunable that parsed to NaN is let through. *)
Lemma loadConfig_checks_numbers (env : Env) (cfg : InterceptorConfig) :
  loadConfig env = inr cfg ->
  (is_nan (sync_threshold cfg) = true
   \/ PrimFloat.leb 0 (sync_threshold cfg) && PrimFloat.leb (sync_threshold cfg) 1 = true)
  /\ (forall z, redis_port cfg = Int z -> (1 <= z <= 65535)%Z)
  /\ (forall z, detection_port cfg = Int z -> (1 <= z <= 65535)%Z)
  /\ (forall z, circuit_breaker_threshold cfg = Int z -> (1 <= z)%Z)
  /\ (forall z, circuit_breaker_reset_ms cfg = Int z -> (1000 <= z)%Z)
  /\ (forall z, max_message_length cfg = Int z -> (1 <= z)%Z).
Proof.
  unfold loadConfig. intros H.
  repeat match type of H with
         | (if ?b then _ else _) = _ => destruct b eqn:?; [discriminate|]
         end.
  injection H as <-.
  destruct (readConfig env) as [thr rh rp dh dp cbt cbr mml].
  cbn [sync_threshold redis_port detection_port circuit_breaker_threshold
       circuit_breaker_reset_ms max_message_length] in *.
  split; [apply not_outside_unit; match goal with H : _ |- _ => exact H end|].
  repeat match goal with
         | H : (num_ltb _ _ || _)%bool = false |- _ =>
             apply orb_false_elim in H; destruct H
         end.
  unfold num_gtb, num_ltb in *.
  split; [|split; [|split; [|split]]]; intros z ->;
    repeat match goal with
           | H : (_ <? _)%Z = false |- _ => apply Z.ltb_ge in H
           end; lia.
Qed.

(** *** C5 *)

(** C5 (as the code behaves on the failing input).  With
    [SYNC_THRESHOLD=abc] the threshold parses to NaN, both range
    comparisons are false, and [loadConfig] returns a configuration whose
    [sync_threshold] is NaN instead of failing. *)
Theorem unparsable_threshold_passes_validation :
  is_nan (parseFloat (lit "abc")) = true
  /\ loadConfig garbledEnv
     = inr {| sync_threshold := nan;
              redis_host := lit "localhost";
              redis_port := Int 6379;
              detection_host := lit "localhost";
              detection_port := Int 8000;
              circuit_breaker_threshold := Int 5;
              circuit_breaker_reset_ms := Int 30000;
              max_message_length := Int 10000 |}.
Proof. split; vm_compute; reflexivity. Qed.

End ConfigFacts.


(* ================================================================== *)
(** * Properties of the dispatcher                                    *)
(* ================================================================== *)

Module DispatcherFacts.
Import JS Types CircuitBreaker Dispatcher Scenarios.
Import Interceptor(interceptMessage).
Import ScorerFacts(inUnit).
Local Open Scope string_scope.

(** A request that passes validation: type [intercept], a message, and
    truthy content. *)
Definition validRequest (request : InterceptorRequest) (m : ChatMessage) : Prop :=
  type request = VString (lit "intercept")
  /\ message request = Some m
  /\ truthy (content m) = true.

(** The identifier the response carries. *)
Definition requestIdOf (request : InterceptorRequest) (w : World) : jsstring :=
  match request_id request with
  | Some (c :: id) => c :: id
  | _ => uuid w
  end.

(** A service whose breaker has opened at time 0 after five failures. *)
Definition trippedService : InterceptorService :=
  {| circuitBreaker :=
       {| state := OPEN; failureCount := 5; successCount := 0; lastFailureTime := 0;
          config := config (circuitBreaker (newService defaultConfig)) |} |}.

Definition phoneRequest : InterceptorRequest :=
  {| type := VString (lit "intercept");
     message := Some (chat "Call me at (555) 123-4567 for more details");
     request_id := Some (lit "req-1") |}.

Definition emptyRequest : InterceptorRequest :=
  {| type := VString (lit "intercept");
     message := Some (chat "");
     request_id := Some (lit "req-2") |}.

(** That breaker is the one of a new service after five calls of a failing
    operation, 10 ms each, the first made at time -50. *)
Lemma trippedService_reached :
  fst (BreakerFacts.run (fun t => t)
         (repeat (@BreakerFacts.backendDown InterceptResult) 5)
         (circuitBreaker (newService defaultConfig), (-50)%Z))
  = circuitBreaker trippedService.
Proof. vm_compute. reflexivity. Qed.

(** The world at a given time, with nothing done yet. *)
Definition worldAt (t : Z) : World :=
  {| now := t; latency := 2; uuid := lit "00000000-0000-4000-8000-000000000000";
     events := [] |}.

(** The events with a risk score in them carry one in [[0,1]]. *)
Definition eventInUnit (e : Event) : bool :=
  match e with
  | Sent (Reply r) => inUnit (risk_score (result r))
  | Emitted _ r => inUnit (risk_score r)
  | _ => true
  end.

(** The breaker answers a scorer call in one of two ways: it refuses, and
    the world is as it was; or the scorer runs and its result comes back. *)
Lemma execute_scorerCall (cfg : InterceptorConfig) (cb : CircuitBreaker)
  (m : ChatMessage) (w : World) :
  (exists cb', execute Date_now cb (scorerCall cfg m) w = (Resolved None, cb', w))
  \/ exists cb',
      execute Date_now cb (scorerCall cfg m) w
      = (Resolved (Some (interceptMessage cfg m)), cb', elapse (record (Scored m) w)).
Proof.
  unfold execute. destruct (checkOpen Date_now cb w) as [[] | cb1]; [left; eauto|].
  destruct (_ && _)%bool; [left; eauto|]. right. cbn. eauto.
Qed.

Lemma handleMessage_valid (cfg : InterceptorConfig) (svc : InterceptorService)
  (request : InterceptorRequest) (m : ChatMessage) (w : World) :
  validRequest request m ->
  handleMessage cfg svc (Parsed request) w
  = let '(breakerResult, cb, w1) :=
      execute Date_now (circuitBreaker svc) (scorerCall cfg m) w in
    let result :=
      match breakerResult with
      | Resolved None => breakerOpenResult
      | Resolved (Some r) => r
      | Rejected _ => interceptorErrorResult
      end in
    (mkService cb,
     ws_send (Reply {| resp_type := "intercept_result";
                       resp_request_id := requestIdOf request w;
                       result := result;
                       processing_ms := Date_now (emitAsync m result w1) - Date_now w |})
       (emitAsync m result w1)).
Proof.
  intros (Ht & Hm & Hc). unfold handleMessage, requestIdOf.
  rewrite Ht, Hm, Hc. reflexivity.
Qed.

(** In the service the protected operation is the scorer, which always
    resolves: handling a frame never opens a CLOSED breaker. *)
Lemma handleMessage_keeps_closed (cfg : InterceptorConfig) (svc : InterceptorService)
  (data : Frame) (w : World) :
  state (circuitBreaker svc) = CLOSED ->
  state (circuitBreaker (fst (handleMessage cfg svc data w))) = CLOSED.
Proof.
  intros Hs. unfold handleMessage.
  destruct data as [|request]; [exact Hs|].
  destruct (isIntercept (type request)); cbn [negb]; [|exact Hs].
  destruct (message request) as [m|]; [|exact Hs].
  destruct (truthy (content m)); cbn [negb]; [|exact Hs].
  rewrite (BreakerFacts.execute_invokes World Date_now InterceptResult string
             (circuitBreaker svc) (scorerCall cfg m) w (or_introl Hs)).
  cbn. unfold onSuccess. rewrite Hs. destruct (0 <? _)%Z; exact Hs.
Qed.

(** *** C10 *)

(** C10. An [intercept] request whose message content is the empty string
    is answered with the error response [processing_error] / [Missing
    message content]; nothing else happens (no scorer call, no event
    emitted, the breaker untouched), although [interceptMessage] itself
    would map the message to an allow result with score 0 and no labels. *)
Theorem empty_content_is_refused_unscored (cfg : InterceptorConfig)
  (svc : InterceptorService) (request : InterceptorRequest) (m : ChatMessage)
  (w : World) :
  type request = VString (lit "intercept") ->
  message request = Some m ->
  content m = VString [] ->
  handleMessage cfg svc (Parsed request) w
  = (svc,
     mkWorld (now w) (latency w) (uuid w)
       (events w
        ++ [Sent (Failure {| err_type := "error";
                             err_request_id := request_id request;
                             error := "processing_error";
                             err_message := "Missing message content" |})]))
  /\ interceptMessage cfg m
     = {| allowed := true; action := "allow"; risk_score := 0; labels := [];
          nudge_message := None; block_reason := None |}.
Proof.
  intros Ht Hm Hc. split.
  - unfold handleMessage. rewrite Ht, Hm, Hc. reflexivity.
  - unfold interceptMessage. rewrite Hc. reflexivity.
Qed.

Lemma empty_content_is_refused_unscored_witness :
  handleMessage defaultConfig (newService defaultConfig) (Parsed emptyRequest) (worldAt 1000)
  = (newService defaultConfig,
     mkWorld 1000 2 (uuid (worldAt 1000))
       [Sent (Failure {| err_type := "error";
                         err_request_id := Some (lit "req-2");
                         error := "processing_error";
                         err_message := "Missing message content" |})])
  /\ interceptMessage defaultConfig (chat "")
     = {| allowed := true; action := "allow"; risk_score := 0; labels := [];
          nudge_message := None; block_reason := None |}.
Proof.
  apply (empty_content_is_refused_unscored defaultConfig (newService defaultConfig)
           emptyRequest (chat "") (worldAt 1000)); reflexivity.
Defined.

(** *** C7 *)

(** C7, as stated, fails once the cool-down is over: the breaker is OPEN
    with its last failure at time 0, the request arrives at time 30000
    (the reset timeout), so the call runs as a probe; the scorer is
    invoked and its verdict, a hard block, is the reply. *)
Lemma open_breaker_probes_after_cooldown :
  state (circuitBreaker trippedService) = OPEN
  /\ handleMessage defaultConfig trippedService (Parsed phoneRequest) (worldAt 30000)
     = (mkService
          {| state := HALF_OPEN; failureCount := 5; successCount := 1;
             lastFailureTime := 0; config := config (circuitBreaker trippedService) |},
        mkWorld 30002 2 (uuid (worldAt 30000))
          [Scored (chat "Call me at (555) 123-4567 for more details");
           Emitted (chat "Call me at (555) 123-4567 for more details")
             {| allowed := false; action := "hard_block"; risk_score := 0.85 * 0.85;
                labels := ["contact_info_phone"]; nudge_message := None;
                block_reason :=
                  Some "Message blocked: detected phone number. Keep conversations on the platform for your safety." |};
           Sent (Reply
             {| resp_type := "intercept_result";
                resp_request_id := lit "req-1";
                result :=
                  {| allowed := false; action := "hard_block"; risk_score := 0.85 * 0.85;
                     labels := ["contact_info_phone"]; nudge_message := None;
                     block_reason :=
                       Some "Message blocked: detected phone number. Keep conversations on the platform for your safety." |};
                processing_ms := 2 |})]).
Proof. split; vm_compute; reflexivity. Qed.

(** C7 (amended).  A valid intercept request that arrives while the
    breaker is OPEN and less than the reset timeout has elapsed since the
    last failure is answered with a normal response whose result is
    allowed, action [allow], score 0.0 and the label [circuit_breaker_open];
    the scorer is not invoked and the breaker does not change. *)
Theorem open_breaker_fails_open (cfg : InterceptorConfig) (svc : InterceptorService)
  (request : InterceptorRequest) (m : ChatMessage) (w : World) (timeout : Z) :
  validRequest request m ->
  state (circuitBreaker svc) = OPEN ->
  r_resetTimeout (config (circuitBreaker svc)) = Int timeout ->
  (now w - lastFailureTime (circuitBreaker svc) < timeout)%Z ->
  handleMessage cfg svc (Parsed request) w
  = (svc,
     mkWorld (now w) (latency w) (uuid w)
       (events w
        ++ [Emitted m {| allowed := true; action := "allow"; risk_score := 0.0;
                         labels := ["circuit_breaker_open"]; nudge_message := None;
                         block_reason := None |};
            Sent (Reply
              {| resp_type := "intercept_result";
                 resp_request_id := requestIdOf request w;
                 result :=
                   {| allowed := true; action := "allow"; risk_score := 0.0;
                      labels := ["circuit_breaker_open"]; nudge_message := None;
                      block_reason := None |};
                 processing_ms := 0 |})])).
Proof.
  intros Hv Hs Hr Ht. rewrite (handleMessage_valid cfg svc request m w Hv).
  rewrite (BreakerFacts.execute_open_waiting World Date_now InterceptResult string
             (circuitBreaker svc) (scorerCall cfg m) w Hs).
  2:{ rewrite Hr. cbn. apply Z.leb_gt. exact Ht. }
  destruct svc as [cb]. cbn [circuitBreaker]. unfold ws_send, emitAsync, record, Date_now.
  cbn [now latency uuid events]. rewrite Z.sub_diag, <- app_assoc. reflexivity.
Qed.

Lemma open_breaker_fails_open_witness :
  handleMessage defaultConfig trippedService (Parsed phoneRequest) (worldAt 29999)
  = (trippedService,
     mkWorld 29999 2 (uuid (worldAt 29999))
       [Emitted (chat "Call me at (555) 123-4567 for more details")
          {| allowed := true; action := "allow"; risk_score := 0.0;
             labels := ["circuit_breaker_open"]; nudge_message := None;
             block_reason := None |};
        Sent (Reply
          {| resp_type := "intercept_result";
             resp_request_id := lit "req-1";
             result :=
               {| allowed := true; action := "allow"; risk_score := 0.0;
                  labels := ["circuit_breaker_open"]; nudge_message := None;
                  block_reason := None |};
             processing_ms := 0 |})]).
Proof.
  apply (open_breaker_fails_open defaultConfig trippedService phoneRequest
           (chat "Call me at (555) 123-4567 for more details") (worldAt 29999) 30000);
    [repeat split | reflexivity | reflexivity | reflexivity].
Defined.

(** *** C8 *)

(** C8. Every risk score the service hands out lies in [[0,1]]: the
    scorer's on all its paths (pattern scoring, the over-length gate, the
    malformed-content gate), the two results the dispatcher synthesizes,
    and therefore the one in every event emitted and response sent while a
    frame is handled. *)
Theorem risk_score_within_unit_interval :
  (forall (cfg : InterceptorConfig) (message : ChatMessage),
      inUnit (risk_score (interceptMessage cfg message)) = true)
  /\ inUnit (risk_score breakerOpenResult) = true
  /\ inUnit (risk_score interceptorErrorResult) = true
  /\ (forall (cfg : InterceptorConfig) (svc : InterceptorService) (data : Frame)
             (w : World),
         exists new : list Event,
           events (snd (handleMessage cfg svc data w)) = (events w ++ new)%list
           /\ forallb eventInUnit new = true).
Proof.
  split; [exact ScorerFacts.interceptMessage_inUnit|].
  split; [reflexivity|]. split; [reflexivity|].
  intros cfg svc data w. unfold handleMessage.
  destruct data as [|request]; [eexists; split; reflexivity|].
  destruct (isIntercept (type request)); cbn [negb]; [|eexists; split; reflexivity].
  destruct (message request) as [m|]; [|eexists; split; reflexivity].
  destruct (truthy (content m)); cbn [negb]; [|eexists; split; reflexivity].
  destruct (execute_scorerCall cfg (circuitBreaker svc) m w) as [[cb' ->] | [cb' ->]].
  - eexists. split.
    + cbn. rewrite <- app_assoc. reflexivity.
    + reflexivity.
  - eexists. split.
    + cbn. rewrite <- !app_assoc. reflexivity.
    + cbn. rewrite (ScorerFacts.interceptMessage_inUnit cfg m). reflexivity.
Qed.

End DispatcherFacts.

(* ================================================================== *)
(** * Order of doubles                                                *)
(* ================================================================== *)

(** The comparisons of doubles are those of IEEE 754: a NaN compares with
    nothing, and on the other values [<=] is transitive.  Both follow from
    the specification of the primitive comparisons ([SFcompare]). *)
Module FloatFacts.
Import JS.

(** The order of two finite doubles of the same sign, as [SFcompare] computes
    it: exponents first, then mantissas. *)
Definition lexCompare (e1 : Z) (m1 : positive) (e2 : Z) (m2 : positive) : comparison :=
  match Z.compare e1 e2 with
  | Lt => Lt
  | Gt => Gt
  | Eq => Pos.compare m1 m2
  end.

Lemma lexCompare_le_trans e1 m1 e2 m2 e3 m3 :
  lexCompare e1 m1 e2 m2 <> Gt -> lexCompare e2 m2 e3 m3 <> Gt ->
  lexCompare e1 m1 e3 m3 <> Gt.
Proof.
  unfold lexCompare.
  destruct (Z.compare_spec e1 e2), (Z.compare_spec e2 e3), (Z.compare_spec e1 e3);
    try lia; try congruence; subst.
  destruct (Pos.compare_spec m1 m2), (Pos.compare_spec m2 m3), (Pos.compare_spec m1 m3);
    try lia; congruence.
Qed.

Lemma lexCompare_ge_trans e1 m1 e2 m2 e3 m3 :
  lexCompare e1 m1 e2 m2 <> Lt -> lexCompare e2 m2 e3 m3 <> Lt ->
  lexCompare e1 m1 e3 m3 <> Lt.
Proof.
  unfold lexCompare.
  destruct (Z.compare_spec e1 e2), (Z.compare_spec e2 e3), (Z.compare_spec e1 e3);
    try lia; try congruence; subst.
  destruct (Pos.compare_spec m1 m2), (Pos.compare_spec m2 m3), (Pos.compare_spec m1 m3);
    try lia; congruence.
Qed.

Lemma SFcompare_finite s1 m1 e1 s2 m2 e2 :
  SFcompare (S754_finite s1 m1 e1) (S754_finite s2 m2 e2)
  = Some match s1, s2 with
         | true, false => Lt
         | false, true => Gt
         | false, false => lexCompare e1 m1 e2 m2
         | true, true => CompOpp (lexCompare e1 m1 e2 m2)
         end.
Proof.
  unfold lexCompare. cbn [SFcompare]. destruct s1, s2; try reflexivity;
    destruct (Z.compare e1 e2); reflexivity.
Qed.

Lemma SFleb_trans (x y z : spec_float) :
  SFleb x y = true -> SFleb y z = true -> SFleb x z = true.
Proof.
  unfold SFleb.
  destruct x as [sx | sx | | sx mx ex], y as [sy | sy | | sy my ey],
    z as [sz | sz | | sz mz ez];
    rewrite ?SFcompare_finite;
    cbn [SFcompare]; try discriminate; try reflexivity;
    repeat match goal with s : bool |- _ => destruct s end;
    cbn; try discriminate; try reflexivity.
  all: intros H1 H2;
    pose proof (lexCompare_le_trans ex mx ey my ez mz) as H;
    pose proof (lexCompare_ge_trans ex mx ey my ez mz) as H';
    destruct (lexCompare ex mx ey my), (lexCompare ey my ez mz),
      (lexCompare ex mx ez mz); try discriminate; try reflexivity;
      exfalso; solve [apply H; congruence | apply H'; congruence].
Qed.

Lemma lexCompare_lt_le_trans e1 m1 e2 m2 e3 m3 :
  lexCompare e1 m1 e2 m2 = Lt -> lexCompare e2 m2 e3 m3 <> Gt ->
  lexCompare e1 m1 e3 m3 = Lt.
Proof.
  unfold lexCompare.
  destruct (Z.compare_spec e1 e2), (Z.compare_spec e2 e3), (Z.compare_spec e1 e3);
    try lia; try congruence; subst.
  destruct (Pos.compare_spec m1 m2), (Pos.compare_spec m2 m3), (Pos.compare_spec m1 m3);
    try lia; congruence.
Qed.

Lemma lexCompare_gt_ge_trans e1 m1 e2 m2 e3 m3 :
  lexCompare e1 m1 e2 m2 = Gt -> lexCompare e2 m2 e3 m3 <> Lt ->
  lexCompare e1 m1 e3 m3 = Gt.
Proof.
  unfold lexCompare.
  destruct (Z.compare_spec e1 e2), (Z.compare_spec e2 e3), (Z.compare_spec e1 e3);
    try lia; try congruence; subst.
  destruct (Pos.compare_spec m1 m2), (Pos.compare_spec m2 m3), (Pos.compare_spec m1 m3);
    try lia; congruence.
Qed.

Lemma SFltb_leb_trans (x y z : spec_float) :
  SFltb x y = true -> SFleb y z = true -> SFltb x z = true.
Proof.
  unfold SFleb, SFltb.
  destruct x as [sx | sx | | sx mx ex], y as [sy | sy | | sy my ey],
    z as [sz | sz | | sz mz ez];
    rewrite ?SFcompare_finite;
    cbn [SFcompare]; try discriminate; try reflexivity;
    repeat match goal with s : bool |- _ => destruct s end;
    cbn; try discriminate; try reflexivity.
  all: intros H1 H2;
    pose proof (lexCompare_lt_le_trans ex mx ey my ez mz) as H;
    pose proof (lexCompare_gt_ge_trans ex mx ey my ez mz) as H';
    destruct (lexCompare ex mx ey my), (lexCompare ey my ez mz);
      try discriminate; cbn in *;
      solve [rewrite H; [reflexivity | reflexivity | discriminate]
            | rewrite H'; [reflexivity | reflexivity | discriminate]].
Qed.

Lemma SFleb_ltb_false (x y : spec_float) :
  SFleb x y = true -> SFltb y x = false.
Proof.
  unfold SFleb, SFltb.
  destruct x as [sx | sx | | sx mx ex], y as [sy | sy | | sy my ey];
    rewrite ?SFcompare_finite;
    cbn [SFcompare]; try discriminate; try reflexivity;
    repeat match goal with s : bool |- _ => destruct s end;
    cbn; try discriminate; try reflexivity.
  all: unfold lexCompare; rewrite (Z.compare_antisym ex ey), (Pos.compare_antisym mx my);
    destruct (Z.compare ex ey), (Pos.compare mx my); cbn; try discriminate; reflexivity.
Qed.

Lemma ltb_leb_trans (a b c : float) :
  PrimFloat.ltb a b = true -> PrimFloat.leb b c = true -> PrimFloat.ltb a c = true.
Proof. rewrite !ltb_spec, leb_spec. apply SFltb_leb_trans. Qed.

Lemma leb_ltb_false (a b : float) :
  PrimFloat.leb a b = true -> PrimFloat.ltb b a = false.
Proof. rewrite ltb_spec, leb_spec. apply SFleb_ltb_false. Qed.

Lemma leb_nan_l (a b : float) : is_nan a = true -> PrimFloat.leb a b = false.
Proof.
  intros H. rewrite leb_spec. unfold Prim2SF at 1. rewrite H. reflexivity.
Qed.

Lemma leb_nan_r (a b : float) : is_nan b = true -> PrimFloat.leb a b = false.
Proof.
  intros H. rewrite leb_spec. unfold Prim2SF at 2. rewrite H.
  unfold SFleb. destruct (Prim2SF a); reflexivity.
Qed.

Lemma leb_trans (a b c : float) :
  PrimFloat.leb a b = true -> PrimFloat.leb b c = true -> PrimFloat.leb a c = true.
Proof. rewrite !leb_spec. apply SFleb_trans. Qed.

End FloatFacts.

(* ================================================================== *)
(** * Further properties of the scorer                                *)
(* ================================================================== *)

Module ScanFacts.
Import JS Types Interceptor ScorerFacts.
Local Open Scope string_scope.

(** The patterns of a category. *)
Definition patternsOf (t : PatternType) : list RegExp :=
  match t with
  | phone => PATTERNS.phone
  | email => PATTERNS.email
  | url => PATTERNS.url
  | social => PATTERNS.social
  | obfuscation => PATTERNS.obfuscation
  end.

(** The number of distinct trimmed matches of a category in a text. *)
Definition hits (t : PatternType) (text : jsstring) : nat :=
  List.length (collect (patternsOf t) text).

Definition pipeline : list PatternType := [phone; email; url; social; obfuscation].

(** The record [scanPatterns] pushes for a category, if any. *)
Definition found (t : PatternType) (text : jsstring) : list PatternMatch :=
  if Nat.ltb 0 (hits t text)
  then [mkPatternMatch t (hits t text) (firstn 3 (collect (patternsOf t) text))]
  else [].

Lemma pushMatch_app (t : PatternType) (set : list jsstring) (ms : list PatternMatch) :
  pushMatch t set ms = (ms ++ pushMatch t set [])%list.
Proof. unfold pushMatch. destruct (Nat.ltb _ _); [reflexivity | now rewrite app_nil_r]. Qed.

Lemma scanPatterns_found (text : jsstring) :
  scanPatterns text = flat_map (fun t => found t text) pipeline.
Proof.
  unfold scanPatterns.
  rewrite (pushMatch_app obfuscation), (pushMatch_app social), (pushMatch_app url),
    (pushMatch_app email).
  cbn [flat_map pipeline]. rewrite app_nil_r, <- !app_assoc. reflexivity.
Qed.

End ScanFacts.

Module ScorerProperties.
Import JS Types Interceptor ScorerFacts ScanFacts FloatFacts.
Local Open Scope string_scope.

Lemma generateLabels_map (ms : list PatternMatch) :
  generateLabels ms = map (fun m => labelOf (type m)) ms.
Proof.
  unfold generateLabels.
  enough (forall acc, fold_left (fun labels match_ => (labels ++ [labelOf (type match_)])%list)
                        ms acc
                      = (acc ++ map (fun m => labelOf (type m)) ms)%list) as H by apply H.
  induction ms as [|m ms IH]; intros acc; cbn [fold_left map].
  - now rewrite app_nil_r.
  - rewrite IH, <- app_assoc. reflexivity.
Qed.

Lemma signature_types (ms1 ms2 : list PatternMatch) :
  signature ms1 = signature ms2 -> map type ms1 = map type ms2.
Proof.
  intros H. apply (f_equal (map fst)) in H. unfold signature in H.
  rewrite !map_map in H. exact H.
Qed.

Definition forall5 (Q : nat -> nat -> nat -> nat -> nat -> bool) : bool :=
  forallb (fun n1 => forallb (fun n2 => forallb (fun n3 =>
  forallb (fun n4 => forallb (fun n5 => Q n1 n2 n3 n4 n5)
  upTo3) upTo3) upTo3) upTo3) upTo3.

Lemma forall5_spec (Q : nat -> nat -> nat -> nat -> nat -> bool) :
  forall5 Q = true ->
  forall n1 n2 n3 n4 n5,
    n1 <= 3 -> n2 <= 3 -> n3 <= 3 -> n4 <= 3 -> n5 <= 3 -> Q n1 n2 n3 n4 n5 = true.
Proof.
  intros H n1 n2 n3 n4 n5 H1 H2 H3 H4 H5. unfold forall5 in H.
  pose proof (forallb_upTo3 _ _ H H1) as G1.
  pose proof (forallb_upTo3 _ _ G1 H2) as G2.
  pose proof (forallb_upTo3 _ _ G2 H3) as G3.
  pose proof (forallb_upTo3 _ _ G3 H4) as G4.
  exact (forallb_upTo3 _ _ G4 H5).
Qed.

(** A property of the scan that only looks at categories and capped counts
    holds of every text if it holds of the [4^5] count vectors. *)
Lemma scan_by_cases (P : list PatternMatch -> bool) :
  (forall ms1 ms2, signature ms1 = signature ms2 -> P ms1 = P ms2) ->
  forall5 (fun n1 n2 n3 n4 n5 => P (ofCounts n1 n2 n3 n4 n5)) = true ->
  forall text, P (scanPatterns text) = true.
Proof.
  intros Hsig H text. rewrite (Hsig _ _ (signature_scanPatterns text)).
  apply (forall5_spec _ H); apply cap_le.
Qed.

Definition hasType (t : PatternType) (ms : list PatternMatch) : bool :=
  existsb (fun m => PatternType_eqb (type m) t) ms.

Lemma hasType_types (t : PatternType) (ms : list PatternMatch) :
  hasType t ms = existsb (fun x => PatternType_eqb x t) (map type ms).
Proof. unfold hasType. induction ms as [|m ms IH]; cbn; congruence. Qed.

Lemma hasType_signature (t : PatternType) (ms1 ms2 : list PatternMatch) :
  signature ms1 = signature ms2 -> hasType t ms1 = hasType t ms2.
Proof. intros H. rewrite !hasType_types, (signature_types _ _ H). reflexivity. Qed.


(** X1. When a single category matches, the score is 0.85 times its
    weight, whatever the number of distinct matches. *)
Theorem single_category_score (m : PatternMatch) :
  calculateRiskScore [m] = (PATTERN_WEIGHTS (type m) * 0.85)%float.
Proof.
  rewrite (calculateRiskScore_signature [m]
             [mkPatternMatch (type m) (Nat.min (count m) 3) []]).
  2:{ cbn. do 2 f_equal. lia. }
  destruct (type m); destruct (count m) as [|[|[|[|n]]]]; vm_compute; reflexivity.
Qed.

(** The [4^5] count vectors, each with its score. *)
Definition vector : Type := (nat * nat * nat * nat * nat)%type.

Definition vectors : list vector :=
  flat_map (fun n1 => flat_map (fun n2 => flat_map (fun n3 => flat_map (fun n4 =>
    map (fun n5 => (n1, n2, n3, n4, n5)) upTo3) upTo3) upTo3) upTo3) upTo3.

Definition scoreOf (v : vector) : float :=
  let '(n1, n2, n3, n4, n5) := v in calculateRiskScore (ofCounts n1 n2 n3 n4 n5).

Definition table : list (vector * float) := map (fun v => (v, scoreOf v)) vectors.

Definition vectorLe (v w : vector) : bool :=
  let '(n1, n2, n3, n4, n5) := v in
  let '(m1, m2, m3, m4, m5) := w in
  Nat.leb n1 m1 && Nat.leb n2 m2 && Nat.leb n3 m3 && Nat.leb n4 m4 && Nat.leb n5 m5.

Definition monotoneAt (a b : vector * float) : bool :=
  implb (vectorLe (fst a) (fst b)) (PrimFloat.leb (snd a) (snd b)).

Lemma scoreMonotone_holds :
  forallb (fun a => forallb (fun b => monotoneAt a b) table) table = true.
Proof. vm_compute. reflexivity. Qed.

Lemma In_upTo3 (n : nat) : n <= 3 -> In n upTo3.
Proof. intros H. destruct n as [|[|[|[|n]]]]; cbn; auto; lia. Qed.

Lemma In_vectors (n1 n2 n3 n4 n5 : nat) :
  n1 <= 3 -> n2 <= 3 -> n3 <= 3 -> n4 <= 3 -> n5 <= 3 ->
  In (n1, n2, n3, n4, n5) vectors.
Proof.
  intros H1 H2 H3 H4 H5. unfold vectors.
  apply in_flat_map. exists n1. split; [now apply In_upTo3|].
  apply in_flat_map. exists n2. split; [now apply In_upTo3|].
  apply in_flat_map. exists n3. split; [now apply In_upTo3|].
  apply in_flat_map. exists n4. split; [now apply In_upTo3|].
  apply in_map. now apply In_upTo3.
Qed.

Lemma forallb2_In {A : Type} (R : A -> A -> bool) (l : list A) :
  forallb (fun a => forallb (fun b => R a b) l) l = true ->
  forall a b, In a l -> In b l -> R a b = true.
Proof.
  intros H a b Ha Hb. rewrite forallb_forall in H. specialize (H a Ha).
  rewrite forallb_forall in H. exact (H b Hb).
Qed.

Lemma In_table (n1 n2 n3 n4 n5 : nat) :
  n1 <= 3 -> n2 <= 3 -> n3 <= 3 -> n4 <= 3 -> n5 <= 3 ->
  In ((n1, n2, n3, n4, n5), calculateRiskScore (ofCounts n1 n2 n3 n4 n5)) table.
Proof.
  intros H1 H2 H3 H4 H5.
  exact (in_map (fun v => (v, scoreOf v)) _ _ (In_vectors n1 n2 n3 n4 n5 H1 H2 H3 H4 H5)).
Qed.

Lemma score_monotone_counts (n1 n2 n3 n4 n5 m1 m2 m3 m4 m5 : nat) :
  n1 <= m1 <= 3 -> n2 <= m2 <= 3 -> n3 <= m3 <= 3 -> n4 <= m4 <= 3 -> n5 <= m5 <= 3 ->
  PrimFloat.leb (calculateRiskScore (ofCounts n1 n2 n3 n4 n5))
                (calculateRiskScore (ofCounts m1 m2 m3 m4 m5)) = true.
Proof.
  intros H1 H2 H3 H4 H5.
  pose proof (forallb2_In monotoneAt table scoreMonotone_holds _ _
                (In_table n1 n2 n3 n4 n5 ltac:(lia) ltac:(lia) ltac:(lia) ltac:(lia)
                   ltac:(lia))
                (In_table m1 m2 m3 m4 m5 ltac:(lia) ltac:(lia) ltac:(lia) ltac:(lia)
                   ltac:(lia))) as H.
  unfold monotoneAt in H. cbn [fst snd vectorLe] in H.
  assert (Nat.leb n1 m1 && Nat.leb n2 m2 && Nat.leb n3 m3 && Nat.leb n4 m4 && Nat.leb n5 m5
          = true) as Hle.
  { rewrite !andb_true_iff, !Nat.leb_le. lia. }
  rewrite Hle in H. exact H.
Qed.

(** X2. More detections never lower the score: if every category has at
    least as many distinct matches in one text as in another, its score is
    at least the other's. *)
Theorem more_detections_never_lower_the_score (t1 t2 : jsstring) :
  (forall c, hits c t1 <= hits c t2) ->
  PrimFloat.leb (calculateRiskScore (scanPatterns t1))
                (calculateRiskScore (scanPatterns t2)) = true.
Proof.
  intros H.
  rewrite (calculateRiskScore_signature _ _ (signature_scanPatterns t1)),
    (calculateRiskScore_signature _ _ (signature_scanPatterns t2)).
  pose proof (H phone) as H1. pose proof (H email) as H2. pose proof (H url) as H3.
  pose proof (H social) as H4. pose proof (H obfuscation) as H5.
  unfold hits, patternsOf in *.
  apply score_monotone_counts; unfold cap; lia.
Qed.

Lemma more_detections_never_lower_the_score_witness :
  PrimFloat.leb
    (calculateRiskScore (scanPatterns (lit "Call me at (555) 123-4567")))
    (calculateRiskScore
       (scanPatterns (lit "Call me at (555) 123-4567 or write to john@example.com")))
  = true.
Proof.
  apply more_detections_never_lower_the_score.
  intros c; destruct c; vm_compute; lia.
Defined.


(** ** The result of a scored message *)

(** What [interceptMessage] returns once the content has passed both
    gates, as a function of the scan. *)
Definition verdict (cfg : InterceptorConfig) (matches : list PatternMatch)
  : InterceptResult :=
  let riskScore := calculateRiskScore matches in
  let labels := generateLabels matches in
  if float_geb riskScore (sync_threshold cfg) then
    {| allowed := false; action := "hard_block"; risk_score := riskScore;
       labels := labels; nudge_message := None;
       block_reason := Some (generateBlockReason matches) |}
  else if float_geb riskScore 0.4 then
    {| allowed := true; action := "nudge"; risk_score := riskScore;
       labels := labels; nudge_message := generateNudgeMessage riskScore matches;
       block_reason := None |}
  else
    {| allowed := true; action := "allow"; risk_score := riskScore;
       labels := labels; nudge_message := None; block_reason := None |}.

Lemma nonempty_or_nil {A : Type} (l : list A) :
  (if Nat.ltb 0 (List.length l) then l else []) = l.
Proof. destruct l; reflexivity. Qed.

(** The three ways a message is answered. *)
Lemma interceptMessage_paths (cfg : InterceptorConfig) (message : ChatMessage) :
  (validContent (content message) = None
   /\ interceptMessage cfg message
      = {| allowed := true; action := "allow"; risk_score := 0.0; labels := [];
           nudge_message := None; block_reason := None |})
  \/ (exists text,
        validContent (content message) = Some text
        /\ num_gtb (Int (Z.of_nat (List.length text))) (max_message_length cfg) = true
        /\ interceptMessage cfg message
           = {| allowed := false; action := "hard_block"; risk_score := 1.0;
                labels := ["message_too_long"]; nudge_message := None;
                block_reason :=
                  Some ("Message exceeds maximum length of "
                        ++ num_toString (max_message_length cfg) ++ " characters") |})
  \/ (exists text,
        validContent (content message) = Some text
        /\ num_gtb (Int (Z.of_nat (List.length text))) (max_message_length cfg) = false
        /\ interceptMessage cfg message = verdict cfg (scanPatterns text)).
Proof.
  unfold interceptMessage, verdict.
  destruct (validContent (content message)) as [text|]; [|left; auto].
  right. destruct (num_gtb _ _) eqn:Hlen; [left | right]; exists text;
    (split; [reflexivity|]); (split; [exact Hlen|]); [reflexivity|].
  destruct (float_geb _ (sync_threshold cfg)); [reflexivity|].
  destruct (float_geb _ 0.4); [reflexivity|].
  now rewrite nonempty_or_nil.
Qed.


Definition isNil {A : Type} (l : list A) : bool :=
  match l with [] => true | _ => false end.

Lemma isNil_signature (ms1 ms2 : list PatternMatch) :
  signature ms1 = signature ms2 -> isNil ms1 = isNil ms2.
Proof.
  intros H. apply signature_length in H. destruct ms1, ms2; cbn in *; congruence.
Qed.

Lemma zero_score_iff_no_match (text : jsstring) :
  PrimFloat.eqb (calculateRiskScore (scanPatterns text)) 0 = isNil (scanPatterns text).
Proof.
  apply eqb_prop.
  apply (scan_by_cases
           (fun ms => Bool.eqb (PrimFloat.eqb (calculateRiskScore ms) 0) (isNil ms))).
  - intros ms1 ms2 H.
    now rewrite (calculateRiskScore_signature _ _ H), (isNil_signature _ _ H).
  - vm_compute. reflexivity.
Qed.

(** X3. A result has no label exactly when its risk score is zero. *)
Theorem no_label_iff_zero_score (cfg : InterceptorConfig) (message : ChatMessage) :
  labels (interceptMessage cfg message) = []
  <-> PrimFloat.eqb (risk_score (interceptMessage cfg message)) 0 = true.
Proof.
  destruct (interceptMessage_paths cfg message)
    as [[_ ->] | [(text & _ & _ & ->) | (text & _ & _ & ->)]].
  - split; reflexivity.
  - split; discriminate.
  - assert (labels (verdict cfg (scanPatterns text)) = generateLabels (scanPatterns text)
            /\ risk_score (verdict cfg (scanPatterns text))
               = calculateRiskScore (scanPatterns text)) as [-> ->].
    { unfold verdict. destruct (float_geb _ (sync_threshold cfg)); [auto|].
      destruct (float_geb _ 0.4); auto. }
    rewrite zero_score_iff_no_match, generateLabels_map.
    destruct (scanPatterns text); cbn; split; auto; discriminate.
Qed.


Lemma labelled_hasType (t : PatternType) (ms : list PatternMatch) :
  In (labelOf t) (generateLabels ms) -> hasType t ms = true.
Proof.
  rewrite generateLabels_map, in_map_iff. intros (m & Hm & Hin).
  unfold hasType. apply existsb_exists. exists m. split; [exact Hin|].
  destruct (type m), t; try reflexivity; discriminate.
Qed.

Lemma verdict_fields (cfg : InterceptorConfig) (ms : list PatternMatch) :
  labels (verdict cfg ms) = generateLabels ms
  /\ risk_score (verdict cfg ms) = calculateRiskScore ms.
Proof.
  unfold verdict. destruct (float_geb _ (sync_threshold cfg)); [auto|].
  destruct (float_geb _ 0.4); auto.
Qed.

Lemma verdict_blocked (cfg : InterceptorConfig) (ms : list PatternMatch) :
  PrimFloat.leb (sync_threshold cfg) (calculateRiskScore ms) = true ->
  verdict cfg ms
  = {| allowed := false; action := "hard_block"; risk_score := calculateRiskScore ms;
       labels := generateLabels ms; nudge_message := None;
       block_reason := Some (generateBlockReason ms) |}.
Proof. intros H. unfold verdict, float_geb. now rewrite H. Qed.

Lemma contact_score (text : jsstring) :
  hasType phone (scanPatterns text) || hasType email (scanPatterns text) = true ->
  PrimFloat.leb (0.80 * 0.85) (calculateRiskScore (scanPatterns text)) = true.
Proof.
  intros H.
  pose proof (scan_by_cases
                (fun ms => implb (hasType phone ms || hasType email ms)
                             (PrimFloat.leb (0.80 * 0.85) (calculateRiskScore ms)))) as G.
  cbv beta in G. specialize (G ltac:(intros ms1 ms2 E;
    now rewrite (calculateRiskScore_signature _ _ E), (hasType_signature phone _ _ E),
      (hasType_signature email _ _ E)) ltac:(vm_compute; reflexivity) text).
  rewrite H in G. exact G.
Qed.

(** X4. A result labelled with a phone number or an e-mail address has a
    score of at least [0.80 * 0.85], and is a hard block under every
    configuration whose threshold is at most that (the default 0.65 is). *)
Theorem contact_details_are_blocked (cfg : InterceptorConfig) (message : ChatMessage) :
  In "contact_info_phone" (labels (interceptMessage cfg message))
  \/ In "contact_info_email" (labels (interceptMessage cfg message)) ->
  PrimFloat.leb (0.80 * 0.85) (risk_score (interceptMessage cfg message)) = true
  /\ (PrimFloat.leb (sync_threshold cfg) (0.80 * 0.85) = true ->
      allowed (interceptMessage cfg message) = false
      /\ action (interceptMessage cfg message) = "hard_block").
Proof.
  destruct (interceptMessage_paths cfg message)
    as [[_ ->] | [(text & _ & _ & ->) | (text & _ & _ & Hr)]].
  - cbn. tauto.
  - cbn. intros [[H|[]] | [H|[]]]; discriminate.
  - rewrite Hr. destruct (verdict_fields cfg (scanPatterns text)) as [Hl Hs].
    rewrite Hl, Hs. intros H.
    assert (PrimFloat.leb (0.80 * 0.85) (calculateRiskScore (scanPatterns text)) = true)
      as Hscore.
    { apply contact_score. apply orb_true_iff.
      destruct H as [H | H]; [left | right]; now apply labelled_hasType. }
    split; [exact Hscore|]. intros Hthr.
    rewrite (verdict_blocked cfg _ (leb_trans _ _ _ Hthr Hscore)). split; reflexivity.
Qed.

Lemma contact_details_are_blocked_witness :
  PrimFloat.leb (0.80 * 0.85)
    (risk_score (interceptMessage Scenarios.defaultConfig
                   (Scenarios.chat "Email me at john.doe@example.com"))) = true
  /\ allowed (interceptMessage Scenarios.defaultConfig
                (Scenarios.chat "Email me at john.doe@example.com")) = false
  /\ action (interceptMessage Scenarios.defaultConfig
               (Scenarios.chat "Email me at john.doe@example.com")) = "hard_block".
Proof.
  destruct (contact_details_are_blocked Scenarios.defaultConfig
              (Scenarios.chat "Email me at john.doe@example.com")) as [H1 H2].
  - right. vm_compute. left. reflexivity.
  - split; [exact H1 | apply H2; reflexivity].
Defined.

(** [SYNC_THRESHOLD=0] *)
Definition zeroEnv : Config.Env := [("SYNC_THRESHOLD", lit "0")].

Definition zeroConfig : InterceptorConfig :=
  {| sync_threshold := 0;
     redis_host := lit "localhost";
     redis_port := Int 6379;
     detection_host := lit "localhost";
     detection_port := Int 8000;
     circuit_breaker_threshold := Int 5;
     circuit_breaker_reset_ms := Int 30000;
     max_message_length := Int 10000 |}.

(** X5. With a threshold of zero (or below) every message with content is
    a hard block, a clean one included: [riskScore >= 0] always holds. *)
Theorem zero_threshold_blocks_every_message (cfg : InterceptorConfig)
  (message : ChatMessage) (text : jsstring) :
  PrimFloat.leb (sync_threshold cfg) 0 = true ->
  validContent (content message) = Some text ->
  allowed (interceptMessage cfg message) = false
  /\ action (interceptMessage cfg message) = "hard_block".
Proof.
  intros Hthr Hc.
  destruct (interceptMessage_paths cfg message)
    as [[Hn _] | [(text' & _ & _ & ->) | (text' & _ & _ & ->)]].
  - congruence.
  - split; reflexivity.
  - pose proof (score_inUnit text') as Hu. unfold inUnit in Hu.
    apply andb_true_iff in Hu. destruct Hu as [H0 _].
    rewrite (verdict_blocked cfg _ (leb_trans _ _ _ Hthr H0)). split; reflexivity.
Qed.

Lemma zero_threshold_blocks_every_message_witness :
  Config.loadConfig zeroEnv = inr zeroConfig
  /\ allowed (interceptMessage zeroConfig
                (Scenarios.chat "Hey, how are you doing today? The weather is nice!"))
     = false
  /\ action (interceptMessage zeroConfig
               (Scenarios.chat "Hey, how are you doing today? The weather is nice!"))
     = "hard_block".
Proof.
  split; [vm_compute; reflexivity|].
  apply (zero_threshold_blocks_every_message zeroConfig _
           (lit "Hey, how are you doing today? The weather is nice!"));
    reflexivity.
Defined.

(** X6. With a threshold that is NaN no message within the length limit is
    blocked, whatever it contains: [riskScore >= NaN] never holds. *)
Theorem nan_threshold_never_blocks (cfg : InterceptorConfig) (message : ChatMessage)
  (text : jsstring) (limit : Z) :
  is_nan (sync_threshold cfg) = true ->
  content message = VString text ->
  max_message_length cfg = Int limit ->
  (Z.of_nat (List.length text) <= limit)%Z ->
  allowed (interceptMessage cfg message) = true.
Proof.
  intros Hnan Hc Hmax Hlen.
  destruct (interceptMessage_paths cfg message)
    as [[_ ->] | [(text' & Hv & Hgate & _) | (text' & _ & _ & ->)]].
  - reflexivity.
  - exfalso. rewrite Hc in Hv.
    assert (text' = text) as ->.
    { unfold validContent in Hv. destruct (negb _); [discriminate | congruence]. }
    rewrite Hmax in Hgate. unfold num_gtb, num_ltb in Hgate.
    apply Z.ltb_lt in Hgate. lia.
  - unfold verdict, float_geb. rewrite (leb_nan_l _ _ Hnan).
    destruct (PrimFloat.leb 0.4 _); reflexivity.
Qed.

Lemma nan_threshold_never_blocks_witness :
  Config.loadConfig Scenarios.garbledEnv
  = inr {| sync_threshold := nan;
           redis_host := lit "localhost";
           redis_port := Int 6379;
           detection_host := lit "localhost";
           detection_port := Int 8000;
           circuit_breaker_threshold := Int 5;
           circuit_breaker_reset_ms := Int 30000;
           max_message_length := Int 10000 |}
  /\ allowed (interceptMessage
                {| sync_threshold := nan;
                   redis_host := lit "localhost";
                   redis_port := Int 6379;
                   detection_host := lit "localhost";
                   detection_port := Int 8000;
                   circuit_breaker_threshold := Int 5;
                   circuit_breaker_reset_ms := Int 30000;
                   max_message_length := Int 10000 |}
                (Scenarios.chat "Call me at (555) 123-4567 for more details"))
     = true.
Proof.
  split; [vm_compute; reflexivity|].
  apply (nan_threshold_never_blocks _ _
           (lit "Call me at (555) 123-4567 for more details") 10000%Z);
    [reflexivity | reflexivity | reflexivity | vm_compute; discriminate].
Defined.


Definition contactNudge : string :=
  "Sharing personal contact information may violate platform policies and put you at risk. Please keep conversations on the platform.".

Definition genericBlockReason : string :=
  "Message blocked due to potential policy violation".

(** Whether an optional text is present and reads as given. *)
Definition reads (o : option string) (s : string) : bool :=
  match o with
  | Some x => String.eqb x s
  | None => false
  end.

Lemma reads_false (o : option string) (s : string) : o <> Some s -> reads o s = false.
Proof.
  intros H. destruct o as [x|]; [|reflexivity]. cbn.
  destruct (String.eqb_spec x s); [subst; now elim H | reflexivity].
Qed.

(** X7. The nudge about personal contact information is never sent under a
    threshold of at most [0.80 * 0.85] (the default 0.65 is): a message with
    a phone number or an e-mail address is blocked, not nudged. *)
Theorem contact_nudge_is_unreachable (cfg : InterceptorConfig) (message : ChatMessage) :
  PrimFloat.leb (sync_threshold cfg) (0.80 * 0.85) = true ->
  reads (nudge_message (interceptMessage cfg message)) contactNudge = false.
Proof.
  intros Hthr. apply reads_false. unfold contactNudge.
  destruct (interceptMessage_paths cfg message)
    as [[_ ->] | [(text & _ & _ & ->) | (text & _ & _ & ->)]];
    [discriminate | discriminate |].
  unfold verdict. destruct (float_geb _ (sync_threshold cfg)) eqn:Hblock; [discriminate|].
  destruct (float_geb _ 0.4); [|discriminate].
  cbn [nudge_message]. unfold generateNudgeMessage.
  destruct (_ || float_geb _ 0.65); [discriminate|].
  fold (hasType phone (scanPatterns text)). fold (hasType email (scanPatterns text)).
  destruct (hasType phone (scanPatterns text) || hasType email (scanPatterns text)) eqn:Hc.
  - exfalso. unfold float_geb in Hblock.
    rewrite (leb_trans _ _ _ Hthr (contact_score text Hc)) in Hblock. discriminate.
  - destruct (existsb _ _); discriminate.
Qed.

Lemma contact_nudge_is_unreachable_witness :
  reads (nudge_message (interceptMessage Scenarios.defaultConfig
                          (Scenarios.chat "Add me on WhatsApp, it  is easier")))
    contactNudge = false.
Proof.
  apply contact_nudge_is_unreachable. reflexivity.
Defined.

Lemma includes_hasType (t : PatternType) (ms : list PatternMatch) :
  includes (map type ms) t = hasType t ms.
Proof.
  unfold includes, hasType. induction ms as [|m ms IH]; [reflexivity|].
  cbn. rewrite IH. f_equal. destruct (type m), t; reflexivity.
Qed.

Lemma detection_above_obfuscation (text : jsstring) :
  PrimFloat.ltb (0.15 * 0.85) (calculateRiskScore (scanPatterns text)) = true ->
  hasType phone (scanPatterns text) || hasType email (scanPatterns text)
  || hasType url (scanPatterns text) || hasType social (scanPatterns text) = true.
Proof.
  intros H.
  pose proof (scan_by_cases
                (fun ms => implb (PrimFloat.ltb (0.15 * 0.85) (calculateRiskScore ms))
                             (hasType phone ms || hasType email ms || hasType url ms
                              || hasType social ms))) as G.
  cbv beta in G. specialize (G ltac:(intros ms1 ms2 E;
    now rewrite (calculateRiskScore_signature _ _ E), (hasType_signature phone _ _ E),
      (hasType_signature email _ _ E), (hasType_signature url _ _ E),
      (hasType_signature social _ _ E)) ltac:(vm_compute; reflexivity) text).
  rewrite H in G. exact G.
Qed.

(** X8. Under a threshold above [0.15 * 0.85] (the default 0.65 is) the
    generic block reason is never given: a blocked message is over-length
    or its reason names at least one detected category. *)
Theorem block_reason_names_a_detection (cfg : InterceptorConfig) (message : ChatMessage) :
  PrimFloat.ltb (0.15 * 0.85) (sync_threshold cfg) = true ->
  reads (block_reason (interceptMessage cfg message)) genericBlockReason = false.
Proof.
  intros Hthr. apply reads_false. unfold genericBlockReason.
  destruct (interceptMessage_paths cfg message)
    as [[_ ->] | [(text & _ & _ & ->) | (text & _ & _ & ->)]];
    [discriminate | cbn; intros H; injection H as H; discriminate |].
  unfold verdict. destruct (float_geb _ (sync_threshold cfg)) eqn:Hblock.
  2:{ destruct (float_geb _ 0.4); discriminate. }
  cbn [block_reason]. unfold float_geb in Hblock.
  pose proof (detection_above_obfuscation text (ltb_leb_trans _ _ _ Hthr Hblock)) as Hd.
  unfold generateBlockReason. rewrite !includes_hasType.
  destruct (hasType phone _), (hasType email _), (hasType url _), (hasType social _);
    try discriminate Hd; cbn; intros H; injection H as H; discriminate.
Qed.

Lemma block_reason_names_a_detection_witness :
  reads (block_reason (interceptMessage Scenarios.defaultConfig
                         (Scenarios.chat "Visit www.example.com or DM me on telegram")))
    genericBlockReason = false.
Proof.
  apply block_reason_names_a_detection. reflexivity.
Defined.

(** X9. Raising the threshold never blocks a message that was allowed:
    under two configurations with the same length limit, a message allowed
    under the lower threshold is allowed under the higher one. *)
Theorem higher_threshold_allows_more (cfg1 cfg2 : InterceptorConfig)
  (message : ChatMessage) :
  max_message_length cfg1 = max_message_length cfg2 ->
  PrimFloat.leb (sync_threshold cfg1) (sync_threshold cfg2) = true ->
  allowed (interceptMessage cfg1 message) = true ->
  allowed (interceptMessage cfg2 message) = true.
Proof.
  intros Hmax Hthr.
  destruct (interceptMessage_paths cfg1 message)
    as [[H1 ->] | [(text & H1 & G1 & ->) | (text & H1 & G1 & ->)]];
    destruct (interceptMessage_paths cfg2 message)
      as [[H2 ->] | [(text' & H2 & G2 & ->) | (text' & H2 & G2 & ->)]];
    try discriminate; try reflexivity; try congruence;
    rewrite H1 in H2; injection H2 as <-; try congruence.
  unfold verdict. destruct (float_geb _ (sync_threshold cfg2)) eqn:Hb2.
  - unfold float_geb in *. rewrite (leb_trans _ _ _ Hthr Hb2). discriminate.
  - intros _. destruct (float_geb _ 0.4); reflexivity.
Qed.

Lemma higher_threshold_allows_more_witness :
  allowed (interceptMessage Scenarios.strictConfig
             (Scenarios.chat "Check out my profile at https://example.com/profile"))
  = true.
Proof.
  apply (higher_threshold_allows_more Scenarios.defaultConfig Scenarios.strictConfig);
    [reflexivity | reflexivity | vm_compute; reflexivity].
Defined.

End ScorerProperties.

(* ================================================================== *)
(** * Detection guarantees                                            *)
(* ================================================================== *)

Module MatchFacts.
Import JS RegexFacts.

(** The code unit before the position reached by reading [pre] from a
    position whose previous unit is [prev]. *)
Fixpoint lastOr (prev : option code_unit) (pre : jsstring) : option code_unit :=
  match pre with
  | [] => prev
  | c :: pre' => lastOr (Some c) pre'
  end.

(** [Matches ic r x y]: the pattern [r] can match the text between the
    positions [x] and [y] (one of the ways the backtracking matcher may
    take). *)
Inductive Matches (ic : bool) : regex -> pos -> pos -> Prop :=
| M_Eps x : Matches ic Eps x x
| M_Chr a prev c rest :
    chr_match ic a c = true -> Matches ic (Chr a) (prev, c :: rest) (Some c, rest)
| M_Class neg items prev c rest :
    Bool.eqb (class_mem ic items c) (negb neg) = true ->
    Matches ic (Class neg items) (prev, c :: rest) (Some c, rest)
| M_Dot prev c rest :
    isLineTerminator c = false -> Matches ic Dot (prev, c :: rest) (Some c, rest)
| M_WordBoundary x : atWordBoundary x = true -> Matches ic WordBoundary x x
| M_Seq r1 r2 x y z :
    Matches ic r1 x y -> Matches ic r2 y z -> Matches ic (Seq r1 r2) x z
| M_AltL r1 r2 x y : Matches ic r1 x y -> Matches ic (Alt r1 r2) x y
| M_AltR r1 r2 x y : Matches ic r2 x y -> Matches ic (Alt r1 r2) x y
| M_RepDone hi r x : Matches ic (Rep 0 hi r) x x
| M_RepStep lo hi r x y z :
    hiZero hi = false ->
    Matches ic r x y ->
    lo <> 0 \/ remaining y < remaining x ->
    Matches ic (Rep (Nat.pred lo) (hiPred hi) r) y z ->
    Matches ic (Rep lo hi r) x z.

(** Whenever a pattern can match up to a position that the continuation
    accepts, the backtracking matcher succeeds. *)
Lemma matcher_complete (ic : bool) (r : regex) (x y : pos) :
  Matches ic r x y ->
  remaining y <= remaining x
  /\ forall k, k y <> None -> matcher ic r x k <> None.
Proof.
  induction 1 as [x | a prev c rest Hc | neg items prev c rest Hc | prev c rest Hc
                  | x Hb | r1 r2 x y z _ [L1 IH1] _ [L2 IH2] | r1 r2 x y _ [L IH]
                  | r1 r2 x y _ [L IH] | hi r x
                  | lo hi r x y z Hhi _ [L1 IH1] Hgo _ [L2 IH2]].
  - split; [lia | auto].
  - split; [unfold remaining; cbn; lia|]. intros k Hk. cbn [matcher snd]. now rewrite Hc.
  - split; [unfold remaining; cbn; lia|]. intros k Hk. cbn [matcher snd]. now rewrite Hc.
  - split; [unfold remaining; cbn; lia|]. intros k Hk. cbn [matcher snd]. now rewrite Hc.
  - split; [lia|]. intros k Hk. cbn [matcher]. now rewrite Hb.
  - split; [lia|]. intros k Hk. cbn [matcher]. apply IH1. now apply IH2.
  - split; [lia|]. intros k Hk. cbn [matcher].
    specialize (IH k Hk). destruct (matcher ic r1 x k); [discriminate | contradiction].
  - split; [lia|]. intros k Hk. cbn [matcher].
    destruct (matcher ic r1 x k); [discriminate | now apply IH].
  - split; [lia|]. intros k Hk. cbn [matcher]. rewrite Nat.add_1_r. cbn [repeatMatcher].
    destruct (hiZero hi); [exact Hk|].
    match goal with |- match ?m with _ => _ end <> None => destruct m end;
      [discriminate | exact Hk].
  - split; [lia|]. intros k Hk. cbn [matcher]. rewrite Nat.add_1_r. cbn [repeatMatcher].
    rewrite Hhi.
    specialize (IH2 k Hk). cbn [matcher] in IH2.
    assert (repeatMatcher (matcher ic r) (lo + remaining x) (Nat.pred lo) (hiPred hi) y k
            <> None) as Hrest.
    { replace (lo + remaining x)
        with (Nat.pred lo + remaining y + 1
              + (lo + remaining x - (Nat.pred lo + remaining y + 1))) by lia.
      rewrite repeatMatcher_enough_fuel by apply matcher_local. exact IH2. }
    match goal with
    | |- match lo with O => match matcher ic r x ?d with _ => _ end | S _ => _ end <> None =>
        assert (matcher ic r x d <> None) as Hd
    end.
    { apply IH1.
      assert (Nat.eqb lo 0 && Nat.eqb (remaining y) (remaining x) = false) as ->.
      { apply andb_false_iff. destruct Hgo as [Hlo | Hlt].
        - left. now apply Nat.eqb_neq.
        - right. apply Nat.eqb_neq. lia. }
      exact Hrest. }
    destruct lo; [|exact Hd].
    match goal with |- match ?m with _ => _ end <> None => destruct m end;
      [discriminate | contradiction].
Qed.


(** A pattern that can match somewhere in a text is found by the search
    (at that place or further left). *)
Lemma search_finds (re : RegExp) (pre : jsstring) :
  forall prev s y,
    Matches (ignoreCase re) (source re) (lastOr prev pre, s) y ->
    search re prev (pre ++ s) <> None.
Proof.
  induction pre as [|c pre IH]; intros prev s y H.
  - cbn [lastOr app] in *.
    destruct (matcher_complete _ _ _ _ H) as [_ Hk].
    specialize (Hk Some ltac:(discriminate)).
    destruct s; cbn [search]; destruct (matcher _ _ _ _); try discriminate; contradiction.
  - cbn [lastOr app] in *. cbn [search].
    destruct (matcher _ _ _ _); [discriminate|]. exact (IH _ _ _ H).
Qed.

Lemma String_match_finds (re : RegExp) (pre s : jsstring) (y : pos) :
  Matches (ignoreCase re) (source re) (lastOr None pre, s) y ->
  exists m ms, String_match (pre ++ s) re = Some (m :: ms).
Proof.
  intros H. pose proof (search_finds re pre None s y H) as Hs.
  unfold String_match. cbn [matchLoop].
  destruct (search re None (pre ++ s)) as [[m [prev' s']]|]; [|contradiction].
  eexists. eexists. reflexivity.
Qed.


(** ** Building matches *)

Lemma Matches_seqs (ic : bool) (r : regex) (rs : list regex) (x y z : pos) :
  Matches ic r x y -> Matches ic (seqs rs) y z -> Matches ic (seqs (r :: rs)) x z.
Proof.
  intros H1 H2. destruct rs as [|r' rs].
  - cbn in *. inversion H2; subst. exact H1.
  - change (seqs (r :: r' :: rs)) with (Seq r (seqs (r' :: rs))).
    exact (M_Seq ic _ _ _ _ _ H1 H2).
Qed.

Lemma Matches_alts (ic : bool) (r : regex) (rs : list regex) (x y : pos) :
  In r rs -> Matches ic r x y -> Matches ic (alts rs) x y.
Proof.
  intros Hin H. induction rs as [|r' rs IH]; [contradiction|].
  destruct rs as [|r'' rs].
  - destruct Hin as [<- | []]. exact H.
  - change (alts (r' :: r'' :: rs)) with (Alt r' (alts (r'' :: rs))).
    destruct Hin as [<- | Hin]; [now apply M_AltL | apply M_AltR; now apply IH].
Qed.

Lemma Matches_opt_skip (ic : bool) (r : regex) (x : pos) : Matches ic (opt r) x x.
Proof. apply M_RepDone. Qed.

Lemma Matches_opt_take (ic : bool) (r : regex) (x y : pos) :
  Matches ic r x y -> remaining y < remaining x -> Matches ic (opt r) x y.
Proof.
  intros H Hlt. unfold opt.
  apply (M_RepStep ic 0 (Some 1) r x y y eq_refl H (or_intror Hlt)). apply M_RepDone.
Qed.

(** A run of code units of a class, under a quantifier whose bounds the
    length of the run respects. *)
Definition withinBound (n : nat) (hi : option nat) : Prop :=
  match hi with Some h => n <= h | None => True end.

Lemma Matches_run (ic neg : bool) (items : list class_item) (cs : jsstring) :
  forall lo hi prev rest,
    Forall (fun c => Bool.eqb (class_mem ic items c) (negb neg) = true) cs ->
    lo <= List.length cs ->
    withinBound (List.length cs) hi ->
    Matches ic (Rep lo hi (Class neg items)) (prev, (cs ++ rest)%list)
      (lastOr prev cs, rest).
Proof.
  induction cs as [|c cs IH]; intros lo hi prev rest Hall Hlo Hhi.
  - cbn in *. replace lo with 0 by lia. apply M_RepDone.
  - inversion Hall as [|? ? Hc Hcs]; subst. cbn [app lastOr].
    apply (M_RepStep ic lo hi _ _ (Some c, (cs ++ rest)%list)).
    + destruct hi as [[|h]|]; cbn in *; [lia | reflexivity | reflexivity].
    + now apply M_Class.
    + right. unfold remaining. cbn. lia.
    + apply IH; [exact Hcs | cbn in Hlo; lia|].
      destruct hi as [h|]; cbn in *; [lia | exact I].
Qed.

(** A literal word, read up to the case folding of the pattern. *)
Fixpoint spelled (ic : bool) (w : list ascii) (s : jsstring) : bool :=
  match w, s with
  | [], [] => true
  | a :: w', c :: s' => chr_match ic a c && spelled ic w' s'
  | _, _ => false
  end.

Definition spells (ic : bool) (w : string) (s : jsstring) : bool :=
  spelled ic (list_ascii_of_string w) s.

Lemma Matches_word (ic : bool) (w : string) (s : jsstring) :
  spells ic w s = true ->
  forall prev rest, Matches ic (word w) (prev, (s ++ rest)%list) (lastOr prev s, rest).
Proof.
  unfold spells, word. generalize (list_ascii_of_string w). intros l. revert s.
  induction l as [|a l IH]; intros [|c s] H prev rest; try discriminate.
  - apply M_Eps.
  - cbn [spelled] in H. apply andb_true_iff in H. destruct H as [Hc Hs].
    cbn [map app lastOr]. eapply Matches_seqs; [now apply M_Chr | now apply IH].
Qed.

Lemma lastOr_app (prev : option code_unit) (a b : jsstring) :
  lastOr prev (a ++ b) = lastOr (lastOr prev a) b.
Proof. revert prev. induction a as [|c a IH]; intros prev; cbn; auto. Qed.

(** At most one code unit, of a given kind. *)
Definition atMostOne (p : code_unit -> bool) (s : jsstring) : bool :=
  match s with
  | [] => true
  | [c] => p c
  | _ => false
  end.

Lemma Matches_opt_unit (ic : bool) (r : regex) (p : code_unit -> bool) (s : jsstring) :
  (forall c prev rest, p c = true -> Matches ic r (prev, c :: rest) (Some c, rest)) ->
  atMostOne p s = true ->
  forall prev rest, Matches ic (opt r) (prev, (s ++ rest)%list) (lastOr prev s, rest).
Proof.
  intros Hr Hs prev rest. destruct s as [|c [|c' s]]; cbn in Hs; [| |discriminate].
  - apply Matches_opt_skip.
  - cbn [app lastOr]. apply Matches_opt_take; [now apply Hr|].
    unfold remaining. cbn. lia.
Qed.

End MatchFacts.

Module DetectionFacts.
Import JS Types Interceptor ScorerFacts ScanFacts ScorerProperties FloatFacts MatchFacts.
Local Open Scope string_scope.

Lemma Set_add_nonempty (s : list jsstring) (x : jsstring) : Set_add s x <> [].
Proof.
  unfold Set_add. destruct (in_dec _ _ _) as [Hin|]; [now destruct s|].
  now destruct s.
Qed.

Lemma fold_Set_add_nonempty (found : list jsstring) :
  forall set, found <> [] \/ set <> [] ->
  fold_left (fun set m => Set_add set (trim m)) found set <> [].
Proof.
  induction found as [|m found IH]; intros set H; cbn [fold_left].
  - destruct H as [H | H]; [now elim H | exact H].
  - apply IH. right. apply Set_add_nonempty.
Qed.

(** One block of [scanPatterns]: the set is not empty as soon as one of
    the patterns of the category matches somewhere. *)
Lemma collect_nonempty (regexes : list RegExp) (content : jsstring) (re : RegExp) :
  In re regexes -> String_match content re <> None -> collect regexes content <> [].
Proof.
  unfold collect.
  enough (forall set,
             (set <> [] \/ exists re, In re regexes /\ String_match content re <> None) ->
             fold_left
               (fun set regex =>
                  match String_match content regex with
                  | Some found => fold_left (fun set m => Set_add set (trim m)) found set
                  | None => set
                  end) regexes set <> []) as H.
  { intros Hin Hm. apply H. right. eauto. }
  induction regexes as [|r regexes IH]; intros set H; cbn [fold_left].
  - destruct H as [H | (r & [] & _)]. exact H.
  - apply IH. destruct H as [H | (r' & [<- | Hin] & Hm)].
    + left. destruct (String_match content r) as [found|]; [|exact H].
      apply fold_Set_add_nonempty. now right.
    + left. destruct (String_match content r) as [found|] eqn:Hr; [|contradiction].
      apply fold_Set_add_nonempty. left.
      unfold String_match in Hr. destruct (matchLoop _ _ _ _); [discriminate|].
      injection Hr as <-. discriminate.
    + right. eauto.
Qed.

(** A category is detected as soon as one of its patterns can match
    somewhere in the text. *)
Lemma detected (t : PatternType) (re : RegExp) (pre s : jsstring) (y : pos) :
  In re (patternsOf t) ->
  Matches (ignoreCase re) (source re) (lastOr None pre, s) y ->
  hasType t (scanPatterns (pre ++ s)%list) = true
  /\ In (labelOf t) (generateLabels (scanPatterns (pre ++ s)%list)).
Proof.
  intros Hin Hm.
  destruct (String_match_finds re pre s y Hm) as (m & ms & Hs).
  assert (collect (patternsOf t) (pre ++ s)%list <> []) as Hc.
  { apply (collect_nonempty _ _ re Hin). rewrite Hs. discriminate. }
  assert (Nat.ltb 0 (hits t (pre ++ s)%list) = true) as Hpos.
  { apply Nat.ltb_lt. unfold hits. destruct (collect _ _); [contradiction | cbn; lia]. }
  assert (In (mkPatternMatch t (hits t (pre ++ s)%list)
                (firstn 3 (collect (patternsOf t) (pre ++ s)%list)))
             (scanPatterns (pre ++ s)%list)) as Hrec.
  { rewrite scanPatterns_found. apply in_flat_map. exists t. split.
    - destruct t; cbn; tauto.
    - unfold found. rewrite Hpos. now left. }
  split.
  - unfold hasType. apply existsb_exists. eexists. split; [exact Hrec|].
    cbn. destruct t; reflexivity.
  - rewrite generateLabels_map. apply in_map_iff. eexists. split; [|exact Hrec].
    reflexivity.
Qed.


(** Conversely the set of a block stays empty when none of its patterns
    matches. *)
Lemma collect_empty (regexes : list RegExp) (content : jsstring) :
  (forall re, In re regexes -> String_match content re = None) ->
  collect regexes content = [].
Proof.
  unfold collect. generalize (@nil jsstring) as set.
  induction regexes as [|r regexes IH]; intros set H; cbn [fold_left].
  - reflexivity.
  - rewrite (H r (or_introl eq_refl)). apply IH. intros re Hin. apply H. now right.
Qed.

(** Some pattern of the category matches somewhere in the text. *)
Definition matchesSome (t : PatternType) (text : jsstring) : bool :=
  existsb (fun re => match String_match text re with Some _ => true | None => false end)
    (patternsOf t).

Lemma hits_matchesSome (t : PatternType) (text : jsstring) :
  Nat.ltb 0 (hits t text) = matchesSome t text.
Proof.
  unfold hits, matchesSome.
  destruct (existsb _ (patternsOf t)) eqn:He.
  - apply existsb_exists in He. destruct He as (re & Hin & Hm).
    assert (collect (patternsOf t) text <> []) as Hc.
    { apply (collect_nonempty _ _ re Hin). destruct (String_match text re); discriminate. }
    apply Nat.ltb_lt. destruct (collect _ _); [contradiction | cbn; lia].
  - rewrite collect_empty; [reflexivity|].
    intros re Hin. destruct (String_match text re) eqn:Hm; [|reflexivity].
    assert (existsb (fun re => match String_match text re with
                               | Some _ => true | None => false end) (patternsOf t) = true)
      as Ht by (apply existsb_exists; exists re; rewrite Hm; auto).
    congruence.
Qed.

(** X10. The labels of a result are exactly those of the categories detected
    in the content, one each, in the order phone, e-mail, url, social,
    obfuscation; a category is detected when one of its patterns matches
    somewhere in the content.  A content that is missing or not a string has
    no label, and a content over the length limit has [message_too_long]
    alone. *)
Theorem labels_follow_the_pipeline (cfg : InterceptorConfig) (message : ChatMessage) :
  labels (interceptMessage cfg message)
  = match validContent (content message) with
    | None => []
    | Some text =>
        if num_gtb (Int (Z.of_nat (List.length text))) (max_message_length cfg)
        then ["message_too_long"]
        else map labelOf (filter (fun t => matchesSome t text) pipeline)
    end.
Proof.
  destruct (interceptMessage_paths cfg message)
    as [[-> ->] | [(text & -> & -> & ->) | (text & -> & -> & ->)]];
    [reflexivity | reflexivity |].
  destruct (verdict_fields cfg (scanPatterns text)) as [-> _].
  rewrite generateLabels_map, scanPatterns_found.
  unfold pipeline, found. cbn [flat_map filter].
  rewrite <- !hits_matchesSome.
  repeat match goal with
         | |- context [Nat.ltb 0 (hits ?t text)] => destruct (Nat.ltb 0 (hits t text))
         end; reflexivity.
Qed.

(** ** Phone numbers *)

(** [n] decimal digits. *)
Definition allDigits (n : nat) (s : jsstring) : bool :=
  Nat.eqb (List.length s) n && forallb isDigit s.

(** A separator of the phone patterns: white space, a dot or a hyphen. *)
Definition isSeparator (c : code_unit) : bool :=
  isWhiteSpace c || N.eqb c 46 || N.eqb c 45.

Definition isCloseParen (c : code_unit) : bool := N.eqb c 41.

Lemma Matches_digits (n : nat) (s : jsstring) (prev : option code_unit) (rest : jsstring) :
  allDigits n s = true ->
  Matches false (times n PATTERNS.digit) (prev, (s ++ rest)%list) (lastOr prev s, rest).
Proof.
  unfold allDigits. intros H. apply andb_true_iff in H. destruct H as [Hn Hd].
  apply Nat.eqb_eq in Hn. unfold times, PATTERNS.digit, cls.
  apply Matches_run; [| lia | cbn; lia].
  rewrite forallb_forall in Hd. apply Forall_forall. intros c Hc.
  cbn. rewrite (Hd c Hc). reflexivity.
Qed.

Lemma Matches_separator (s : jsstring) (prev : option code_unit) (rest : jsstring) :
  atMostOne isSeparator s = true ->
  Matches false (opt PATTERNS.sep) (prev, (s ++ rest)%list) (lastOr prev s, rest).
Proof.
  intros H. apply (Matches_opt_unit false _ isSeparator); [|exact H].
  intros c p r Hc. apply M_Class. unfold isSeparator in Hc.
  cbn. change (cu ".") with 46%N. change (cu "-") with 45%N.
  destruct (isWhiteSpace c), (N.eqb c 46), (N.eqb c 45); try discriminate; reflexivity.
Qed.

Lemma Matches_close_paren (s : jsstring) (prev : option code_unit) (rest : jsstring) :
  atMostOne isCloseParen s = true ->
  Matches false (opt (Chr ")")) (prev, (s ++ rest)%list) (lastOr prev s, rest).
Proof.
  intros H. apply (Matches_opt_unit false _ isCloseParen); [|exact H].
  intros c p r Hc. apply M_Chr. unfold isCloseParen in Hc.
  unfold chr_match. change (cu ")") with 41%N. rewrite Hc. reflexivity.
Qed.

(** The second phone pattern matches three digits, three digits and four
    digits, with an optional closing parenthesis after the first group and
    an optional separator between the groups. *)
Lemma Matches_us_phone (a close s1 b s2 c rest : jsstring) (prev : option code_unit) :
  allDigits 3 a = true -> atMostOne isCloseParen close = true ->
  atMostOne isSeparator s1 = true -> allDigits 3 b = true ->
  atMostOne isSeparator s2 = true -> allDigits 4 c = true ->
  exists y,
    Matches false
      (seqs [opt (Chr "("); times 3 PATTERNS.digit; opt (Chr ")"); opt PATTERNS.sep;
             times 3 PATTERNS.digit; opt PATTERNS.sep; times 4 PATTERNS.digit])
      (prev, (a ++ close ++ s1 ++ b ++ s2 ++ c ++ rest)%list) y.
Proof.
  intros Ha Hclose Hs1 Hb Hs2 Hc. eexists.
  eapply Matches_seqs; [apply Matches_opt_skip|].
  eapply Matches_seqs; [apply (Matches_digits 3 a); exact Ha|].
  eapply Matches_seqs; [apply (Matches_close_paren close); exact Hclose|].
  eapply Matches_seqs; [apply (Matches_separator s1); exact Hs1|].
  eapply Matches_seqs; [apply (Matches_digits 3 b); exact Hb|].
  eapply Matches_seqs; [apply (Matches_separator s2); exact Hs2|].
  eapply Matches_seqs; [apply (Matches_digits 4 c); exact Hc|].
  apply M_Eps.
Qed.

(** A message in which a phone number or an e-mail address is detected is
    blocked, by the length gate or by its score. *)
Lemma contact_detected_blocked (cfg : InterceptorConfig) (message : ChatMessage)
  (text : jsstring) :
  content message = VString text ->
  hasType phone (scanPatterns text) || hasType email (scanPatterns text) = true ->
  PrimFloat.leb (sync_threshold cfg) (0.80 * 0.85) = true ->
  allowed (interceptMessage cfg message) = false
  /\ action (interceptMessage cfg message) = "hard_block".
Proof.
  intros Hc Hdet Hthr.
  destruct (interceptMessage_paths cfg message)
    as [[Hn _] | [(text' & _ & _ & ->) | (text' & Hv & _ & ->)]].
  - exfalso. rewrite Hc in Hn. destruct text as [|c text]; [|discriminate].
    rewrite scanPatterns_empty in Hdet. discriminate.
  - split; reflexivity.
  - assert (text' = text) as ->.
    { rewrite Hc in Hv. unfold validContent in Hv.
      destruct (negb _); [discriminate | congruence]. }
    rewrite (verdict_blocked cfg _ (leb_trans _ _ _ Hthr (contact_score text Hdet))).
    split; reflexivity.
Qed.

(** X11. A message that contains a ten-digit phone number (three, three and
    four digits, the first group optionally followed by a closing
    parenthesis, the groups optionally separated by one white-space
    character, dot or hyphen) is blocked under every threshold of at most
    [0.80 * 0.85], wherever in the text the number stands. *)
Theorem phone_number_is_blocked (cfg : InterceptorConfig) (message : ChatMessage)
  (pre a close s1 b s2 c post : jsstring) :
  content message = VString (pre ++ a ++ close ++ s1 ++ b ++ s2 ++ c ++ post)%list ->
  allDigits 3 a = true -> atMostOne isCloseParen close = true ->
  atMostOne isSeparator s1 = true -> allDigits 3 b = true ->
  atMostOne isSeparator s2 = true -> allDigits 4 c = true ->
  PrimFloat.leb (sync_threshold cfg) (0.80 * 0.85) = true ->
  allowed (interceptMessage cfg message) = false
  /\ action (interceptMessage cfg message) = "hard_block".
Proof.
  intros Hcontent Ha Hclose Hs1 Hb Hs2 Hc Hthr.
  apply (contact_detected_blocked cfg message _ Hcontent); [|exact Hthr].
  destruct (Matches_us_phone a close s1 b s2 c post (lastOr None pre)
              Ha Hclose Hs1 Hb Hs2 Hc) as [y Hy].
  apply orb_true_iff. left.
  refine (proj1 (detected phone (nth 1 PATTERNS.phone (mkRegExp Eps false)) pre _ y _ Hy)).
  cbn. auto.
Qed.

Lemma phone_number_is_blocked_witness :
  allowed (interceptMessage Scenarios.defaultConfig
             (Scenarios.chat "my number is 555.123 4567, call after six")) = false
  /\ action (interceptMessage Scenarios.defaultConfig
               (Scenarios.chat "my number is 555.123 4567, call after six"))
     = "hard_block".
Proof.
  apply (phone_number_is_blocked Scenarios.defaultConfig _
           (lit "my number is ") (lit "555") [] (lit ".") (lit "123") (lit " ")
           (lit "4567") (lit ", call after six")); reflexivity.
Defined.


(** ** E-mail addresses *)

Definition isLetter (c : code_unit) : bool := isLower c || isUpper c.

(** The characters the first e-mail pattern accepts before and after the
    at sign. *)
Definition isLocalChar (c : code_unit) : bool :=
  isLetter c || isDigit c
  || existsb (N.eqb c) [46; 95; 37; 43; 45]%N.

Definition isHostChar (c : code_unit) : bool :=
  isLetter c || isDigit c || N.eqb c 46 || N.eqb c 45.

Definition nonEmptyRun (p : code_unit -> bool) (s : jsstring) : bool :=
  Nat.ltb 0 (List.length s) && forallb p s.

Lemma Matches_class_run (items : list class_item) (p : code_unit -> bool) (lo : nat)
  (s : jsstring) (prev : option code_unit) (rest : jsstring) :
  (forall c, p c = true -> class_mem false items c = true) ->
  lo <= List.length s -> forallb p s = true ->
  Matches false (Rep lo None (cls items)) (prev, (s ++ rest)%list) (lastOr prev s, rest).
Proof.
  intros Hp Hlo Hall. unfold cls. apply Matches_run; [| exact Hlo | exact I].
  rewrite forallb_forall in Hall. apply Forall_forall. intros c Hc.
  rewrite (Hp c (Hall c Hc)). reflexivity.
Qed.

Lemma localChar_class (c : code_unit) :
  isLocalChar c = true ->
  class_mem false
    [CRange "a" "z"; CRange "A" "Z"; CRange "0" "9";
     CChar "."; CChar "_"; CChar "%"; CChar "+"; CChar "-"] c = true.
Proof.
  unfold isLocalChar, isLetter, isLower, isUpper, isDigit.
  cbn [class_mem existsb item_mem andb].
  change (cu "a") with 97%N. change (cu "z") with 122%N.
  change (cu "A") with 65%N. change (cu "Z") with 90%N.
  change (cu "0") with 48%N. change (cu "9") with 57%N.
  change (cu ".") with 46%N. change (cu "_") with 95%N. change (cu "%") with 37%N.
  change (cu "+") with 43%N. change (cu "-") with 45%N.
  destruct (between 97 122 c), (between 65 90 c), (between 48 57 c), (N.eqb c 46),
    (N.eqb c 95), (N.eqb c 37), (N.eqb c 43), (N.eqb c 45); cbn; congruence.
Qed.

Lemma hostChar_class (c : code_unit) :
  isHostChar c = true ->
  class_mem false
    [CRange "a" "z"; CRange "A" "Z"; CRange "0" "9"; CChar "."; CChar "-"] c = true.
Proof.
  unfold isHostChar, isLetter, isLower, isUpper, isDigit.
  cbn [class_mem existsb item_mem andb].
  change (cu "a") with 97%N. change (cu "z") with 122%N.
  change (cu "A") with 65%N. change (cu "Z") with 90%N.
  change (cu "0") with 48%N. change (cu "9") with 57%N.
  change (cu ".") with 46%N. change (cu "-") with 45%N.
  destruct (between 97 122 c), (between 65 90 c), (between 48 57 c), (N.eqb c 46),
    (N.eqb c 45); cbn; congruence.
Qed.

Lemma letter_class (c : code_unit) :
  isLetter c = true -> class_mem false [CRange "a" "z"; CRange "A" "Z"] c = true.
Proof.
  unfold isLetter, isLower, isUpper. cbn [class_mem existsb item_mem andb].
  change (cu "a") with 97%N. change (cu "z") with 122%N.
  change (cu "A") with 65%N. change (cu "Z") with 90%N.
  destruct (between 97 122 c), (between 65 90 c); cbn; congruence.
Qed.

(** X12. A message that contains an e-mail address (one or more of the
    characters [a-zA-Z0-9._%+-], an at sign, one or more of
    [a-zA-Z0-9.-], a dot and at least two letters) is blocked under every
    threshold of at most [0.80 * 0.85], wherever in the text the address
    stands. *)
Theorem email_address_is_blocked (cfg : InterceptorConfig) (message : ChatMessage)
  (pre l h t post : jsstring) :
  content message = VString (pre ++ l ++ [64%N] ++ h ++ [46%N] ++ t ++ post)%list ->
  nonEmptyRun isLocalChar l = true ->
  nonEmptyRun isHostChar h = true ->
  Nat.leb 2 (List.length t) && forallb isLetter t = true ->
  PrimFloat.leb (sync_threshold cfg) (0.80 * 0.85) = true ->
  allowed (interceptMessage cfg message) = false
  /\ action (interceptMessage cfg message) = "hard_block".
Proof.
  intros Hcontent Hl Hh Ht Hthr.
  apply andb_true_iff in Hl. destruct Hl as [Hl1 Hl2]. apply Nat.ltb_lt in Hl1.
  apply andb_true_iff in Hh. destruct Hh as [Hh1 Hh2]. apply Nat.ltb_lt in Hh1.
  apply andb_true_iff in Ht. destruct Ht as [Ht1 Ht2]. apply Nat.leb_le in Ht1.
  apply (contact_detected_blocked cfg message _ Hcontent); [|exact Hthr].
  apply orb_true_iff. right.
  refine (proj1 (detected email (nth 0 PATTERNS.email (mkRegExp Eps false)) pre _ _
                   ltac:(cbn; auto) _)).
  cbn [nth PATTERNS.email ignoreCase source].
  eapply Matches_seqs.
  { apply (Matches_class_run _ isLocalChar 1 l); [exact localChar_class | lia | exact Hl2]. }
  eapply Matches_seqs; [apply M_Chr; reflexivity|].
  eapply Matches_seqs.
  { apply (Matches_class_run _ isHostChar 1 h); [exact hostChar_class | lia | exact Hh2]. }
  eapply Matches_seqs; [apply M_Chr; reflexivity|].
  eapply Matches_seqs.
  { apply (Matches_class_run _ isLetter 2 t); [exact letter_class | lia | exact Ht2]. }
  apply M_Eps.
Qed.

Lemma email_address_is_blocked_witness :
  allowed (interceptMessage Scenarios.defaultConfig
             (Scenarios.chat "write to jane_doe+work@mail.example.org tonight")) = false
  /\ action (interceptMessage Scenarios.defaultConfig
               (Scenarios.chat "write to jane_doe+work@mail.example.org tonight"))
     = "hard_block".
Proof.
  apply (email_address_is_blocked Scenarios.defaultConfig _
           (lit "write to ") (lit "jane_doe+work") (lit "mail.example") (lit "org")
           (lit " tonight")); reflexivity.
Defined.


(** ** Links *)

Lemma url_score (text : jsstring) :
  hasType url (scanPatterns text) = true ->
  PrimFloat.leb 0.4 (calculateRiskScore (scanPatterns text)) = true.
Proof.
  intros H.
  pose proof (scan_by_cases
                (fun ms => implb (hasType url ms)
                             (PrimFloat.leb 0.4 (calculateRiskScore ms)))) as G.
  cbv beta in G. specialize (G ltac:(intros ms1 ms2 E;
    now rewrite (calculateRiskScore_signature _ _ E), (hasType_signature url _ _ E))
    ltac:(vm_compute; reflexivity) text).
  rewrite H in G. exact G.
Qed.

(** X13. A message that contains [http://] or [https://] (in any letter
    case) followed by a character that is not white space is never simply
    allowed: whatever the threshold, it is nudged or blocked. *)
Theorem link_is_never_simply_allowed (cfg : InterceptorConfig) (message : ChatMessage)
  (pre http s slashes post : jsstring) (c : code_unit) :
  content message = VString (pre ++ http ++ s ++ slashes ++ c :: post)%list ->
  spells true "http" http = true ->
  atMostOne (chr_match true "s") s = true ->
  spells true "://" slashes = true ->
  isWhiteSpace c = false ->
  action (interceptMessage cfg message) = "nudge"
  \/ action (interceptMessage cfg message) = "hard_block".
Proof.
  intros Hcontent Hhttp Hs Hslashes Hc.
  assert (hasType url (scanPatterns (pre ++ http ++ s ++ slashes ++ c :: post)%list) = true)
    as Hdet.
  { refine (proj1 (detected url (nth 0 PATTERNS.url (mkRegExp Eps false)) pre _ _
                     ltac:(cbn; auto) _)).
    cbn [nth PATTERNS.url ignoreCase source].
    eapply Matches_seqs; [apply (Matches_word true "http" http Hhttp)|].
    eapply Matches_seqs.
    { apply (Matches_opt_unit true _ (chr_match true "s") s); [|exact Hs].
      intros c' p r Hc'. now apply M_Chr. }
    eapply Matches_seqs; [apply (Matches_word true "://" slashes Hslashes)|].
    eapply Matches_seqs; [|apply M_Eps].
    apply (Matches_run true true [CSpace] [c] 1 None _ post); [| cbn; lia | exact I].
    constructor; [|constructor].
    cbn [class_mem existsb item_mem negb].
    assert (isWhiteSpace (swapCase c) = false) as ->.
    { unfold swapCase. destruct (isLower c) eqn:Hl; [|destruct (isUpper c) eqn:Hu].
      - unfold isLower, between in Hl. apply andb_true_iff in Hl.
        destruct Hl as [H1 H2]. apply N.leb_le in H1, H2.
        assert (exists n, (c - 32 = n /\ 65 <= n <= 90)%N) as (n & -> & Hn)
          by (eexists; split; [reflexivity | lia]).
        unfold isWhiteSpace, isLineTerminator, between. cbn [existsb].
        repeat match goal with
               | |- context [N.eqb n ?k] =>
                   destruct (N.eqb_spec n k); [lia|]
               end.
        cbn [orb]. destruct (N.leb_spec 8192 n); [lia | reflexivity].
      - unfold isUpper, between in Hu. apply andb_true_iff in Hu.
        destruct Hu as [H1 H2]. apply N.leb_le in H1, H2.
        assert (exists n, (c + 32 = n /\ 97 <= n <= 122)%N) as (n & -> & Hn)
          by (eexists; split; [reflexivity | lia]).
        unfold isWhiteSpace, isLineTerminator, between. cbn [existsb].
        repeat match goal with
               | |- context [N.eqb n ?k] =>
                   destruct (N.eqb_spec n k); [lia|]
               end.
        cbn [orb]. destruct (N.leb_spec 8192 n); [lia | reflexivity].
      - exact Hc. }
    rewrite Hc. reflexivity. }
  destruct (interceptMessage_paths cfg message)
    as [[Hn _] | [(text' & _ & _ & ->) | (text' & Hv & _ & ->)]].
  - exfalso. rewrite Hcontent in Hn. unfold validContent in Hn.
    destruct pre, http, s, slashes; discriminate.
  - right. reflexivity.
  - assert (text' = (pre ++ http ++ s ++ slashes ++ c :: post)%list) as ->.
    { rewrite Hcontent in Hv. unfold validContent in Hv.
      destruct (negb _); [discriminate | congruence]. }
    unfold verdict. destruct (float_geb _ (sync_threshold cfg)); [right; reflexivity|].
    unfold float_geb. rewrite (url_score _ Hdet). left. reflexivity.
Qed.

Lemma link_is_never_simply_allowed_witness :
  action (interceptMessage Scenarios.strictConfig
            (Scenarios.chat "see HTTPS://example.com/profile for my work")) = "nudge"
  \/ action (interceptMessage Scenarios.strictConfig
               (Scenarios.chat "see HTTPS://example.com/profile for my work"))
     = "hard_block".
Proof.
  apply (link_is_never_simply_allowed Scenarios.strictConfig _
           (lit "see ") (lit "HTTP") (lit "S") (lit "://") (lit "xample.com/profile for my work")
           101%N); reflexivity.
Defined.

End DetectionFacts.

(* ================================================================== *)
(** * The state of the process has no part in the result              *)
(* ================================================================== *)

Module PurityFacts.
Import JS Types Config Interceptor CircuitBreaker RegexFacts MatchFacts.
Import Runtime.
Local Open Scope string_scope.

(** ** Positions and indices *)

(** The matcher of [JS] works on positions, the run time on indices into
    the subject.  [reach x y]: the position [y] lies at or after [x] in the
    same subject, the units between them being [pre]. *)
Definition reach (x y : pos) : Prop :=
  exists pre, snd x = (pre ++ snd y)%list /\ fst y = lastOr (fst x) pre.

Lemma reach_refl (x : pos) : reach x x.
Proof. exists []. split; reflexivity. Qed.

Lemma reach_trans (x y z : pos) : reach x y -> reach y z -> reach x z.
Proof.
  intros (p1 & H1 & L1) (p2 & H2 & L2). exists (p1 ++ p2)%list. split.
  - rewrite H1, H2. now rewrite app_assoc.
  - now rewrite lastOr_app, <- L1.
Qed.

Lemma reach_consume (x : pos) (c : code_unit) (rest : jsstring) :
  snd x = c :: rest -> reach x (Some c, rest).
Proof. intros H. exists [c]. split; [exact H | reflexivity]. Qed.

(** A success of a matcher is a success of its continuation at a position
    reached from where it started. *)
Definition reaching (m : Matcher) : Prop :=
  forall x k z, m x k = Some z -> exists y, reach x y /\ k y = Some z.

Lemma repeatMatcher_reaching (m : Matcher) :
  reaching m -> forall fuel lo hi, reaching (repeatMatcher m fuel lo hi).
Proof.
  intros Hm. induction fuel as [|fuel IH]; intros lo hi x k z H; [discriminate|].
  cbn [repeatMatcher] in H.
  destruct (hiZero hi); [exists x; split; [apply reach_refl | exact H]|].
  assert (forall d : pos -> option pos,
             (forall y, d y = if Nat.eqb lo 0 && Nat.eqb (remaining y) (remaining x)
                              then None
                              else repeatMatcher m fuel (Nat.pred lo) (hiPred hi) y k) ->
             m x d = Some z ->
             exists y, reach x y /\ k y = Some z) as Hstep.
  { intros d Hd Hmx. destruct (Hm x d z Hmx) as (y & Hy & Hdy).
    rewrite Hd in Hdy. destruct (_ && _); [discriminate|].
    destruct (IH _ _ _ _ _ Hdy) as (y' & Hy' & Hk). exists y'.
    split; [exact (reach_trans _ _ _ Hy Hy') | exact Hk]. }
  destruct lo as [|lo].
  - match type of H with
    | match m x ?d with _ => _ end = _ => destruct (m x d) as [z'|] eqn:Hmx
    end.
    + injection H as ->. eapply Hstep; [|exact Hmx]. reflexivity.
    + exists x. split; [apply reach_refl | exact H].
  - eapply Hstep; [|exact H]. reflexivity.
Qed.

Lemma matcher_reaching (ic : bool) (r : regex) : reaching (matcher ic r).
Proof.
  induction r as [| a | neg items | | | r1 IH1 r2 IH2 | r1 IH1 r2 IH2 | lo hi r IH];
    intros x k z H; cbn [matcher] in H.
  - exists x. split; [apply reach_refl | exact H].
  - destruct (snd x) as [|c rest] eqn:Hx; [discriminate|].
    destruct (chr_match ic a c); [|discriminate].
    exists (Some c, rest). split; [now apply reach_consume | exact H].
  - destruct (snd x) as [|c rest] eqn:Hx; [discriminate|].
    destruct (Bool.eqb _ _); [|discriminate].
    exists (Some c, rest). split; [now apply reach_consume | exact H].
  - destruct (snd x) as [|c rest] eqn:Hx; [discriminate|].
    destruct (isLineTerminator c); [discriminate|].
    exists (Some c, rest). split; [now apply reach_consume | exact H].
  - destruct (atWordBoundary x); [|discriminate].
    exists x. split; [apply reach_refl | exact H].
  - destruct (IH1 _ _ _ H) as (y & Hy & H2).
    destruct (IH2 _ _ _ H2) as (y' & Hy' & Hk). exists y'.
    split; [exact (reach_trans _ _ _ Hy Hy') | exact Hk].
  - destruct (matcher ic r1 x k) as [z'|] eqn:H1.
    + injection H as ->. exact (IH1 _ _ _ H1).
    + exact (IH2 _ _ _ H).
  - exact (repeatMatcher_reaching _ IH _ _ _ _ _ _ H).
Qed.

(** What [search] returns: the text it skipped, then the match, then the
    text left; and the unit before the position it ends at. *)
Lemma search_unfold (re : RegExp) (prev : option code_unit) (s : jsstring) :
  search re prev s
  = match matcher (ignoreCase re) (source re) (prev, s) Some with
    | Some z => Some (firstn (List.length s - List.length (snd z)) s, z)
    | None =>
        match s with
        | c :: s' => search re (Some c) s'
        | [] => None
        end
    end.
Proof. destruct s; reflexivity. Qed.

Lemma search_splits (re : RegExp) (s : jsstring) :
  forall prev m z,
    search re prev s = Some (m, z) ->
    exists skipped,
      s = (skipped ++ m ++ snd z)%list /\ fst z = lastOr prev (skipped ++ m)%list.
Proof.
  assert (forall (s : jsstring) prev z',
            matcher (ignoreCase re) (source re) (prev, s) Some = Some z' ->
            s = (firstn (List.length s - List.length (snd z')) s ++ snd z')%list
            /\ fst z' = lastOr prev (firstn (List.length s - List.length (snd z')) s))
    as Hhere.
  { intros s0 prev z' Hm.
    destruct (matcher_reaching _ _ _ _ _ Hm) as (y & (pre & Hpre & Hlast) & Hk).
    injection Hk as ->. cbn [fst snd] in Hpre, Hlast.
    assert (firstn (List.length s0 - List.length (snd z')) s0 = pre) as ->.
    { rewrite Hpre, length_app, Nat.add_sub, firstn_app, Nat.sub_diag, firstn_all.
      cbn [firstn]. apply app_nil_r. }
    split; [exact Hpre | exact Hlast]. }
  induction s as [|c s IH]; intros prev m z H; rewrite search_unfold in H.
  - destruct (matcher _ _ _ _) as [z'|] eqn:Hm; [|discriminate].
    injection H as <- <-. exists []. exact (Hhere _ _ _ Hm).
  - destruct (matcher _ _ _ _) as [z'|] eqn:Hm.
    + injection H as <- <-. exists []. exact (Hhere _ _ _ Hm).
    + destruct (IH _ _ _ H) as (skipped & Hs & Hlast).
      exists (c :: skipped). cbn [app lastOr]. split; [now rewrite <- Hs | exact Hlast].
Qed.

Lemma unitBefore_app (done s : jsstring) :
  unitBefore (done ++ s)%list (List.length done) = lastOr None done.
Proof.
  destruct done as [|c done] using rev_ind; [reflexivity|].
  rewrite lastOr_app, length_app, Nat.add_comm. cbn [List.length Nat.add unitBefore lastOr].
  rewrite <- app_assoc, nth_error_app2 by lia. now rewrite Nat.sub_diag.
Qed.

(** [RegExpBuiltinExec] at an index is [search] at the position of that
    index. *)
Lemma RegExpBuiltinExec_search (R : RegExp) (done s : jsstring) :
  RegExpBuiltinExec R (done ++ s)%list (List.length done)
  = match search R (lastOr None done) s with
    | None => (None, 0)
    | Some (m, z) => (Some m, List.length (done ++ s)%list - List.length (snd z))
    end.
Proof.
  unfold RegExpBuiltinExec.
  destruct (Nat.ltb_spec (List.length (done ++ s)%list) (List.length done)) as [Hlt|_].
  { rewrite length_app in Hlt. lia. }
  rewrite unitBefore_app, skipn_app, Nat.sub_diag, skipn_all. reflexivity.
Qed.

(** ** The match loop *)

(** The loop of the run time collects what the loop of [JS] collects and
    leaves [lastIndex] at 0; it takes one turn more, the one that finds
    [lastIndex] past the end after an empty match there. *)
Lemma matchAll_matchLoop (rx : RegExp) :
  forall fuel done s,
    List.length s + 1 <= fuel ->
    matchAll (S fuel) rx (done ++ s)%list (List.length done)
    = (matchLoop fuel rx (lastOr None done) s, 0).
Proof.
  induction fuel as [|fuel IH]; intros done s Hfuel; [lia|].
  change (matchAll (S (S fuel)) rx (done ++ s)%list (List.length done))
    with (match RegExpBuiltinExec rx (done ++ s)%list (List.length done) with
          | (None, lastIndex) => ([], lastIndex)
          | (Some matchStr, lastIndex) =>
              let lastIndex :=
                match matchStr with
                | [] => lastIndex + 1
                | _ => lastIndex
                end in
              let '(A, lastIndex) := matchAll (S fuel) rx (done ++ s)%list lastIndex in
              (matchStr :: A, lastIndex)
          end).
  rewrite RegExpBuiltinExec_search. cbn [matchLoop].
  destruct (search rx (lastOr None done) s) as [[m [prev' s']]|] eqn:Hs; [|reflexivity].
  destruct (search_splits _ _ _ _ _ Hs) as (skipped & Hsplit & Hlast).
  cbn [fst snd] in Hsplit, Hlast |- *. cbv zeta.
  assert (List.length (done ++ s)%list - List.length s'
          = List.length (done ++ skipped ++ m)%list) as Hend.
  { rewrite Hsplit, !length_app. lia. }
  rewrite Hend.
  assert ((done ++ s)%list = ((done ++ skipped ++ m) ++ s')%list) as Hsubject.
  { rewrite Hsplit, <- !app_assoc. reflexivity. }
  destruct m as [|a m].
  - (* an empty match *)
    destruct s' as [|c s''].
    + (* at the end of the subject: the next turn finds [lastIndex] past it *)
      assert (List.length (done ++ skipped ++ [])%list + 1
              = S (List.length (done ++ s)%list)) as ->.
      { rewrite Hsplit, !length_app. cbn. lia. }
      cbn [matchAll]. unfold RegExpBuiltinExec.
      destruct (Nat.ltb_spec (List.length (done ++ s)%list)
                  (S (List.length (done ++ s)%list))) as [_|Hge]; [reflexivity | lia].
    + assert ((done ++ s)%list = ((done ++ skipped ++ [c]) ++ s'')%list) as Hsubject'.
      { rewrite Hsplit, <- !app_assoc. reflexivity. }
      assert (List.length (done ++ skipped ++ [])%list + 1
              = List.length (done ++ skipped ++ [c])%list) as ->.
      { rewrite !length_app. cbn. lia. }
      rewrite Hsubject', IH.
      2:{ rewrite Hsplit in Hfuel. rewrite !length_app in Hfuel. cbn in Hfuel. lia. }
      rewrite app_assoc, lastOr_app. reflexivity.
  - (* a match that is not empty *)
    rewrite Hsubject, IH.
    2:{ rewrite Hsplit in Hfuel. rewrite !length_app in Hfuel. cbn in Hfuel. lia. }
    rewrite lastOr_app, <- Hlast. reflexivity.
Qed.

(** More turns than [length S + 2] change nothing: the loop has ended. *)
Lemma matchAll_fuel (rx : RegExp) (subject : jsstring) (extra : nat) :
  matchAll (List.length subject + 2 + extra) rx subject 0
  = matchAll (List.length subject + 2) rx subject 0.
Proof.
  pose proof (matchAll_matchLoop rx (S (List.length subject) + extra) [] subject
                ltac:(lia)) as H1.
  pose proof (matchAll_matchLoop rx (S (List.length subject)) [] subject ltac:(lia)) as H2.
  cbn [app List.length lastOr] in H1, H2.
  replace (List.length subject + 2 + extra) with (S (S (List.length subject) + extra))
    by lia.
  replace (List.length subject + 2) with (S (S (List.length subject))) by lia.
  rewrite H1, H2. f_equal. apply String_match_enough_fuel.
Qed.

(** [content.match(regex)], whatever the [lastIndex] of the pattern was:
    the matches are those of [JS.String_match], and [lastIndex] is left
    at 0. *)
Lemma String_match_pure (subject : jsstring) (rx : RegExp) (lastIndex : nat) :
  String_match subject rx lastIndex = (JS.String_match subject rx, 0).
Proof.
  unfold String_match, JS.String_match.
  pose proof (matchAll_matchLoop rx (S (List.length subject)) [] subject ltac:(lia)) as H.
  cbn [app List.length lastOr] in H.
  replace (List.length subject + 2) with (S (S (List.length subject))) by lia.
  rewrite H. destruct (matchLoop _ _ _ _); reflexivity.
Qed.

(** ** scanPatterns *)

Lemma forEachPattern_pure (t : PatternType) (content : jsstring) (regexes : list RegExp) :
  forall i set st,
    fst (forEachPattern t i regexes content set st)
    = fold_left
        (fun set regex =>
           match JS.String_match content regex with
           | Some found => fold_left (fun set m => Set_add set (trim m)) found set
           | None => set
           end) regexes set.
Proof.
  induction regexes as [|regex regexes IH]; intros i set st; [reflexivity|].
  cbn [forEachPattern fold_left]. rewrite String_match_pure. apply IH.
Qed.

(** The matches [scanPatterns] returns do not depend on the pattern
    objects it is given: they are those of [Interceptor.scanPatterns]. *)
Lemma scanPatterns_pure (content : jsstring) (st : LastIndexes) :
  fst (scanPatterns content st) = Interceptor.scanPatterns content.
Proof.
  unfold scanPatterns, Interceptor.scanPatterns, collect.
  repeat match goal with
         | |- context [forEachPattern ?t ?i ?rs content ?set ?st0] =>
             let H := fresh "H" in
             pose proof (forEachPattern_pure t content rs i set st0) as H;
             destruct (forEachPattern t i rs content set st0) as [? ?];
             cbn [fst] in H; subst
         end.
  reflexivity.
Qed.

(** Every pattern object a scan has used is left with [lastIndex] 0. *)
Lemma forEachPattern_lastIndex (t : PatternType) (content : jsstring)
  (regexes : list RegExp) :
  forall i set st t' i',
    snd (forEachPattern t i regexes content set st) t' i'
    = if PatternType_eqb t t' && Nat.leb i i' && Nat.ltb i' (i + List.length regexes)
      then 0 else st t' i'.
Proof.
  induction regexes as [|regex regexes IH]; intros i set st t' i'.
  - cbn [forEachPattern snd List.length]. rewrite Nat.add_0_r.
    destruct (Nat.leb_spec i i'), (Nat.ltb_spec i' i); try lia;
      now rewrite ?andb_false_r.
  - cbn [forEachPattern List.length]. rewrite String_match_pure, IH.
    unfold setLastIndex.
    destruct (PatternType_eqb t t'); cbn [andb]; [|reflexivity].
    destruct (Nat.leb_spec (S i) i'), (Nat.ltb_spec i' (S i + List.length regexes)),
      (Nat.leb_spec i i'), (Nat.ltb_spec i' (i + S (List.length regexes))),
      (Nat.eqb_spec i i'); cbn [andb]; try lia; reflexivity.
Qed.

(** ** interceptMessage *)

(** The configuration a call works with: what [getConfig()] returns in
    the process, or the [Error] it throws. *)
Definition configuration (p : Process) : ConfigError + InterceptorConfig :=
  fst (getConfig (env p) (cachedConfig p)).

(** The promise settles as [Interceptor.interceptMessage] says, whatever
    the pattern objects, the clock and the log are when the call starts. *)
Lemma interceptMessage_refines (message : ChatMessage) (p : Process) :
  fst (interceptMessage message p)
  = match configuration p with
    | inl error => Rejected error
    | inr config => Resolved (Interceptor.interceptMessage config message)
    end.
Proof.
  unfold interceptMessage, configuration, Date_now.
  cbn [env cachedConfig lastIndex].
  destruct (getConfig (env p) (cachedConfig p)) as [[error | config] cache];
    [reflexivity|].
  cbn [fst]. unfold Interceptor.interceptMessage.
  destruct (validContent (content message)) as [text|]; [|reflexivity].
  destruct (num_gtb _ _); [reflexivity|].
  cbn [set_cachedConfig lastIndex].
  pose proof (scanPatterns_pure text (lastIndex p)) as Hscan.
  destruct (scanPatterns text (lastIndex p)) as [matches st]. cbn [fst] in Hscan.
  subst matches. cbv zeta.
  destruct (float_geb _ (sync_threshold config)); [reflexivity|].
  destruct (float_geb _ 0.4); reflexivity.
Qed.

(** A call leaves the environment as it was and the cache such that
    [getConfig()] answers as it did. *)
Lemma interceptMessage_configuration (message : ChatMessage) (p : Process) :
  configuration (snd (interceptMessage message p)) = configuration p.
Proof.
  unfold interceptMessage, configuration, Date_now, getConfig.
  cbn [env cachedConfig lastIndex].
  destruct (cachedConfig p) as [config|] eqn:Hcache.
  - destruct (validContent (content message)) as [text|]; [|reflexivity].
    destruct (num_gtb _ _); [reflexivity|].
    destruct (scanPatterns _ _) as [matches st]. cbv zeta.
    destruct (float_geb _ (sync_threshold config)); [reflexivity|].
    destruct (float_geb _ 0.4); reflexivity.
  - destruct (loadConfig (env p)) as [error | config] eqn:Hload.
    + cbn. now rewrite Hload.
    + destruct (validContent (content message)) as [text|]; [|reflexivity].
      destruct (num_gtb _ _); [reflexivity|].
      destruct (scanPatterns _ _) as [matches st]. cbv zeta.
      destruct (float_geb _ (sync_threshold config)); [reflexivity|].
      destruct (float_geb _ 0.4); reflexivity.
Qed.

Lemma interceptAll_configuration (messages : list ChatMessage) :
  forall p, configuration (interceptAll messages p) = configuration p.
Proof.
  induction messages as [|message messages IH]; intros p; [reflexivity|].
  cbn [interceptAll fold_left]. fold (interceptAll messages).
  now rewrite IH, interceptMessage_configuration.
Qed.

(** A process that has just started, with an empty environment. *)
Definition freshProcess : Process :=
  {| env := []; cachedConfig := None; lastIndex := fun _ _ => 0;
     clock := fun n => (1767225600000 + Z.of_nat n)%Z; readings := 0; logged := [] |}.

(** A process that has served requests: whatever its environment now
    holds, the configuration is the one cached from the empty environment;
    its pattern objects are at indices some longer text left them at,
    several readings of the clock have been taken and lines have been
    logged. *)
Definition busyProcess : Process :=
  {| env := [("SYNC_THRESHOLD", lit "0.9")];
     cachedConfig := Some Scenarios.defaultConfig;
     lastIndex := fun _ i => 60 + i;
     clock := fun n => (1767229200000 + 40 * Z.of_nat n)%Z; readings := 12;
     logged :=
       [{| level := "debug"; log_message_id := lit "msg-000"; log_length := None;
           log_risk_score := Some 0%float; log_labels := None;
           log_processing_ms := Some 1%Z; msg := "Message allowed (clean)" |}] |}.

(** *** C9 *)

(** C9. [interceptMessage] is deterministic.  For two messages with the
    same content, whatever their other fields:
    - two calls made in any two states of the process in which
      [getConfig()] answers the same settle the same way, with the same
      result: the [lastIndex] the pattern objects were left with, the
      readings of the clock and the log have no part in it;
    - in particular a later call settles as an earlier one did, whatever
      calls were made in between. *)
Theorem interceptMessage_is_deterministic (m1 m2 : ChatMessage) :
  content m1 = content m2 ->
  (forall p1 p2 : Process,
      configuration p1 = configuration p2 ->
      fst (interceptMessage m1 p1) = fst (interceptMessage m2 p2))
  /\ (forall (p : Process) (between : list ChatMessage),
         fst (interceptMessage m2 (interceptAll between (snd (interceptMessage m1 p))))
         = fst (interceptMessage m1 p)).
Proof.
  intros Hcontent.
  assert (forall p1 p2 : Process,
             configuration p1 = configuration p2 ->
             fst (interceptMessage m1 p1) = fst (interceptMessage m2 p2)) as Hany.
  { intros p1 p2 Hcfg. rewrite !interceptMessage_refines, Hcfg.
    destruct (configuration p2) as [error | config]; [reflexivity|].
    f_equal. now apply ScorerFacts.interceptMessage_depends_on_content_only. }
  split; [exact Hany|].
  intros p between. symmetry. apply Hany.
  now rewrite interceptAll_configuration, interceptMessage_configuration.
Qed.

Lemma interceptMessage_is_deterministic_witness :
  fst (interceptMessage
         (Scenarios.chat "Check out my profile at https://example.com/profile")
         freshProcess)
  = fst (interceptMessage
           (Scenarios.chatElsewhere "Check out my profile at https://example.com/profile")
           busyProcess)
  /\ fst (interceptMessage
            (Scenarios.chatElsewhere "Check out my profile at https://example.com/profile")
            (interceptAll [Scenarios.chat "Call me at (555) 123-4567 for more details"]
               (snd (interceptMessage
                       (Scenarios.chat
                          "Check out my profile at https://example.com/profile")
                       freshProcess))))
     = fst (interceptMessage
              (Scenarios.chat "Check out my profile at https://example.com/profile")
              freshProcess).
Proof.
  destruct (interceptMessage_is_deterministic
              (Scenarios.chat "Check out my profile at https://example.com/profile")
              (Scenarios.chatElsewhere
                 "Check out my profile at https://example.com/profile")
              eq_refl) as [Hany Hlater].
  split.
  - apply Hany. vm_compute. reflexivity.
  - apply Hlater.
Defined.

End PurityFacts.

(* ================================================================== *)
(** * Further properties of the configuration                         *)
(* ================================================================== *)

Module ConfigProperties.
Import JS Types Config Scenarios.
Local Open Scope string_scope.

Lemma loadConfig_checks_numbers_witness :
  (is_nan (sync_threshold strictConfig) = true
   \/ PrimFloat.leb 0 (sync_threshold strictConfig)
      && PrimFloat.leb (sync_threshold strictConfig) 1 = true)
  /\ (forall z, redis_port strictConfig = Int z -> (1 <= z <= 65535)%Z)
  /\ (forall z, detection_port strictConfig = Int z -> (1 <= z <= 65535)%Z)
  /\ (forall z, circuit_breaker_threshold strictConfig = Int z -> (1 <= z)%Z)
  /\ (forall z, circuit_breaker_reset_ms strictConfig = Int z -> (1000 <= z)%Z)
  /\ (forall z, max_message_length strictConfig = Int z -> (1 <= z)%Z).
Proof.
  exact (ConfigFacts.loadConfig_checks_numbers strictEnv strictConfig
           ConfigFacts.loadConfig_strict).
Defined.

(** X15. The configuration is read once: after a first successful
    [getConfig], later calls return the same configuration whatever the
    environment has become; only after [resetConfig] is the environment
    read again. *)
Theorem configuration_is_read_once (env1 env2 : Env) (cfg : InterceptorConfig)
  (cache : option InterceptorConfig) :
  getConfig env1 None = (inr cfg, cache) ->
  getConfig env2 cache = (inr cfg, cache)
  /\ fst (getConfig env2 (resetConfig cache)) = loadConfig env2.
Proof.
  unfold getConfig, resetConfig. intros H.
  destruct (loadConfig env1) as [e | c]; [discriminate|].
  injection H as <- <-. split; [reflexivity|].
  destruct (loadConfig env2); reflexivity.
Qed.

Lemma configuration_is_read_once_witness :
  getConfig strictEnv (Some defaultConfig) = (inr defaultConfig, Some defaultConfig)
  /\ fst (getConfig strictEnv (resetConfig (Some defaultConfig))) = loadConfig strictEnv.
Proof.
  apply (configuration_is_read_once [] strictEnv defaultConfig (Some defaultConfig)).
  vm_compute. reflexivity.
Defined.

(** The variables [loadConfig] reads. *)
Definition tunables : list string :=
  ["SYNC_THRESHOLD"; "REDIS_HOST"; "REDIS_PORT"; "DETECTION_HOST"; "DETECTION_PORT";
   "CIRCUIT_BREAKER_THRESHOLD"; "CIRCUIT_BREAKER_RESET_MS"; "MAX_MESSAGE_LENGTH"].

Definition unsetOrEmpty (env : Env) (name : string) : bool :=
  match process_env env name with
  | None | Some [] => true
  | Some (_ :: _) => false
  end.

Lemma env_or_default (env : Env) (name default : string) :
  unsetOrEmpty env name = true -> env_or env name default = lit default.
Proof.
  unfold unsetOrEmpty, env_or. destruct (process_env env name) as [[|c v]|];
    [reflexivity | discriminate | reflexivity].
Qed.

(** X16. A variable that is unset and a variable set to the empty string
    are the same to [loadConfig]: when each of the eight variables is one
    or the other, the default configuration is returned, whatever else the
    environment holds. *)
Theorem unset_or_empty_variables_give_defaults (env : Env) :
  forallb (unsetOrEmpty env) tunables = true ->
  loadConfig env = inr defaultConfig.
Proof.
  intros H. cbn [forallb tunables] in H.
  repeat match type of H with
         | (_ && _)%bool = true => apply andb_true_iff in H; destruct H as [? H]
         end.
  unfold loadConfig, readConfig.
  rewrite !env_or_default by assumption.
  vm_compute. reflexivity.
Qed.

Lemma unset_or_empty_variables_give_defaults_witness :
  loadConfig [("SYNC_THRESHOLD", []); ("NODE_ENV", lit "production"); ("REDIS_PORT", [])]
  = inr defaultConfig.
Proof.
  apply unset_or_empty_variables_give_defaults. vm_compute. reflexivity.
Defined.


(** ** Numeric variables *)

Lemma digit_not_space (c : code_unit) : isDigit c = true -> isWhiteSpace c = false.
Proof.
  unfold isDigit, between. intros H. apply andb_true_iff in H. destruct H as [H1 H2].
  apply N.leb_le in H1, H2.
  unfold isWhiteSpace, isLineTerminator, between. cbn [existsb].
  repeat match goal with
         | |- context [N.eqb c ?k] => destruct (N.eqb_spec c k); [lia|]
         end.
  cbn [orb]. destruct (N.leb_spec 8192 c); [lia | reflexivity].
Qed.

Lemma digitsValue_app (ds junk : jsstring) :
  forallb isDigit ds = true ->
  match junk with c :: _ => isDigit c = false | [] => True end ->
  forall acc, digitsValue acc (ds ++ junk)%list = digitsValue acc ds.
Proof.
  intros Hds Hjunk. induction ds as [|d ds IH]; intros acc.
  - cbn. destruct junk as [|c junk]; [reflexivity|]. cbn. now rewrite Hjunk.
  - cbn in Hds. apply andb_true_iff in Hds. destruct Hds as [Hd Hds].
    cbn [app digitsValue]. rewrite Hd. now apply IH.
Qed.

(** [parseInt] reads the leading digits and ignores what follows them. *)
Lemma parseInt_leading_digits (d : code_unit) (ds junk : jsstring) :
  forallb isDigit (d :: ds) = true ->
  match junk with c :: _ => isDigit c = false | [] => True end ->
  parseInt ((d :: ds) ++ junk)%list = Int (digitsValue 0 (d :: ds)).
Proof.
  intros Hds Hjunk.
  assert (isDigit d = true) as Hd by (cbn in Hds; now apply andb_true_iff in Hds).
  unfold parseInt. cbn [app trimStart]. rewrite (digit_not_space d Hd).
  assert (readSign (d :: (ds ++ junk)%list) = (false, d :: (ds ++ junk)%list)) as ->.
  { unfold readSign. unfold isDigit, between in Hd. apply andb_true_iff in Hd.
    destruct Hd as [H1 H2]. apply N.leb_le in H1, H2.
    destruct (N.eqb_spec d 45); [lia|]. destruct (N.eqb_spec d 43); [lia|]. reflexivity. }
  rewrite Hd. f_equal.
  exact (digitsValue_app (d :: ds) junk Hds Hjunk 0%Z).
Qed.

(** X17. A numeric variable is read up to its first character that is not
    a digit: when [MAX_MESSAGE_LENGTH] starts with digits that spell a number
    of at most 2^53, the limit that [loadConfig] returns is that number,
    whatever text follows the digits.  Up to 2^53 every integer is a double,
    so the integer of the model is the number JavaScript computes; beyond it
    [parseInt] rounds, and nothing is stated. *)
Theorem text_after_the_digits_is_ignored (env : Env) (cfg : InterceptorConfig)
  (d : code_unit) (ds junk : jsstring) :
  process_env env "MAX_MESSAGE_LENGTH" = Some ((d :: ds) ++ junk)%list ->
  forallb isDigit (d :: ds) = true ->
  (digitsValue 0 (d :: ds) <= 2 ^ 53)%Z ->
  match junk with c :: _ => isDigit c = false | [] => True end ->
  loadConfig env = inr cfg ->
  max_message_length cfg = Int (digitsValue 0 (d :: ds)).
Proof.
  intros Henv Hds _ Hjunk Hload.
  destruct (ScorerFacts.loadConfig_accepts env cfg Hload) as [-> _].
  unfold readConfig. cbn [max_message_length]. unfold env_or. rewrite Henv.
  cbn [app]. change (d :: (ds ++ junk)%list) with ((d :: ds) ++ junk)%list.
  exact (parseInt_leading_digits d ds junk Hds Hjunk).
Qed.

Lemma text_after_the_digits_is_ignored_witness :
  loadConfig [("MAX_MESSAGE_LENGTH", lit "250 characters")]
  = inr {| sync_threshold := 0.65;
           redis_host := lit "localhost";
           redis_port := Int 6379;
           detection_host := lit "localhost";
           detection_port := Int 8000;
           circuit_breaker_threshold := Int 5;
           circuit_breaker_reset_ms := Int 30000;
           max_message_length := Int 250 |}
  /\ max_message_length
       {| sync_threshold := 0.65;
          redis_host := lit "localhost";
          redis_port := Int 6379;
          detection_host := lit "localhost";
          detection_port := Int 8000;
          circuit_breaker_threshold := Int 5;
          circuit_breaker_reset_ms := Int 30000;
          max_message_length := Int 250 |}
     = Int 250.
Proof.
  split; [vm_compute; reflexivity|].
  apply (text_after_the_digits_is_ignored
           [("MAX_MESSAGE_LENGTH", lit "250 characters")] _
           50%N (lit "50") (lit " characters"));
    [reflexivity | reflexivity | vm_compute; discriminate | reflexivity|].
  vm_compute. reflexivity.
Defined.

End ConfigProperties.

(* ================================================================== *)
(** * Further properties of the circuit breaker                       *)
(* ================================================================== *)

Module BreakerProperties.
Import JS CircuitBreaker BreakerFacts.
Local Open Scope Z_scope.

Section AnyRun.

Variable W : Type.
Variable Date_now : W -> Z.
Variables T E : Type.

(** What holds of a breaker with threshold [n] and [h] half-open attempts
    between two calls of [execute]. *)
Definition consistent (n h : Z) (cb : CircuitBreaker) : Prop :=
  0 <= failureCount cb
  /\ match state cb with
     | CLOSED => failureCount cb < n /\ successCount cb = 0
     | OPEN => n <= failureCount cb /\ successCount cb = 0
     | HALF_OPEN => n <= failureCount cb /\ 0 <= successCount cb < h
     end.

Lemma onSuccess_config (cb : CircuitBreaker) : config (onSuccess cb) = config cb.
Proof.
  unfold onSuccess, set_state, set_failureCount, set_successCount.
  destruct (state cb); cbn;
    repeat match goal with |- context [if ?b then _ else _] => destruct b end;
    reflexivity.
Qed.

Lemma onFailure_config (t : Z) (cb : CircuitBreaker) : config (onFailure t cb) = config cb.
Proof.
  unfold onFailure, set_state, set_failureCount, set_successCount, set_lastFailureTime.
  cbn. destruct (state cb); cbn;
    repeat match goal with |- context [if ?b then _ else _] => destruct b end;
    reflexivity.
Qed.

Lemma checkOpen_config (cb cb' : CircuitBreaker) (w : W) :
  checkOpen Date_now cb w = inr cb' -> config cb' = config cb.
Proof.
  unfold checkOpen. destruct (state cb).
  - now intros [= <-].
  - destruct (num_geb _ _); [|discriminate]. now intros [= <-].
  - now intros [= <-].
Qed.

Lemma execute_config (cb : CircuitBreaker) (fn : operation W T E) (w : W) :
  config (snd (fst (execute Date_now cb fn w))) = config cb.
Proof.
  unfold execute. destruct (checkOpen Date_now cb w) as [[] | cb1] eqn:Hc; [reflexivity|].
  apply checkOpen_config in Hc.
  destruct (_ && _)%bool; [exact Hc|].
  destruct (fn w) as [[v | e] w']; cbn [fst snd].
  - now rewrite onSuccess_config.
  - now rewrite onFailure_config.
Qed.

Lemma run_config (fns : list (operation W T E)) :
  forall cb w, config (fst (run Date_now fns (cb, w))) = config cb.
Proof.
  induction fns as [|fn fns IH]; intros cb w; [reflexivity|].
  rewrite run_cons. unfold step at 1. cbn [fst snd]. rewrite IH. apply execute_config.
Qed.

Lemma onSuccess_consistent (n h : Z) (cb : CircuitBreaker) :
  1 <= n -> r_halfOpenMaxAttempts (config cb) = Int h ->
  state cb <> OPEN -> consistent n h cb -> consistent n h (onSuccess cb).
Proof.
  intros Hn Hh Hopen [H0 Hs]. destruct (state cb) eqn:Hst; [| contradiction |].
  - unfold onSuccess. rewrite Hst.
    destruct (0 <? failureCount cb); unfold consistent, set_failureCount; cbn;
      rewrite ?Hst; cbn; lia.
  - rewrite (onSuccess_half_open h cb Hst Hh).
    destruct (Z.leb_spec h (successCount cb + 1)); unfold consistent; cbn; lia.
Qed.

Lemma onFailure_consistent (n h : Z) (t : Z) (cb : CircuitBreaker) :
  r_threshold (config cb) = Int n ->
  state cb <> OPEN -> consistent n h cb -> consistent n h (onFailure t cb).
Proof.
  intros Hn Hopen [H0 Hs]. destruct (state cb) eqn:Hst; [| contradiction |].
  - rewrite (onFailure_closed t n cb Hst Hn).
    destruct (Z.leb_spec n (failureCount cb + 1)); unfold consistent; cbn; lia.
  - rewrite (onFailure_half_open t cb Hst). unfold consistent; cbn. lia.
Qed.

(** The breaker with which [execute] goes on after its first block is
    not OPEN and is consistent, with room for one more half-open attempt. *)
Lemma checkOpen_consistent (n h : Z) (cb cb1 : CircuitBreaker) (w : W) :
  1 <= h -> r_halfOpenMaxAttempts (config cb) = Int h ->
  consistent n h cb ->
  checkOpen Date_now cb w = inr cb1 ->
  consistent n h cb1 /\ state cb1 <> OPEN
  /\ CircuitState_eqb (state cb1) HALF_OPEN
     && num_geb (Int (successCount cb1)) (r_halfOpenMaxAttempts (config cb1)) = false.
Proof.
  intros Hh1 Hh [H0 Hs] Hc. unfold checkOpen in Hc.
  destruct (state cb) eqn:Hst.
  - injection Hc as <-. split; [split; [exact H0 | now rewrite Hst]|].
    rewrite Hst. split; [discriminate | reflexivity].
  - destruct (num_geb _ _); [|discriminate]. injection Hc as <-.
    unfold consistent, set_successCount, set_state. cbn. rewrite Hh. cbn.
    split; [lia|]. split; [discriminate|]. apply Z.leb_gt. lia.
  - injection Hc as <-. split; [split; [exact H0 | now rewrite Hst]|].
    rewrite Hst, Hh. split; [discriminate|]. cbn. apply Z.leb_gt. lia.
Qed.

Lemma execute_consistent (n h : Z) (cb : CircuitBreaker) (fn : operation W T E) (w : W) :
  1 <= n -> 1 <= h ->
  r_threshold (config cb) = Int n -> r_halfOpenMaxAttempts (config cb) = Int h ->
  consistent n h cb ->
  consistent n h (snd (fst (execute Date_now cb fn w))).
Proof.
  intros Hn1 Hh1 Hn Hh Hcb. unfold execute.
  destruct (checkOpen Date_now cb w) as [[] | cb1] eqn:Hc; [exact Hcb|].
  pose proof (checkOpen_config cb cb1 w Hc) as Hcfg.
  destruct (checkOpen_consistent n h cb cb1 w Hh1 Hh Hcb Hc) as (Hcb1 & Hopen & ->).
  destruct (fn w) as [[v | e] w']; cbn [fst snd].
  - apply onSuccess_consistent; try assumption. now rewrite Hcfg.
  - apply onFailure_consistent; try assumption. now rewrite Hcfg.
Qed.

Lemma run_consistent (n h : Z) (fns : list (operation W T E)) :
  1 <= n -> 1 <= h ->
  forall cb w,
    r_threshold (config cb) = Int n -> r_halfOpenMaxAttempts (config cb) = Int h ->
    consistent n h cb ->
    consistent n h (fst (run Date_now fns (cb, w))).
Proof.
  intros Hn1 Hh1. induction fns as [|fn fns IH]; intros cb w Hn Hh Hcb; [exact Hcb|].
  rewrite run_cons. unfold step at 1. cbn [fst snd].
  apply IH; rewrite ?execute_config; try assumption.
  now apply execute_consistent.
Qed.

Lemma new_consistent (cfg : CircuitBreakerConfig) (n h : Z) :
  1 <= n -> consistent n h (new cfg).
Proof. intros Hn. unfold consistent. cbn. lia. Qed.

(** X18. Between calls, whatever the operations did: a CLOSED breaker has
    counted fewer failures than the threshold, an OPEN or HALF_OPEN one at
    least as many; the success count is below [halfOpenMaxAttempts] while
    HALF_OPEN and zero otherwise; the configuration is the one it was built
    with. *)
Theorem breaker_counters_stay_consistent (cfg : CircuitBreakerConfig) (n h : Z)
  (fns : list (operation W T E)) (w : W) :
  threshold cfg = Int n ->
  r_halfOpenMaxAttempts (config (new cfg)) = Int h ->
  1 <= n -> 1 <= h ->
  config (fst (run Date_now fns (new cfg, w))) = config (new cfg)
  /\ 0 <= failureCount (fst (run Date_now fns (new cfg, w)))
  /\ match state (fst (run Date_now fns (new cfg, w))) with
     | CLOSED =>
         failureCount (fst (run Date_now fns (new cfg, w))) < n
         /\ successCount (fst (run Date_now fns (new cfg, w))) = 0
     | OPEN =>
         n <= failureCount (fst (run Date_now fns (new cfg, w)))
         /\ successCount (fst (run Date_now fns (new cfg, w))) = 0
     | HALF_OPEN =>
         n <= failureCount (fst (run Date_now fns (new cfg, w)))
         /\ 0 <= successCount (fst (run Date_now fns (new cfg, w))) < h
     end.
Proof.
  intros Hn Hh Hn1 Hh1. split; [apply run_config|].
  exact (run_consistent n h fns Hn1 Hh1 (new cfg) w Hn Hh (new_consistent cfg n h Hn1)).
Qed.

(** X19. A breaker that has only been used through [execute] refuses a call
    in one situation only: it is OPEN and the reset timeout has not elapsed
    since the last failure.  Nothing changes then.  The second early return
    (HALF_OPEN with its attempts used up) is never taken. *)
Theorem refusal_only_while_cooling (cfg : CircuitBreakerConfig) (n h : Z)
  (fns : list (operation W T E)) (w0 : W) (fn : operation W T E) (w w' : W)
  (cb' : CircuitBreaker) :
  threshold cfg = Int n ->
  r_halfOpenMaxAttempts (config (new cfg)) = Int h ->
  1 <= n -> 1 <= h ->
  execute Date_now (fst (run Date_now fns (new cfg, w0))) fn w = (Resolved None, cb', w') ->
  state (fst (run Date_now fns (new cfg, w0))) = OPEN
  /\ num_geb (Int (Date_now w - lastFailureTime (fst (run Date_now fns (new cfg, w0)))))
       (resetTimeout cfg) = false
  /\ cb' = fst (run Date_now fns (new cfg, w0))
  /\ w' = w.
Proof.
  intros Hn Hh Hn1 Hh1.
  pose proof (run_consistent n h fns Hn1 Hh1 (new cfg) w0 Hn Hh (new_consistent cfg n h Hn1))
    as Hcb.
  pose proof (run_config fns (new cfg) w0) as Hcfg.
  set (cb := fst (run Date_now fns (new cfg, w0))) in *.
  assert (r_halfOpenMaxAttempts (config cb) = Int h) as Hh' by (now rewrite Hcfg).
  unfold execute.
  destruct (checkOpen Date_now cb w) as [[] | cb1] eqn:Hc.
  - intros [= <- <-]. unfold checkOpen in Hc.
    destruct (state cb); try discriminate.
    destruct (num_geb _ _) eqn:Ht; [discriminate|].
    rewrite Hcfg in Ht. auto.
  - destruct (checkOpen_consistent n h cb cb1 w Hh1 Hh' Hcb Hc) as (_ & _ & ->).
    destruct (fn w) as [[v | e] w1]; discriminate.
Qed.

Lemma run_app (fns1 fns2 : list (operation W T E)) (s : CircuitBreaker * W) :
  run Date_now (fns1 ++ fns2) s = run Date_now fns2 (run Date_now fns1 s).
Proof. unfold run. apply fold_left_app. Qed.

(** X20. A success while CLOSED forgets the failures before it: fewer than
    [n] failures, one success and again fewer than [n] failures leave the
    breaker CLOSED, however many failures that makes in total. *)
Theorem success_forgets_earlier_failures (cfg : CircuitBreakerConfig) (n : Z)
  (before after : list (operation W T E)) (ok : operation W T E) (w : W) :
  threshold cfg = Int n ->
  Forall rejects before -> Z.of_nat (List.length before) < n ->
  resolves ok ->
  Forall rejects after -> Z.of_nat (List.length after) < n ->
  state (fst (run Date_now (before ++ ok :: after) (new cfg, w))) = CLOSED.
Proof.
  intros Hn Hbefore Hlen1 Hok Hafter Hlen2.
  rewrite run_app, run_cons.
  destruct (run Date_now before (new cfg, w)) as [cb1 w1] eqn:Hrun1.
  pose proof (closed_failures W Date_now T E n before Hbefore (new cfg) w eq_refl Hn) as H1.
  cbn [failureCount new] in H1. specialize (H1 ltac:(lia) ltac:(lia)).
  rewrite Hrun1 in H1. cbn [fst] in H1. destruct H1 as [Hfc1 Hst1].
  replace (0 + Z.of_nat (List.length before) <? n) with true in Hst1
    by (symmetry; apply Z.ltb_lt; lia).
  pose proof (run_config before (new cfg) w) as Hcfg1. rewrite Hrun1 in Hcfg1.
  cbn [fst] in Hcfg1.
  destruct (step_resolve W Date_now T E cb1 w1 ok (or_introl Hst1) Hok) as [w2 ->].
  assert (state (onSuccess cb1) = CLOSED /\ failureCount (onSuccess cb1) = 0
          /\ config (onSuccess cb1) = config cb1) as (Hst2 & Hfc2 & Hcfg2).
  { unfold onSuccess. rewrite Hst1.
    destruct (Z.ltb_spec 0 (failureCount cb1)); cbn; rewrite ?Hst1; repeat split; lia. }
  pose proof (closed_failures W Date_now T E n after Hafter (onSuccess cb1) w2 Hst2) as H2.
  rewrite Hcfg2, Hcfg1, Hfc2 in H2. specialize (H2 Hn ltac:(lia) ltac:(lia)).
  destruct H2 as [_ ->].
  apply Z.ltb_lt in Hlen2. now rewrite Z.add_0_l, Hlen2.
Qed.

(** X21. With a threshold that is NaN the breaker never opens, whatever
    fails and however often: [failureCount >= NaN] never holds. *)
Theorem nan_threshold_never_opens (cfg : CircuitBreakerConfig)
  (fns : list (operation W T E)) (w : W) :
  threshold cfg = NaN ->
  state (fst (run Date_now fns (new cfg, w))) = CLOSED.
Proof.
  intros Hn.
  enough (forall cb w, state cb = CLOSED -> r_threshold (config cb) = NaN ->
                       state (fst (run Date_now fns (cb, w))) = CLOSED) as H
    by (apply H; [reflexivity | exact Hn]).
  induction fns as [|fn fns IH]; intros cb w0 Hst Hthr; [exact Hst|].
  rewrite run_cons. unfold step at 1. cbn [fst snd].
  rewrite (execute_invokes W Date_now T E cb fn w0 (or_introl Hst)).
  destruct (fn w0) as [[v | e] w1]; cbn [fst snd]; apply IH.
  - unfold onSuccess. rewrite Hst. destruct (0 <? _); cbn; now rewrite ?Hst.
  - now rewrite onSuccess_config.
  - unfold onFailure. cbn. rewrite Hst, Hthr. cbn. exact Hst.
  - now rewrite onFailure_config.
Qed.

(** X22. With a reset timeout that is NaN an OPEN breaker stays OPEN for
    good: every later call is refused and no operation is run again, at
    whatever time. *)
Theorem nan_reset_timeout_never_recovers (cb : CircuitBreaker)
  (fns : list (operation W T E)) (w : W) :
  r_resetTimeout (config cb) = NaN ->
  state cb = OPEN ->
  run Date_now fns (cb, w) = (cb, w).
Proof.
  intros Hr Hst. induction fns as [|fn fns IH]; [reflexivity|].
  rewrite run_cons. unfold step. cbn [fst snd].
  rewrite (execute_open_waiting W Date_now T E cb fn w Hst) by now rewrite Hr.
  exact IH.
Qed.

(** X23. [reset] after any sequence of calls gives back the breaker as it
    was constructed. *)
Theorem reset_restores_a_new_breaker (cfg : CircuitBreakerConfig)
  (fns : list (operation W T E)) (w : W) :
  reset (fst (run Date_now fns (new cfg, w))) = new cfg.
Proof.
  pose proof (run_config fns (new cfg) w) as H.
  unfold reset, set_lastFailureTime, set_successCount, set_failureCount, set_state.
  cbn. rewrite H. reflexivity.
Qed.

End AnyRun.

(** A backend call that takes 10 ms and succeeds. *)
Definition backendUp (t : Z) : Outcome nat string * Z := (Resolved 1%nat, t + 10).

Lemma backendUp_resolves : resolves backendUp.
Proof. intros t. exists 1%nat, (t + 10). reflexivity. Qed.

Definition serviceBreaker : CircuitBreakerConfig := mkConfig (Int 5) (Int 30000) (Some (Int 3)).


(** Five failed calls from time 0, 10 ms each. *)
Definition outage : CircuitBreaker :=
  fst (run (fun t => t) (repeat (@backendDown nat) 5) (new serviceBreaker, 0)).

Lemma breaker_counters_stay_consistent_witness :
  config outage = config (new serviceBreaker)
  /\ 0 <= failureCount outage
  /\ 5 <= failureCount outage /\ successCount outage = 0.
Proof.
  pose proof (breaker_counters_stay_consistent Z (fun t => t) nat string serviceBreaker 5 3
                (repeat backendDown 5) 0 eq_refl eq_refl ltac:(lia) ltac:(lia))
    as (H1 & H2 & H3).
  fold outage in H1, H2, H3.
  change (state outage) with OPEN in H3. auto.
Defined.

Lemma refusal_only_while_cooling_witness :
  state outage = OPEN
  /\ num_geb (Int (100 - lastFailureTime outage)) (Int 30000) = false.
Proof.
  destruct (refusal_only_while_cooling Z (fun t => t) nat string serviceBreaker 5 3
              (repeat backendDown 5) 0 backendUp 100 100 outage
              eq_refl eq_refl ltac:(lia) ltac:(lia) ltac:(vm_compute; reflexivity))
    as (H1 & H2 & _).
  split; assumption.
Defined.

Lemma success_forgets_earlier_failures_witness :
  state (fst (run (fun t => t)
                (repeat backendDown 4 ++ backendUp :: repeat backendDown 4)
                (new serviceBreaker, 0))) = CLOSED.
Proof.
  apply (success_forgets_earlier_failures Z (fun t => t) nat string serviceBreaker 5
           (repeat backendDown 4) (repeat backendDown 4) backendUp 0 eq_refl).
  - repeat constructor; apply (backendDown_rejects nat).
  - cbn; lia.
  - exact backendUp_resolves.
  - repeat constructor; apply (backendDown_rejects nat).
  - cbn; lia.
Defined.

Lemma nan_threshold_never_opens_witness :
  state (fst (run (fun t => t) (repeat (@backendDown nat) 100)
                (new (mkConfig NaN (Int 30000) (Some (Int 3))), 0))) = CLOSED.
Proof.
  apply (nan_threshold_never_opens Z (fun t => t) nat string). reflexivity.
Defined.

Lemma nan_reset_timeout_never_recovers_witness :
  run (fun t => t) [backendUp; backendUp; backendUp]
    (mkBreaker OPEN 5 0 50 (mkRequired (Int 5) NaN (Int 3)), 1000000000)
  = (mkBreaker OPEN 5 0 50 (mkRequired (Int 5) NaN (Int 3)), 1000000000).
Proof.
  apply (nan_reset_timeout_never_recovers Z (fun t => t) nat string); reflexivity.
Defined.

End BreakerProperties.

(* ================================================================== *)
(** * Further properties of the dispatcher                            *)
(* ================================================================== *)

Module DispatcherProperties.
Import JS Types CircuitBreaker Dispatcher Scenarios DispatcherFacts HealthServer.
Import Interceptor(interceptMessage).
Local Open Scope string_scope.

(** The frames of a connection, handled one after the other. *)
Definition handleAll (cfg : InterceptorConfig) (frames : list Frame)
  (s : InterceptorService * World) : InterceptorService * World :=
  fold_left (fun s data => handleMessage cfg (fst s) data (snd s)) frames s.

(** The reply to a request, with a given result. *)
Definition replyWith (request : InterceptorRequest) (w : World) (r : InterceptResult)
  (ms : Z) : Response :=
  Reply {| resp_type := "intercept_result"; resp_request_id := requestIdOf request w;
           result := r; processing_ms := ms |}.

(** X24. Every frame is answered exactly once (the socket accepting what
    is sent), in one of three ways: an error response and nothing else;
    the fail-open result, emitted and sent, without a scorer call; or one
    scorer call whose result is emitted and sent.  What is emitted to the
    stream is what the client is sent. *)
Theorem every_frame_is_answered_once (cfg : InterceptorConfig) (svc : InterceptorService)
  (data : Frame) (w : World) :
  (exists e,
      handleMessage cfg svc data w = (svc, record (Sent (Failure e)) w))
  \/ (exists request m,
         data = Parsed request /\ validRequest request m
         /\ events (snd (handleMessage cfg svc data w))
            = (events w
               ++ [Emitted m breakerOpenResult;
                   Sent (replyWith request w breakerOpenResult 0)])%list)
  \/ (exists request m,
         data = Parsed request /\ validRequest request m
         /\ events (snd (handleMessage cfg svc data w))
            = (events w
               ++ [Scored m; Emitted m (interceptMessage cfg m);
                   Sent (replyWith request w (interceptMessage cfg m) (latency w))])%list).
Proof.
  destruct data as [|request]; [left; eexists; reflexivity|].
  unfold handleMessage.
  destruct (isIntercept (type request)) eqn:Ht; cbn [negb]; [|left; eexists; reflexivity].
  destruct (message request) as [m|] eqn:Hm; [|left; eexists; reflexivity].
  destruct (truthy (content m)) eqn:Hc; cbn [negb]; [|left; eexists; reflexivity].
  assert (validRequest request m) as Hv.
  { repeat split; try assumption. unfold isIntercept in Ht.
    destruct (type request) as [| | | |s|]; try discriminate.
    destruct (jsstring_eq_dec s (lit "intercept")) as [-> |]; [reflexivity | discriminate]. }
  right.
  destruct (execute_scorerCall cfg (circuitBreaker svc) m w) as [[cb' ->] | [cb' ->]].
  - left. exists request, m. split; [reflexivity|]. split; [exact Hv|].
    cbn. unfold replyWith, requestIdOf, Date_now. rewrite Z.sub_diag, <- app_assoc.
    reflexivity.
  - right. exists request, m. split; [reflexivity|]. split; [exact Hv|].
    cbn. unfold replyWith, requestIdOf, Date_now.
    replace (now w + latency w - now w)%Z with (latency w) by lia.
    rewrite <- !app_assoc. reflexivity.
Qed.


(** What handling a valid request does when the breaker lets the call
    through. *)
Lemma handleMessage_invokes (cfg : InterceptorConfig) (svc : InterceptorService)
  (request : InterceptorRequest) (m : ChatMessage) (w : World) :
  validRequest request m ->
  state (circuitBreaker svc) = CLOSED
  \/ (state (circuitBreaker svc) = HALF_OPEN
      /\ num_geb (Int (successCount (circuitBreaker svc)))
           (r_halfOpenMaxAttempts (config (circuitBreaker svc))) = false) ->
  handleMessage cfg svc (Parsed request) w
  = (mkService (onSuccess (circuitBreaker svc)),
     mkWorld (now w + latency w) (latency w) (uuid w)
       (events w
        ++ [Scored m; Emitted m (interceptMessage cfg m);
            Sent (replyWith request w (interceptMessage cfg m) (latency w))])).
Proof.
  intros Hv Hs. rewrite (handleMessage_valid cfg svc request m w Hv).
  rewrite (BreakerFacts.execute_invokes World Date_now InterceptResult string
             (circuitBreaker svc) (scorerCall cfg m) w Hs).
  destruct (scorerCall cfg m w) as [[r | e] w1] eqn:Hcall; unfold scorerCall in Hcall;
    [|discriminate].
  injection Hcall as <- <-.
  cbn. unfold replyWith, Date_now.
  replace (now w + latency w - now w)%Z with (latency w) by lia.
  unfold ws_send, emitAsync, elapse, record. cbn [now latency uuid events].
  rewrite <- !app_assoc. reflexivity.
Qed.

(** X25. With a CLOSED breaker a valid request gets the scorer's own
    verdict: the message is scored once, the result is emitted and sent
    under the request's identifier (a fresh one if it has none), the
    reported processing time is the time the call took, and the breaker
    stays CLOSED with no failure counted. *)
Theorem closed_breaker_is_transparent (cfg : InterceptorConfig) (svc : InterceptorService)
  (request : InterceptorRequest) (m : ChatMessage) (w : World) :
  validRequest request m ->
  state (circuitBreaker svc) = CLOSED ->
  (0 <= failureCount (circuitBreaker svc))%Z ->
  handleMessage cfg svc (Parsed request) w
  = (mkService
       {| state := CLOSED; failureCount := 0;
          successCount := successCount (circuitBreaker svc);
          lastFailureTime := lastFailureTime (circuitBreaker svc);
          config := config (circuitBreaker svc) |},
     mkWorld (now w + latency w) (latency w) (uuid w)
       (events w
        ++ [Scored m; Emitted m (interceptMessage cfg m);
            Sent (replyWith request w (interceptMessage cfg m) (latency w))])).
Proof.
  intros Hv Hs Hfc. rewrite (handleMessage_invokes cfg svc request m w Hv (or_introl Hs)).
  do 2 f_equal. unfold onSuccess. rewrite Hs.
  destruct (circuitBreaker svc) as [st fc sc lft c]. cbn in *. subst st.
  destruct (Z.ltb_spec 0 fc); [reflexivity|]. f_equal. lia.
Qed.

Lemma closed_breaker_is_transparent_witness :
  handleMessage defaultConfig (newService defaultConfig) (Parsed phoneRequest) (worldAt 1000)
  = (newService defaultConfig,
     mkWorld 1002 2 (uuid (worldAt 1000))
       [Scored (chat "Call me at (555) 123-4567 for more details");
        Emitted (chat "Call me at (555) 123-4567 for more details")
          (interceptMessage defaultConfig
             (chat "Call me at (555) 123-4567 for more details"));
        Sent (replyWith phoneRequest (worldAt 1000)
                (interceptMessage defaultConfig
                   (chat "Call me at (555) 123-4567 for more details")) 2)]).
Proof.
  apply (closed_breaker_is_transparent defaultConfig (newService defaultConfig) phoneRequest
           (chat "Call me at (555) 123-4567 for more details") (worldAt 1000));
    [repeat split | reflexivity | cbn; lia].
Defined.

Lemma handleAll_keeps_closed (cfg : InterceptorConfig) (frames : list Frame) :
  forall svc w,
    state (circuitBreaker svc) = CLOSED ->
    state (circuitBreaker (fst (handleAll cfg frames (svc, w)))) = CLOSED.
Proof.
  induction frames as [|data frames IH]; intros svc w Hs; [exact Hs|].
  unfold handleAll. cbn [fold_left fst snd].
  destruct (handleMessage cfg svc data w) as [svc' w'] eqn:Hh.
  apply (IH svc' w'). change svc' with (fst (svc', w')). rewrite <- Hh.
  now apply handleMessage_keeps_closed.
Qed.

(** X26. A started service that has only handled frames reports healthy:
    the scorer never rejects, so the breaker of a new service stays CLOSED
    whatever arrives on the socket, and the health check answers 200
    whether or not Redis is connected. *)
Theorem handling_frames_keeps_the_service_healthy (cfg : InterceptorConfig)
  (frames : list Frame) (w : World) (ep : Endpoints) (now : Z) :
  wss ep <> None ->
  statusCode
    (handleHealthCheck (fst (handleAll cfg frames (newService cfg, w))) ep now) = 200%Z.
Proof.
  intros Hwss. unfold handleHealthCheck, getState.
  rewrite (handleAll_keeps_closed cfg frames (newService cfg) w eq_refl).
  destruct (wss ep); [reflexivity | contradiction].
Qed.

Lemma handling_frames_keeps_the_service_healthy_witness :
  statusCode
    (handleHealthCheck
       (fst (handleAll defaultConfig [Unparseable; Parsed phoneRequest; Parsed emptyRequest]
               (newService defaultConfig, worldAt 0)))
       (start (mkEndpoints None false (AsyncEmitter.new false))) 5000) = 200%Z.
Proof.
  apply handling_frames_keeps_the_service_healthy. discriminate.
Defined.


Lemma handleMessage_probe (cfg : InterceptorConfig) (svc : InterceptorService)
  (request : InterceptorRequest) (m : ChatMessage) (w : World) :
  validRequest request m ->
  state (circuitBreaker svc) = OPEN ->
  num_geb (Int (now w - lastFailureTime (circuitBreaker svc)))
    (r_resetTimeout (config (circuitBreaker svc))) = true ->
  handleMessage cfg svc (Parsed request) w
  = handleMessage cfg (mkService (BreakerFacts.probe (circuitBreaker svc)))
      (Parsed request) w.
Proof.
  intros Hv Hs Ht. rewrite !(handleMessage_valid cfg _ request m w Hv).
  cbn [circuitBreaker].
  now rewrite (BreakerFacts.execute_open_elapsed World Date_now InterceptResult string
                 (circuitBreaker svc) (scorerCall cfg m) w Hs Ht).
Qed.

(** A probe that succeeds: one more success is counted, and the one that
    reaches [h] closes the breaker. *)
Lemma probe_step (cfg : InterceptorConfig) (cb : CircuitBreaker)
  (request : InterceptorRequest) (m : ChatMessage) (w : World) (h : Z) :
  validRequest request m ->
  state cb = HALF_OPEN ->
  r_halfOpenMaxAttempts (config cb) = Int h ->
  (successCount cb < h)%Z ->
  fst (handleMessage cfg (mkService cb) (Parsed request) w)
  = mkService
      (if (h <=? successCount cb + 1)%Z
       then mkBreaker CLOSED 0 0 (lastFailureTime cb) (config cb)
       else mkBreaker HALF_OPEN (failureCount cb) (successCount cb + 1)
              (lastFailureTime cb) (config cb)).
Proof.
  intros Hv Hs Hh Hlt.
  rewrite (handleMessage_invokes cfg _ request m w Hv).
  2:{ right. cbn [circuitBreaker]. rewrite Hh. split; [exact Hs|]. cbn. now apply Z.leb_gt. }
  cbn [fst circuitBreaker]. now rewrite (BreakerFacts.onSuccess_half_open h cb Hs Hh).
Qed.

(** The breaker of the service once the frames have been handled. *)
Definition breakerAfter (cfg : InterceptorConfig) (frames : list Frame)
  (svc : InterceptorService) (w : World) : CircuitBreaker :=
  circuitBreaker (fst (handleAll cfg frames (svc, w))).

(** X27. Recovery through the socket: once the reset timeout has elapsed,
    the next three valid requests are scored as probes (the service builds
    its breaker with three half-open attempts).  The first leaves the
    breaker HALF_OPEN with one success counted, the second HALF_OPEN with
    two, and the third is the one that closes it, both counters cleared;
    the failure count and the time of the last failure are untouched until
    then.  The health check answers 503 before the first request and 200
    after each of the three, a HALF_OPEN breaker counting as healthy. *)
Theorem three_probes_close_the_breaker (cfg : InterceptorConfig) (svc : InterceptorService)
  (r1 r2 r3 : InterceptorRequest) (m1 m2 m3 : ChatMessage) (w : World) (timeout : Z)
  (ep : Endpoints) (t : Z) :
  validRequest r1 m1 -> validRequest r2 m2 -> validRequest r3 m3 ->
  state (circuitBreaker svc) = OPEN ->
  config (circuitBreaker svc) = config (circuitBreaker (newService cfg)) ->
  circuit_breaker_reset_ms cfg = Int timeout ->
  (timeout <= now w - lastFailureTime (circuitBreaker svc))%Z ->
  wss ep <> None ->
  statusCode (handleHealthCheck svc ep t) = 503%Z
  /\ breakerAfter cfg [Parsed r1] svc w
     = mkBreaker HALF_OPEN (failureCount (circuitBreaker svc)) 1
         (lastFailureTime (circuitBreaker svc)) (config (circuitBreaker svc))
  /\ statusCode (handleHealthCheck (fst (handleAll cfg [Parsed r1] (svc, w))) ep t)
     = 200%Z
  /\ breakerAfter cfg [Parsed r1; Parsed r2] svc w
     = mkBreaker HALF_OPEN (failureCount (circuitBreaker svc)) 2
         (lastFailureTime (circuitBreaker svc)) (config (circuitBreaker svc))
  /\ statusCode
       (handleHealthCheck (fst (handleAll cfg [Parsed r1; Parsed r2] (svc, w))) ep t)
     = 200%Z
  /\ breakerAfter cfg [Parsed r1; Parsed r2; Parsed r3] svc w
     = mkBreaker CLOSED 0 0 (lastFailureTime (circuitBreaker svc))
         (config (circuitBreaker svc))
  /\ statusCode
       (handleHealthCheck
          (fst (handleAll cfg [Parsed r1; Parsed r2; Parsed r3] (svc, w))) ep t)
     = 200%Z.
Proof.
  intros Hv1 Hv2 Hv3 Hs Hcfg Hreset Ht Hwss.
  assert (forall svc', state (circuitBreaker svc') <> OPEN ->
            statusCode (handleHealthCheck svc' ep t) = 200%Z) as Hup.
  { intros svc' Hst. unfold handleHealthCheck, getState.
    destruct (wss ep); [|contradiction].
    destruct (state (circuitBreaker svc')); [reflexivity | contradiction | reflexivity]. }
  split.
  { unfold handleHealthCheck, getState. rewrite Hs. cbn. now rewrite andb_false_r. }
  destruct svc as [cb]. cbn [circuitBreaker] in *.
  assert (r_halfOpenMaxAttempts (config cb) = Int 3) as Hh by (now rewrite Hcfg).
  set (half := fun k => mkBreaker HALF_OPEN (failureCount cb) k (lastFailureTime cb)
                         (config cb)).
  assert (forall request m w' k, validRequest request m -> (k < 3)%Z ->
            fst (handleMessage cfg (mkService (half k)) (Parsed request) w')
            = mkService (if (3 <=? k + 1)%Z
                         then mkBreaker CLOSED 0 0 (lastFailureTime cb) (config cb)
                         else half (k + 1)%Z)) as Hstep.
  { intros request m w' k Hv Hk.
    exact (probe_step cfg (half k) request m w' 3 Hv eq_refl Hh Hk). }
  assert (fst (handleAll cfg [Parsed r1] (mkService cb, w)) = mkService (half 1%Z)) as H1.
  { unfold handleAll. cbn [fold_left fst snd].
    rewrite (handleMessage_probe cfg (mkService cb) r1 m1 w Hv1 Hs).
    2:{ cbn [circuitBreaker]. rewrite Hcfg. cbn. rewrite Hreset. cbn. now apply Z.leb_le. }
    cbn [circuitBreaker]. change (BreakerFacts.probe cb) with (half 0%Z).
    now rewrite (Hstep r1 m1 w 0%Z Hv1 ltac:(lia)). }
  assert (forall frames rest,
            handleAll cfg (frames ++ rest) (mkService cb, w)
            = handleAll cfg rest (handleAll cfg frames (mkService cb, w))) as Happ.
  { intros frames rest. unfold handleAll. apply fold_left_app. }
  assert (forall frames request m k,
            validRequest request m -> (k < 3)%Z ->
            fst (handleAll cfg frames (mkService cb, w)) = mkService (half k) ->
            fst (handleAll cfg (frames ++ [Parsed request]) (mkService cb, w))
            = mkService (if (3 <=? k + 1)%Z
                         then mkBreaker CLOSED 0 0 (lastFailureTime cb) (config cb)
                         else half (k + 1)%Z)) as Hnext.
  { intros frames request m k Hv Hk Hprev. rewrite Happ.
    destruct (handleAll cfg frames (mkService cb, w)) as [svc' w'].
    cbn [fst] in Hprev. subst svc'. unfold handleAll. cbn [fold_left fst snd].
    exact (Hstep request m w' k Hv Hk). }
  pose proof (Hnext [Parsed r1] r2 m2 1%Z Hv2 ltac:(lia) H1) as H2.
  cbn [app] in H2. change (3 <=? 1 + 1)%Z with false in H2. change (1 + 1)%Z with 2%Z in H2.
  pose proof (Hnext [Parsed r1; Parsed r2] r3 m3 2%Z Hv3 ltac:(lia) H2) as H3.
  cbn [app] in H3. change (3 <=? 2 + 1)%Z with true in H3.
  unfold breakerAfter. rewrite H1, H2, H3. cbn [circuitBreaker].
  repeat split; apply Hup; cbn; discriminate.
Qed.

Lemma three_probes_close_the_breaker_witness :
  statusCode
    (handleHealthCheck trippedService (mkEndpoints (Some 0%nat) true (AsyncEmitter.new true))
       40000) = 503%Z
  /\ breakerAfter defaultConfig [Parsed phoneRequest] trippedService (worldAt 30000)
     = mkBreaker HALF_OPEN 5 1 0 (config (circuitBreaker trippedService))
  /\ statusCode
       (handleHealthCheck
          (fst (handleAll defaultConfig [Parsed phoneRequest]
                  (trippedService, worldAt 30000)))
          (mkEndpoints (Some 0%nat) true (AsyncEmitter.new true)) 40000) = 200%Z
  /\ breakerAfter defaultConfig [Parsed phoneRequest; Parsed phoneRequest] trippedService
       (worldAt 30000)
     = mkBreaker HALF_OPEN 5 2 0 (config (circuitBreaker trippedService))
  /\ statusCode
       (handleHealthCheck
          (fst (handleAll defaultConfig [Parsed phoneRequest; Parsed phoneRequest]
                  (trippedService, worldAt 30000)))
          (mkEndpoints (Some 0%nat) true (AsyncEmitter.new true)) 40000) = 200%Z
  /\ breakerAfter defaultConfig [Parsed phoneRequest; Parsed phoneRequest; Parsed phoneRequest]
       trippedService (worldAt 30000)
     = mkBreaker CLOSED 0 0 0 (config (circuitBreaker trippedService))
  /\ statusCode
       (handleHealthCheck
          (fst (handleAll defaultConfig
                  [Parsed phoneRequest; Parsed phoneRequest; Parsed phoneRequest]
                  (trippedService, worldAt 30000)))
          (mkEndpoints (Some 0%nat) true (AsyncEmitter.new true)) 40000) = 200%Z.
Proof.
  apply (three_probes_close_the_breaker defaultConfig trippedService
           phoneRequest phoneRequest phoneRequest
           (chat "Call me at (555) 123-4567 for more details")
           (chat "Call me at (555) 123-4567 for more details")
           (chat "Call me at (555) 123-4567 for more details")
           (worldAt 30000) 30000);
    [repeat split | repeat split | repeat split | reflexivity | reflexivity | reflexivity
    | cbn; lia | discriminate].
Defined.

End DispatcherProperties.

(* ================================================================== *)
(** * Properties of the emitter and of the risk badge                 *)
(* ================================================================== *)

Module EmitterProperties.
Import JS AsyncEmitter.

(** The delays of the first attempts, then the cap. *)
Definition backoff (times : nat) : float :=
  match times with
  | 0 => 1000
  | 1 => 2000
  | 2 => 4000
  | 3 => 8000
  | _ => 10000
  end%float.

Definition backoffAgrees (times : nat) : bool :=
  PrimFloat.Leibniz.eqb (retryStrategy times) (backoff times).

Lemma backoff_checked : forallb backoffAgrees (seq 0 2098) = true.
Proof. vm_compute. reflexivity. Qed.

(** From [2^2098] on, the power of two is the one the double format
    saturates at. *)
Lemma Math_pow2_saturates (times : nat) :
  2098 <= times -> Math_pow2 times = Math_pow2 2098.
Proof.
  intros H. unfold Math_pow2, Z.ldexp.
  replace (Z.min (Z.of_nat times) (emax - emin)) with (emax - emin)%Z.
  - reflexivity.
  - symmetry. apply Z.min_r. change (emax - emin)%Z with 2098%Z. lia.
Qed.

(** X28. The reconnection delay is 1000 ms times two to the attempt count,
    capped at 10000 ms: 1000, 2000, 4000 and 8000 for the counts 0 to 3,
    and 10000 for every count from 4 on, also where the power of two
    overflows. *)
Theorem retry_delay_doubles_up_to_ten_seconds (times : nat) :
  retryStrategy times = backoff times.
Proof.
  destruct (Nat.lt_ge_cases times 2098) as [Hlt | Hge].
  - pose proof backoff_checked as H. rewrite forallb_forall in H.
    apply FloatAxioms.Leibniz.eqb_spec. apply H. apply in_seq. lia.
  - unfold retryStrategy. rewrite (Math_pow2_saturates times Hge).
    do 4 (destruct times as [|times]; [lia|]). vm_compute. reflexivity.
Qed.

(** What can happen to an emitter from outside: an event of the Redis
    client, or the reconnection timer going off (which it only does while
    it is pending). *)
Inductive Happening : Type :=
| Client (ev : RedisEvent)
| Timer (created : bool).

Definition happen (e : AsyncEmitter) (h : Happening) : AsyncEmitter :=
  match h with
  | Client ev => on ev e
  | Timer created => if reconnectTimer e then onReconnectTimer created e else e
  end.

(** X29. After [disconnect] the emitter never reports connected again:
    late events of the old client do not count, since the client is gone,
    and the timer that would reconnect has been cleared. *)
Theorem disconnect_is_final (e : AsyncEmitter) (hs : list Happening) :
  isConnected (fold_left happen hs (disconnect e)) = false.
Proof.
  enough (forall e', redis e' = false -> reconnectTimer e' = false ->
                     isConnected (fold_left happen hs e') = false) as H.
  { apply H; unfold disconnect; destruct e as [[] c []]; reflexivity. }
  induction hs as [|h hs IH]; intros [r c t] Hr Ht; cbn in Hr, Ht; subst r t.
  - cbn. apply andb_false_r.
  - cbn [fold_left]. apply IH; destruct h as [[] | created]; reflexivity.
Qed.

End EmitterProperties.

Module RiskBadgeProperties.
Import JS Types Interceptor ScorerFacts ScorerProperties FloatFacts RiskBadge.
Local Open Scope string_scope.

(** The band of an action under the default thresholds. *)
Definition bandOfAction (action : string) (score : float) : string :=
  if String.eqb action "hard_block"
  then (if float_geb score 0.85 then "Critical" else "High")
  else if String.eqb action "nudge" then "Medium"
  else "Low".

(** X30. Under the default configuration the dashboard's band and the
    interceptor's decision agree on every message: allowed without a nudge
    is Low, a nudge is Medium, a hard block is High or Critical. *)
Theorem risk_band_agrees_with_action (message : ChatMessage) :
  label (getRiskBand (risk_score (interceptMessage Scenarios.defaultConfig message)))
  = bandOfAction (action (interceptMessage Scenarios.defaultConfig message))
      (risk_score (interceptMessage Scenarios.defaultConfig message)).
Proof.
  destruct (interceptMessage_paths Scenarios.defaultConfig message)
    as [[_ ->] | [(text & _ & _ & ->) | (text & _ & _ & ->)]];
    [reflexivity | reflexivity |].
  unfold verdict, getRiskBand, bandOfAction, float_geb.
  change (sync_threshold Scenarios.defaultConfig) with 0.65%float.
  set (s := calculateRiskScore (scanPatterns text)).
  destruct (PrimFloat.leb 0.65 s) eqn:H65; cbn [risk_score action].
  - change (String.eqb "hard_block" "hard_block") with true. cbv iota.
    destruct (PrimFloat.leb 0.85 s); [reflexivity|]. rewrite H65. reflexivity.
  - destruct (PrimFloat.leb 0.85 s) eqn:H85.
    + exfalso. rewrite (leb_trans 0.65 0.85 s eq_refl H85) in H65. discriminate.
    + destruct (PrimFloat.leb 0.4 s) eqn:H40; cbn [risk_score action];
        rewrite H85, H65, H40; reflexivity.
Qed.

End RiskBadgeProperties.
